(** * HandshakeVerilatorWrapper: the HLT wrapper generator for handshake kernels

    A shallow embedding of
    [tools/hlt/WrapGen/HandshakeVerilatorWrapper.cpp]: the C++ methods of
    [HandshakeVerilatorWrapper] become functions in a small state monad over
    the wrapper object (its operation fields, the operations performed on its
    output streams, the diagnostics reported so far).  Assertions and null
    dereferences stop a run ([Crashed]); a [LogicalResult] is an ordinary
    returned value that the callers test, as the source does. *)

From Stdlib Require Import String Ascii ZArith List Bool Arith Lia DecimalString.
Import ListNotations.

Local Open Scope list_scope.
Local Open Scope string_scope.

(** ** Characters and numbers as the generated text needs them *)

(** The newline and the double quote that the C++ literals escape. *)
Definition nl : string := String (ascii_of_nat 10) EmptyString.
Definition dq : string := String (ascii_of_nat 34) EmptyString.

(** [std::to_string] on an [unsigned]. *)
Definition to_string (n : nat) : string :=
  NilEmpty.string_of_uint (Nat.to_uint n).

(** [raw_ostream << int64_t]. *)
Definition int64_to_string (z : Z) : string :=
  NilZero.string_of_int (Z.to_int z).

(** Conversion of a signed value to C++ [unsigned] (32 bits, wrap-around). *)
Definition to_unsigned (z : Z) : Z := z mod 2 ^ 32.

(** [StringRef::startswith]. *)
Definition startswith (s pre : string) : bool := String.prefix pre s.

(** ** The compiler infrastructure the generator reads *)

Module MLIR.

(** Builtin types, as far as the generator tells them apart. *)
Inductive Type_ : Type :=
| IntegerType (width : Z)
| IndexType
| MemRefType (shape : list Z) (elementType : Type_)
| OpaqueType (name : string).

(** [t.dyn_cast<MemRefType>()]: the shape and the element type. *)
Definition dyn_cast_MemRefType (t : Type_) : option (list Z * Type_) :=
  match t with
  | MemRefType shape elt => Some (shape, elt)
  | _ => None
  end.

(** [func::FuncOp]: the software function whose signature is wrapped. *)
Record FuncOp : Type := mkFuncOp {
  getName : string;
  getInputs : list Type_;
  getResults : list Type_
}.

Definition getNumArguments (f : FuncOp) : nat := length (getInputs f).
Definition getNumResults (f : FuncOp) : nat := length (getResults f).

Inductive LogicalResult : Type := success | failure.

Definition failed (r : LogicalResult) : bool :=
  match r with failure => true | success => false end.

End MLIR.

Module FIRRTL.

(** A FIRRTL type: a ground type, known here by the value
    [getBitWidthOrSentinel] reports for it (-1 when the width is not
    inferred), or a bundle of named elements. *)
Inductive FIRRTLType_ : Type :=
| GroundType (bitWidthOrSentinel : Z)
| BundleType (elements : list BundleElement)
with BundleElement : Type :=
| mkElement (name : string) (type : FIRRTLType_).

Definition name (e : BundleElement) : string :=
  match e with mkElement n _ => n end.
Definition type (e : BundleElement) : FIRRTLType_ :=
  match e with mkElement _ t => t end.

(** Aggregates have no bit width: the library answers -2 for them. *)
Definition getBitWidthOrSentinel (t : FIRRTLType_) : Z :=
  match t with
  | GroundType w => w
  | BundleType _ => -2
  end.

(** [BundleType::getElement(name)]: the first element of that name. *)
Fixpoint getElement (elts : list BundleElement) (n : string)
  : option BundleElement :=
  match elts with
  | [] => None
  | e :: rest => if String.eqb (name e) n then Some e else getElement rest n
  end.

(** An [FModuleLike]: the ordered ports of the hardware module. *)
Record FModuleLike : Type := mkFModuleLike {
  ports : list (string * FIRRTLType_)
}.

End FIRRTL.

Module Handshake.

(** A user of a block argument of the handshake function. *)
Inductive User : Type :=
| ExternalMemoryOp (ldCount stCount : nat)
| OtherUser (opName : string).

(** [handshake::FuncOp]: for each block argument, the list of its users
    (what [getArgument(idx).getUsers()] iterates over). *)
Record FuncOp : Type := mkFuncOp {
  argumentUsers : list (list User)
}.

End Handshake.

Import MLIR.

(** An [Operation *] that is not null points to one of these. *)
Inductive Operation : Type :=
| HandshakeFuncOperation (f : Handshake.FuncOp)
| FModuleLikeOperation (m : FIRRTL.FModuleLike)
| OtherOperation (opName : string).

Definition dyn_cast_HandshakeFuncOp (op : Operation) : option Handshake.FuncOp :=
  match op with HandshakeFuncOperation f => Some f | _ => None end.

Definition dyn_cast_FModuleLike (op : Operation) : option FIRRTL.FModuleLike :=
  match op with FModuleLikeOperation m => Some m | _ => None end.

(** ** The output streams *)

(** What is inserted with [<<]: a string literal of the generator's source, or
    a value computed at run time (a name, a number, a type token). *)
Inductive Operand : Type :=
| L (literal : string)
| V (value : string).

(** [osi()] is the indenting stream over the output file, [os()] the file's
    own stream; both end in the same file. *)
Inductive Target : Type := Osi | Os.

(** One operation on the output: an insertion, or a change of the indentation
    of [osi()]. *)
Inductive StreamOp : Type :=
| Write (t : Target) (x : Operand)
| Indent
| Unindent.

(** ** The wrapper object and its monad *)

Inductive Diagnostic : Type :=
| Error (op : Operation) (msg : string)        (* op->emitError() << msg *)
| OpError (op : Operation) (msg : string).     (* op->emitOpError() << msg *)

Record Wrapper : Type := mkWrapper {
  funcOp : MLIR.FuncOp;
  hsOp : option Handshake.FuncOp;          (* null until [init] *)
  firrtlOp : option FIRRTL.FModuleLike;    (* null until set *)
  stream : list StreamOp;                  (* oldest operation first *)
  diags : list Diagnostic                  (* oldest diagnostic first *)
}.

Inductive Crash : Type :=
| AssertionFailed (msg : string)
| NullDereference
| BadCast
| IndexOutOfRange.

Inductive Outcome (A : Type) : Type :=
| Returned (a : A)
| Crashed (c : Crash).
Arguments Returned {A} a.
Arguments Crashed {A} c.

Definition M (A : Type) : Type := Wrapper -> Outcome A * Wrapper.

Definition ret {A} (a : A) : M A := fun w => (Returned a, w).

Definition bind {A B} (m : M A) (k : A -> M B) : M B :=
  fun w =>
    match m w with
    | (Returned a, w') => k a w'
    | (Crashed c, w') => (Crashed c, w')
    end.

Definition crash {A} (c : Crash) : M A := fun w => (Crashed c, w).

Declare Scope wrapper_scope.
Delimit Scope wrapper_scope with wrapper.
Notation "x <- m ;; k" := (bind m (fun x => k))
  (at level 61, m at next level, right associativity) : wrapper_scope.
Notation "m ;;; k" := (bind m (fun _ => k))
  (at level 61, right associativity) : wrapper_scope.
(** [if (r.failed()) return failure();] followed by the rest. *)
Notation "'check' m ;; k" :=
  (bind m (fun r => if failed r then ret failure else k))
  (at level 61, m at next level, right associativity) : wrapper_scope.
Local Open Scope wrapper_scope.

(** [assert(cond && msg)]. *)
Definition assert (cond : bool) (msg : string) : M unit :=
  if cond then ret tt else crash (AssertionFailed msg).

(** Going through a pointer. *)
Definition deref {A} (p : option A) : M A :=
  match p with
  | Some a => ret a
  | None => crash NullDereference
  end.

(** [dyn_cast<T>(p)] on a pointer that may be null: the cast asserts that
    its operand is there before it looks at it. *)
Definition dyn_cast_operand {A} (p : option A) : M A :=
  match p with
  | Some a => ret a
  | None => crash (AssertionFailed "dyn_cast on a non-existent value")
  end.

Definition addOps (w : Wrapper) (ops : list StreamOp) : Wrapper :=
  mkWrapper (funcOp w) (hsOp w) (firrtlOp w) (stream w ++ ops) (diags w).

Definition addDiag (w : Wrapper) (d : Diagnostic) : Wrapper :=
  mkWrapper (funcOp w) (hsOp w) (firrtlOp w) (stream w) (diags w ++ [d]).

(** [os << a << b << ...] on the given stream. *)
Definition put (t : Target) (xs : list Operand) : M unit :=
  fun w => (Returned tt, addOps w (map (Write t) xs)).

Definition osi_indent : M unit := fun w => (Returned tt, addOps w [Indent]).
Definition osi_unindent : M unit := fun w => (Returned tt, addOps w [Unindent]).

Definition emitError (op : Operation) (msg : string) : M LogicalResult :=
  fun w => (Returned failure, addDiag w (Error op msg)).

Definition emitOpError (op : Operation) (msg : string) : M LogicalResult :=
  fun w => (Returned failure, addDiag w (OpError op msg)).

Definition getFuncOp : M MLIR.FuncOp := fun w => (Returned (funcOp w), w).
Definition getHsOp : M Handshake.FuncOp := fun w => deref (hsOp w) w.
Definition getFirrtlOp : M FIRRTL.FModuleLike := fun w => deref (firrtlOp w) w.

Definition setHsOp (h : Handshake.FuncOp) : M unit :=
  fun w => (Returned tt,
            mkWrapper (funcOp w) (Some h) (firrtlOp w) (stream w) (diags w)).

Definition setFirrtlOp (m : FIRRTL.FModuleLike) : M unit :=
  fun w => (Returned tt,
            mkWrapper (funcOp w) (hsOp w) (Some m) (stream w) (diags w)).

(** Indexing an array of the infrastructure: asserts the index is in range. *)
Definition at_index {A} (l : list A) (idx : nat) : M A :=
  match nth_error l idx with
  | Some a => ret a
  | None => crash IndexOutOfRange
  end.

(** [for (auto &x : enumerate(xs)) if (body(x.value(), x.index()).failed())
    return failure();]: the result is [failure] when the loop returned,
    [success] when it ran to its end. *)
Fixpoint forEnumerate {A} (body : A -> nat -> M LogicalResult)
    (idx : nat) (xs : list A) : M LogicalResult :=
  match xs with
  | [] => ret success
  | x :: rest => check body x idx ;; forEnumerate body (S idx) rest
  end.

(** [for (unsigned i = from; i < from + count; ++i)] with a body that may
    [return failure()]. *)
Fixpoint forRange (body : nat -> M LogicalResult)
    (from count : nat) : M LogicalResult :=
  match count with
  | O => ret success
  | S count' => check body from ;; forRange body (S from) count'
  end.

(** ** The wrapper's methods *)

Section HandshakeVerilatorWrapper.

(** The type emitters of [VerilatorEmitterUtils.h] are used through their
    interface only: given a type (or a bit width) they insert one type
    token into the stream they are handed and succeed, or insert nothing
    and fail. *)
Variable emitVerilatorType_token : MLIR.Type_ -> option string.
Variable emitVerilatorTypeFromWidth_token : Z -> option string.

Definition run_emitter (os : Target) (token : option string)
  : M LogicalResult :=
  match token with
  | Some tok => put os [V tok] ;;; ret success
  | None => ret failure
  end.

Definition emitVerilatorType (os : Target) (t : MLIR.Type_)
  : M LogicalResult :=
  run_emitter os (emitVerilatorType_token t).

Definition emitVerilatorTypeFromWidth (os : Target) (width : Z)
  : M LogicalResult :=
  run_emitter os (emitVerilatorTypeFromWidth_token width).

(** Modelled from the spec: [BaseWrapper::funcName] is defined outside this
    file; it is the symbol name of the wrapped function (spec 6). *)
Definition funcName : M string :=
  f <- getFuncOp ;; ret (getName f).

(** [llvm::interleaveComma]. *)
Fixpoint interleaveComma (xs : list Operand) : list Operand :=
  match xs with
  | [] => []
  | [x] => [x]
  | x :: rest => x :: L ", " :: interleaveComma rest
  end.

(** Modelled from the spec: [BaseWrapper::emitIOTypes] is declared in
    BaseWrapper.h and defined outside this file.  Spec 4.4 (b): for each
    argument/result position, emit one type alias via the type emitter (one
    name per position, reused consistently downstream); 4.4 (c) names the
    two alias groups the simulation interface is parameterized over. *)
Definition emitIOTypes (emitter : Target -> MLIR.Type_ -> M LogicalResult)
  : M LogicalResult :=
  f <- getFuncOp ;;
  check forEnumerate (fun t idx =>
          put Osi [L "using TArg"; V (to_string idx); L " = "] ;;;
          check emitter Osi t ;;
          put Osi [L (";" ++ nl)] ;;;
          ret success) 0 (getInputs f) ;;
  put Osi [L "using TInput = std::tuple<"] ;;;
  put Osi (interleaveComma (map (fun i => V ("TArg" ++ to_string i))
                                (seq 0 (getNumArguments f)))) ;;;
  put Osi [L (">;" ++ nl ++ nl)] ;;;
  check forEnumerate (fun t idx =>
          put Osi [L "using TRes"; V (to_string idx); L " = "] ;;;
          check emitter Osi t ;;
          put Osi [L (";" ++ nl)] ;;;
          ret success) 0 (getResults f) ;;
  put Osi [L "using TOutput = std::tuple<"] ;;;
  put Osi (interleaveComma (map (fun i => V ("TRes" ++ to_string i))
                                (seq 0 (getNumResults f)))) ;;;
  put Osi [L (">;" ++ nl ++ nl)] ;;;
  ret success.

(** [HandshakeVerilatorWrapper::init]. *)
Definition init (refOp kernelOp : option Operation) : M LogicalResult :=
  match refOp, kernelOp with
  | Some r, Some k =>
      match dyn_cast_HandshakeFuncOp r with
      | None =>
          emitOpError r
            "expected reference operation to be a handshake.func operation."
      | Some hsRefOp =>
          match dyn_cast_FModuleLike k with
          | None =>
              (* firrtlLikeOp->emitOpError(): through the null cast result *)
              op <- deref (@None Operation) ;;
              emitOpError op
                "expected reference operation to be a firrtl FModuleLike operation."
          | Some firrtlLikeOp =>
              setHsOp hsRefOp ;;;
              setFirrtlOp firrtlLikeOp ;;;
              ret success
          end
      end
  | _, _ =>
      (* refOp->emitError() *)
      op <- deref refOp ;;
      emitError op
        "Expected both a reference and a kernel operation for wrapping a handshake simulator."
  end.

(** [HandshakeVerilatorWrapper::getIncludes]. *)
Definition getIncludes : M (list string) :=
  n <- funcName ;;
  ret [ "V" ++ n ++ ".h";
        "circt-hls/Tools/hlt/Simulator/HandshakeSimInterface.h";
        "circt-hls/Tools/hlt/Simulator/SimDriver.h";
        "cstdint" ].

(** [firrtlOp.getPortName(idx)] and [firrtlOp.getPortType(idx)]. *)
Definition getPortName (idx : nat) : M string :=
  m <- getFirrtlOp ;;
  p <- at_index (FIRRTL.ports m) idx ;;
  ret (fst p).

Definition getPortType (idx : nat) : M FIRRTL.FIRRTLType_ :=
  m <- getFirrtlOp ;;
  p <- at_index (FIRRTL.ports m) idx ;;
  ret (snd p).

(** [HandshakeVerilatorWrapper::inCtrlIdx]. *)
Definition inCtrlIdx : M nat :=
  f <- getFuncOp ;; ret (getNumArguments f).

(** [HandshakeVerilatorWrapper::getResName]. *)
Definition getResName (idx : nat) : M string :=
  c <- inCtrlIdx ;;
  getPortName (idx + c + 1).

(** [HandshakeVerilatorWrapper::getInputName]. *)
Definition getInputName (idx : nat) : M string :=
  getPortName idx.

(** [HandshakeVerilatorWrapper::getBundleDataWidth]. *)
Definition getBundleDataWidth (bundleType : list FIRRTL.BundleElement)
  : M Z :=
  let dataSig := FIRRTL.getElement bundleType "data" in
  assert (match dataSig with Some _ => true | None => false end)
         "Expected bundle to have a data signal" ;;;
  d <- deref dataSig ;;
  ret (to_unsigned (FIRRTL.getBitWidthOrSentinel (FIRRTL.type d))).

(** [type.cast<firrtl::BundleType>()]. *)
Definition cast_BundleType (t : FIRRTL.FIRRTLType_)
  : M (list FIRRTL.BundleElement) :=
  match t with
  | FIRRTL.BundleType elts => ret elts
  | _ => crash BadCast
  end.

(** [cast<handshake::ExternalMemoryOp>(op)]: the load and store counts. *)
Definition cast_ExternalMemoryOp (u : Handshake.User) : M (nat * nat) :=
  match u with
  | Handshake.ExternalMemoryOp ld st => ret (ld, st)
  | _ => crash BadCast
  end.

(** [emitHSPortCtor]. *)
Definition emitHSPortCtor (os : Target) (prefix : string) (hasData : bool)
  : M unit :=
  put os [L ("(" ++ dq); V prefix; L (dq ++ ", ")] ;;;
  put os [L "&dut->"; V prefix; L "_ready, "] ;;;
  put os [L "&dut->"; V prefix; L "_valid"] ;;;
  (if hasData then put os [L ", &dut->"; V prefix; L "_data"] else ret tt) ;;;
  put os [L ")"].

(** [emitHSTypeAssert]. *)
Definition emitHSTypeAssert (os : Target) (type value err : string)
  : M unit :=
  put os [L "static_assert(std::is_same<"; V type; L ", typeof("; V value;
          L (")>::value, " ++ dq); V err; L (dq ++ ");" ++ nl)].

(** The loop of [emitExtMemPort] over the signals of the memory port's
    bundle: every signal named as a load or store address overwrites
    [addrWidth]. *)
Fixpoint findAddrWidth (sigs : list FIRRTL.BundleElement) (addrWidth : Z)
  : M Z :=
  match sigs with
  | [] => ret addrWidth
  | sig :: rest =>
      if startswith (FIRRTL.name sig) "ldAddr"
         || startswith (FIRRTL.name sig) "stAddr"
      then
        b <- cast_BundleType (FIRRTL.type sig) ;;
        w <- getBundleDataWidth b ;;
        findAddrWidth rest w
      else findAddrWidth rest addrWidth
  end.

(** The address width [emitExtMemPort] settles on: the loop, then the
    assertion that follows it. *)
Definition resolveAddrWidth (sigs : list FIRRTL.BundleElement) : M Z :=
  addrWidth <- findAddrWidth sigs 0 ;;
  assert (0 <? addrWidth)%Z "Found no address signal in memory bundle!" ;;;
  ret addrWidth.

(** The body of the load-port loop of [emitExtMemPort]. *)
Definition emitLoadPort (name : string) (elementType : MLIR.Type_)
    (addrWidth : Z) (i : nat) : M LogicalResult :=
  put Osi [V name; L ("->addLoadPort(" ++ nl)] ;;;
  osi_indent ;;;
  (* Data port *)
  put Osi [L "std::make_shared<HandshakeDataInPort<"] ;;;
  _ <- getHsOp ;;
  check emitVerilatorType Os elementType ;;
  put Osi [L ">>"] ;;;
  emitHSPortCtor Osi (name ++ "_ldData" ++ to_string i) true ;;;
  put Osi [L ("," ++ nl)] ;;;
  (* Address port *)
  put Osi [L "std::make_shared<HandshakeDataOutPort<"] ;;;
  _ <- getHsOp ;;
  check emitVerilatorTypeFromWidth Os addrWidth ;;
  put Osi [L ">>"] ;;;
  emitHSPortCtor Osi (name ++ "_ldAddr" ++ to_string i) true ;;;
  put Osi [L ("," ++ nl)] ;;;
  (* done port *)
  put Osi [L "std::make_shared<HandshakeInPort>"] ;;;
  emitHSPortCtor Osi (name ++ "_ldDone" ++ to_string i) false ;;;
  put Osi [L (");" ++ nl)] ;;;
  osi_unindent ;;;
  ret success.

(** The body of the store-port loop of [emitExtMemPort]. *)
Definition emitStorePort (name : string) (elementType : MLIR.Type_)
    (addrWidth : Z) (i : nat) : M LogicalResult :=
  put Osi [V name; L ("->addStorePort(" ++ nl)] ;;;
  osi_indent ;;;
  (* Data port *)
  put Osi [L "std::make_shared<HandshakeDataOutPort<"] ;;;
  _ <- getHsOp ;;
  check emitVerilatorType Os elementType ;;
  put Osi [L ">>"] ;;;
  emitHSPortCtor Osi (name ++ "_stData" ++ to_string i) true ;;;
  put Osi [L ("," ++ nl)] ;;;
  (* Address port *)
  put Osi [L "std::make_shared<HandshakeDataOutPort<"] ;;;
  _ <- getHsOp ;;
  check emitVerilatorTypeFromWidth Os addrWidth ;;
  put Osi [L ">>"] ;;;
  emitHSPortCtor Osi (name ++ "_stAddr" ++ to_string i) true ;;;
  put Osi [L ("," ++ nl)] ;;;
  (* done port *)
  put Osi [L "std::make_shared<HandshakeInPort>"] ;;;
  emitHSPortCtor Osi (name ++ "_stDone" ++ to_string i) false ;;;
  put Osi [L (");" ++ nl)] ;;;
  osi_unindent ;;;
  ret success.

(** [HandshakeVerilatorWrapper::emitExtMemPort]. *)
Definition emitExtMemPort (shape : list Z) (elementType : MLIR.Type_)
    (idx : nat) : M LogicalResult :=
  assert (length shape =? 1)%nat "Only support unidimensional memories" ;;;
  name <- getInputName idx ;;
  (* Find any ldAddr#/stAddr# bundle within the memory port *)
  portType <- getPortType idx ;;
  bundleType <- cast_BundleType portType ;;
  addrWidth <- resolveAddrWidth bundleType ;;
  put Osi [L "auto "; V name;
           L " = addInputPort<HandshakeMemoryInterface<"] ;;;
  _ <- getHsOp ;;
  check emitVerilatorType Osi elementType ;;
  put Osi [L ", "] ;;;
  _ <- getHsOp ;;
  check emitVerilatorTypeFromWidth Osi addrWidth ;;
  front <- at_index shape 0 ;;
  put Osi [L ">>(/*size=*/"; V (int64_to_string front); L (");" ++ nl)] ;;;
  (* Locate the external memory operation referencing the input *)
  h <- getHsOp ;;
  extMemUsers <- at_index (Handshake.argumentUsers h) idx ;;
  assert (length extMemUsers =? 1)%nat
         "expected exactly 1 user of a memref input argument" ;;;
  user <- at_index extMemUsers 0 ;;
  extMemOp <- cast_ExternalMemoryOp user ;;
  (* Load ports *)
  check forRange (emitLoadPort name elementType addrWidth)
                 0 (fst extMemOp) ;;
  (* Store ports *)
  check forRange (emitStorePort name elementType addrWidth)
                 0 (snd extMemOp) ;;
  ret success.

Definition typeMismatchMessage : string :=
  "Type mismatch between handshake data port type and actual port type. This might be a verilator version issue".

(** [HandshakeVerilatorWrapper::emitInputPort]. *)
Definition emitInputPort (t : MLIR.Type_) (idx : nat) : M LogicalResult :=
  match dyn_cast_MemRefType t with
  | Some (shape, elementType) => emitExtMemPort shape elementType idx
  | None =>
      arg <- getInputName idx ;;
      let dataType := "TArg" ++ to_string idx in
      emitHSTypeAssert Osi dataType ("dut->" ++ arg ++ "_data")
                       typeMismatchMessage ;;;
      put Osi [L "addInputPort<HandshakeDataInPort<"; V dataType; L ">>"] ;;;
      emitHSPortCtor Osi arg true ;;;
      put Osi [L (";" ++ nl)] ;;;
      ret success
  end.

(** [HandshakeVerilatorWrapper::emitOutputPort]. *)
Definition emitOutputPort (t : MLIR.Type_) (idx : nat) : M LogicalResult :=
  arg <- getResName idx ;;
  let dataType := "TRes" ++ to_string idx in
  emitHSTypeAssert Osi dataType ("dut->" ++ arg ++ "_data")
                   typeMismatchMessage ;;;
  put Osi [L "addOutputPort<HandshakeDataOutPort<"; V dataType; L ">>"] ;;;
  emitHSPortCtor Osi arg true ;;;
  put Osi [L (";" ++ nl)] ;;;
  ret success.

(** The software interface of the simulator: the second part of
    [emitSimulator], from its two loops to the closing braces. *)
Definition emitSoftwareInterface : M LogicalResult :=
  put Osi [L ("// --- Software interface" ++ nl)] ;;;
  f <- getFuncOp ;;
  put Osi [L ("// - Input ports" ++ nl)] ;;;
  check forEnumerate emitInputPort 0 (getInputs f) ;;
  put Osi [L (nl ++ "// - Output ports" ++ nl)] ;;;
  check forEnumerate emitOutputPort 0 (getResults f) ;;
  osi_unindent ;;;
  put Osi [L ("};" ++ nl)] ;;;
  osi_unindent ;;;
  put Osi [L ("};" ++ nl ++ nl)] ;;;
  ret success.

(** [HandshakeVerilatorWrapper::emitSimulator]. *)
Definition emitSimulator : M LogicalResult :=
  n <- funcName ;;
  put Osi [L "class "; V n; L "Sim : public "; V n;
           L ("SimInterface {" ++ nl)] ;;;
  put Osi [L ("public:" ++ nl)] ;;;
  osi_indent ;;;
  put Osi [V n; L "Sim() : "; V n; L ("SimInterface() {" ++ nl)] ;;;
  osi_indent ;;;
  put Osi [L ("// --- Generic Verilator interface" ++ nl)] ;;;
  put Osi [L ("interface.clock = &dut->clock;" ++ nl)] ;;;
  put Osi [L ("interface.reset = &dut->reset;" ++ nl ++ nl)] ;;;
  c <- inCtrlIdx ;;
  inCtrlName <- getInputName c ;;
  f <- getFuncOp ;;
  outCtrlName <- getResName (getNumResults f) ;;
  put Osi [L ("// --- Handshake interface" ++ nl)] ;;;
  put Osi [L "inCtrl = std::make_unique<HandshakeInPort>(&dut->";
           V inCtrlName; L "_ready, &dut->"; V inCtrlName;
           L ("_valid);" ++ nl)] ;;;
  put Osi [L "outCtrl = std::make_unique<HandshakeOutPort>(&dut->";
           V outCtrlName; L "_ready, &dut->"; V outCtrlName;
           L ("_valid);" ++ nl)] ;;;
  put Osi [L nl] ;;;
  emitSoftwareInterface.

(** [HandshakeVerilatorWrapper::emitPreamble]. *)
Definition emitPreamble (kernelOp : option Operation) : M LogicalResult :=
  (* dyn_cast<firrtl::FModuleLike>(kernelOp), with no test for null *)
  k <- dyn_cast_operand kernelOp ;;
  match dyn_cast_FModuleLike k with
  | None =>
      emitOpError k
        "Expected a FIRRTL module of the handshake kernel that is to be wrapped"
  | Some handshakeFirMod =>
      check emitIOTypes emitVerilatorType ;;
      (* Emit model type. *)
      n <- funcName ;;
      put Osi [L "using TModel = V"; V n; L (";" ++ nl)] ;;;
      put Osi [L "using "; V n;
               L ("SimInterface = HandshakeSimInterface<TInput, TOutput, TModel>;"
                  ++ nl ++ nl)] ;;;
      (* Emit simulator. *)
      setFirrtlOp handshakeFirMod ;;;
      check emitSimulator ;;
      (* Emit simulator driver type. *)
      put Osi [L "using TSim = "; V n; L ("Sim;" ++ nl)] ;;;
      ret success
  end.

End HandshakeVerilatorWrapper.

(** ** A concrete type emitter and the scenarios of the specification *)

Module Verilator.

(** Modelled from the spec: the Port/Type Emitter ([emitVerilatorType] and
    [emitVerilatorTypeFromWidth] of VerilatorEmitterUtils) is not in this
    file.  Spec 4.1: it maps a data type to a fixed-width integer type
    derived from the bit width, and fails for any type outside fixed-width
    integer and memory of fixed-width integer; a zero or unknown width gets
    no type (the spec makes it fatal; an emitter here can only fail). *)
Definition typeFromWidth (width : Z) : option string :=
  if (width <=? 0)%Z then None
  else if (width <=? 8)%Z then Some "CData"
  else if (width <=? 16)%Z then Some "SData"
  else if (width <=? 32)%Z then Some "IData"
  else if (width <=? 64)%Z then Some "QData"
  else None.

(** Modelled from the spec: the type emitter on a type (spec 4.1): a
    fixed-width integer, or a memory of fixed-width integers, which becomes
    a pointer to the element type. *)
Definition typeToken (t : MLIR.Type_) : option string :=
  match t with
  | IntegerType w => typeFromWidth w
  | MemRefType _ (IntegerType w) =>
      match typeFromWidth w with
      | Some tok => Some (tok ++ "*")
      | None => None
      end
  | _ => None
  end.

End Verilator.

Module Scenario.

Import FIRRTL.

Definition channel (dataWidth : Z) : FIRRTLType_ :=
  BundleType [mkElement "ready" (GroundType 1);
              mkElement "valid" (GroundType 1);
              mkElement "data" (GroundType dataWidth)].

Definition control : FIRRTLType_ :=
  BundleType [mkElement "ready" (GroundType 1);
              mkElement "valid" (GroundType 1)].

Definition fresh (f : MLIR.FuncOp) (h : option Handshake.FuncOp) : Wrapper :=
  mkWrapper f h None [] [].

(** Scenario A: signature (i32) -> i32. *)
Definition funcA : MLIR.FuncOp :=
  MLIR.mkFuncOp "top" [IntegerType 32] [IntegerType 32].
Definition moduleA : FModuleLike :=
  mkFModuleLike [("in0", channel 32); ("inCtrl", control);
                 ("out0", channel 32); ("outCtrl", control)].
Definition hsA : Handshake.FuncOp :=
  Handshake.mkFuncOp [[Handshake.OtherUser "handshake.return"]; []].

(** Scenario B: signature (memref<8xi32>) -> (), one load, no store. *)
Definition memPort : FIRRTLType_ :=
  BundleType [mkElement "ldAddr0" (channel 3);
              mkElement "ldData0" (channel 32);
              mkElement "ldDone0" control].
Definition funcB : MLIR.FuncOp :=
  MLIR.mkFuncOp "top" [MemRefType [8%Z] (IntegerType 32)] [].
Definition moduleB : FModuleLike :=
  mkFModuleLike [("in0", memPort); ("inCtrl", control);
                 ("outCtrl", control)].
Definition hsB : Handshake.FuncOp :=
  Handshake.mkFuncOp [[Handshake.ExternalMemoryOp 1 0]; []].

(** Scenario C: the memory argument has two consumers. *)
Definition hsC : Handshake.FuncOp :=
  Handshake.mkFuncOp [[Handshake.ExternalMemoryOp 1 0;
                       Handshake.ExternalMemoryOp 0 1]; []].

End Scenario.


(** * The driver: [tools/hlt/WrapGen/WrapGen.cpp]

    The tool that looks the operations up and hands them to a wrapper.  What
    lies outside the file is a variable of the section: the files and the
    standard input ([MemoryBuffer::getFileOrSTDIN], [sys::fs::exists]), the
    MLIR parser and [BaseWrapper::wrap].  The state of a run is the state of
    that outside world, the [modules] vector, what the driver has written to
    [errs()], and the calls it has made to the outside, oldest first. *)
Module WrapGen.

Import MLIR.

(** [enum class KernelType]. *)
Inductive KernelType : Type := HandshakeFIRRTL | Calyx | Standard.

(** The command-line options, once [cl::ParseCommandLineOptions] has run. *)
Record Options : Type := mkOptions {
  inputFunctionFilename : string;       (* --func *)
  inputReferenceFilename : string;      (* --ref *)
  inputKernelFilename : string;         (* --kernel *)
  inputKernelOccurrences : nat;  (* inputKernelFilename.getNumOccurrences() *)
  outputDirectory : string;             (* -o *)
  functionName : string;                (* --name *)
  kernelType : KernelType               (* --type *)
}.

(** An [Operation *] found by a symbol lookup: a [func.func], which the
    driver casts to, or any other operation. *)
Inductive SymbolOp : Type :=
| FuncFuncOperation (f : MLIR.FuncOp)
| NonFuncOperation (op : Operation).

Definition dyn_cast_FuncOp (op : SymbolOp) : option MLIR.FuncOp :=
  match op with FuncFuncOperation f => Some f | NonFuncOperation _ => None end.

(** A symbol table operation, as the symbols it defines, in the order of its
    body. *)
Definition SymbolTable : Type := list (string * SymbolOp).

(** [SymbolTable::lookupSymbolIn(symOp, symbol)]. *)
Definition lookupSymbolIn (symOp : SymbolTable) (symbol : string)
    : option SymbolOp :=
  match find (fun d => String.eqb (fst d) symbol) symOp with
  | Some d => Some (snd d)
  | None => None
  end.

(** A parsed module, as the symbol tables that
    [SymbolTable::walkSymbolTables] visits in it, in the order of the
    visit. *)
Record ModuleOp : Type := mkModuleOp {
  symbolTables : list SymbolTable
}.

(** The wrappers that [getWrapper] can make, each with its output
    directory. *)
Inductive BaseWrapper : Type :=
| HandshakeVerilatorWrapper (outDir : string)
| StdWrapper (outDir : string)
| CalyxVerilatorWrapper (outDir : string).

(** [getWrapper]. *)
Definition getWrapper (opts : Options) : option BaseWrapper :=
  match kernelType opts with
  | HandshakeFIRRTL => Some (HandshakeVerilatorWrapper (outputDirectory opts))
  | Standard => Some (StdWrapper (outputDirectory opts))
  | Calyx => Some (CalyxVerilatorWrapper (outputDirectory opts))
  end.

(** One call of [wrapper->wrap(funcOp, refOp, kernelOp)]. *)
Record WrapCall : Type := mkWrapCall {
  callWrapper : BaseWrapper;
  callFuncOp : MLIR.FuncOp;
  callRefOp : SymbolOp;
  callKernelOp : option SymbolOp
}.

(** The state of a run, over the state [Env] of the files and the standard
    input. *)
Record World (Env : Type) : Type := mkWorld {
  env : Env;
  modules : list (option ModuleOp); (* the loaded modules, oldest first *)
  errs : list string;         (* one entry for each statement on errs() *)
  reads : list string;        (* the files read, oldest first *)
  wrapped : list WrapCall     (* the calls of wrap, oldest first *)
}.
Arguments mkWorld {Env} _ _ _ _ _.
Arguments env {Env} _.
Arguments modules {Env} _.
Arguments errs {Env} _.
Arguments reads {Env} _.
Arguments wrapped {Env} _.

Definition D (Env A : Type) : Type := World Env -> Outcome A * World Env.

Definition dret {Env A} (a : A) : D Env A := fun w => (Returned a, w).

Definition dbind {Env A B} (m : D Env A) (k : A -> D Env B) : D Env B :=
  fun w =>
    match m w with
    | (Returned a, w') => k a w'
    | (Crashed c, w') => (Crashed c, w')
    end.

Declare Scope driver_scope.
Delimit Scope driver_scope with driver.
Notation "x <- m ;; k" := (dbind m (fun x => k))
  (at level 61, m at next level, right associativity) : driver_scope.
Notation "m ;;; k" := (dbind m (fun _ => k))
  (at level 61, right associativity) : driver_scope.
Local Open Scope driver_scope.

(** [assert(cond)]. *)
Definition dassert {Env} (cond : bool) (msg : string) : D Env unit :=
  fun w => if cond then (Returned tt, w)
           else (Crashed (AssertionFailed msg), w).

(** [errs() << ...;]. *)
Definition errs_put {Env} (msg : string) : D Env unit :=
  fun w => (Returned tt,
            mkWorld (env w) (modules w) (errs w ++ [msg])%list (reads w)
              (wrapped w)).

(** [modules.emplace_back(m)] and [modules.back()]. *)
Definition modules_emplace_back {Env} (m : option ModuleOp) : D Env unit :=
  fun w => (Returned tt,
            mkWorld (env w) (modules w ++ [m])%list (errs w) (reads w)
              (wrapped w)).

Definition modules_back {Env} : D Env (option ModuleOp) :=
  fun w => (Returned (last (modules w) None), w).

(** The walk of [getOpToWrap] with its callback; [targetOp] is the variable
    that the callback captures. *)
Fixpoint walkSymbolTables {Env} (tables : list SymbolTable) (symbol : string)
    (targetOp : option SymbolOp) : D Env (option SymbolOp) :=
  match tables with
  | [] => dret targetOp
  | symOp :: rest =>
      match lookupSymbolIn symOp symbol with
      | Some op =>
          dassert (match targetOp with None => true | Some _ => false end)
            "targetOp == nullptr" ;;;
          walkSymbolTables rest symbol (Some op)
      | None => walkSymbolTables rest symbol targetOp
      end
  end.

Section Driver.

(** The files and the standard input, and the content of a file. *)
Variable Env : Type.
Variable Buffer : Type.

(** [MemoryBuffer::getFileOrSTDIN(fn)]: an error message or a buffer; reading
    may change the outside (the standard input is consumed). *)
Variable getFileOrSTDIN : string -> Env -> (string + Buffer) * Env.

(** [sys::fs::exists(path)]. *)
Variable fs_exists : string -> Env -> bool.

(** [mlir::parseSourceFile<ModuleOp>]: null when the buffer holds no
    module. *)
Variable parseSourceFile : Buffer -> option ModuleOp.

(** [BaseWrapper::wrap]: it writes files, and can stop at an assertion. *)
Variable wrap : WrapCall -> Env -> Outcome LogicalResult * Env.

Definition read_file (fn : string) : D Env (string + Buffer) :=
  fun w =>
    let (r, e) := getFileOrSTDIN fn (env w) in
    (Returned r,
     mkWorld e (modules w) (errs w) (reads w ++ [fn])%list (wrapped w)).

Definition path_exists (path : string) : D Env bool :=
  fun w => (Returned (fs_exists path (env w)), w).

(** [wrapper->wrap(funcOp, refOp, kernelOp)]. *)
Definition call_wrap (c : WrapCall) : D Env LogicalResult :=
  fun w =>
    let (r, e) := wrap c (env w) in
    (r, mkWorld e (modules w) (errs w) (reads w) (wrapped w ++ [c])%list).

(** [getModule]. *)
Definition getModule (fn : string) : D Env (option ModuleOp) :=
  file_or_err <- read_file fn ;;
  match file_or_err with
  | inl message =>
      errs_put ("Error: Could not open input file '" ++ fn ++ "': "
                ++ message ++ nl) ;;;
      dret None
  | inr buffer =>
      (* Load the MLIR module. *)
      modules_emplace_back (parseSourceFile buffer) ;;;
      back <- modules_back ;;
      match back with
      | None =>
          errs_put ("Error: Found no modules in input file '" ++ fn ++ "'"
                    ++ nl) ;;;
          dret None
      | Some m => dret (Some m)
      end
  end.

(** [getOpToWrap]. *)
Definition getOpToWrap (fn symbol : string) : D Env (option SymbolOp) :=
  file_or_err <- read_file fn ;;
  match file_or_err with
  | inl message =>
      errs_put (": could not open input file '" ++ fn ++ "': " ++ message
                ++ nl) ;;;
      dret None
  | inr _ =>
      mod_ <- getModule fn ;;
      match mod_ with
      | None =>
          errs_put ("No module in file: " ++ fn ++ nl) ;;;
          dret None
      | Some m =>
          targetOp <- walkSymbolTables (symbolTables m) symbol None ;;
          match targetOp with
          | None =>
              errs_put ("Found no definitions of symbol '" ++ symbol
                        ++ "' in '" ++ fn ++ "'" ++ nl) ;;;
              dret None
          | Some op => dret (Some op)
          end
      end
  end.

(** [getOpToWrapErroring]. *)
Definition getOpToWrapErroring (fileName symbolName : string)
    : D Env (option SymbolOp) :=
  if String.eqb fileName EmptyString then dret None
  else
    op <- getOpToWrap fileName symbolName ;;
    match op with
    | None =>
        errs_put ("No symbol named '" ++ symbolName ++ "' found in '"
                  ++ fileName ++ nl) ;;;
        dret None
    | Some o => dret (Some o)
    end.

(** The end of [main], from [getWrapper] on. *)
Definition wrapWith (opts : Options) (funcOp : MLIR.FuncOp)
    (refOp : SymbolOp) (kernelOp : option SymbolOp) : D Env Z :=
  match getWrapper opts with
  | None => dret 1%Z
  | Some wrapper =>
      (* Go wrap! *)
      r <- call_wrap (mkWrapCall wrapper funcOp refOp kernelOp) ;;
      if failed r then dret 1%Z else dret 0%Z
  end.

(** [main]: the exit code of the tool. *)
Definition main (opts : Options) : D Env Z :=
  dir <- path_exists (outputDirectory opts) ;;
  if negb dir then
    errs_put ("Output directory '" ++ outputDirectory opts
              ++ "' does not exist!" ++ nl) ;;;
    dret 1%Z
  else
    funcOpPtr <- getOpToWrapErroring (inputFunctionFilename opts)
                   (functionName opts) ;;
    match funcOpPtr with
    | None => dret 1%Z
    | Some funcOpPtr =>
        match dyn_cast_FuncOp funcOpPtr with
        | None =>
            errs_put ("Expected --func to be a builtin.func" ++ nl) ;;;
            dret 1%Z
        | Some funcOp =>
            refOp <- getOpToWrapErroring (inputReferenceFilename opts)
                       (functionName opts) ;;
            match refOp with
            | None => dret 1%Z
            | Some refOp =>
                if negb (inputKernelOccurrences opts =? 0)%nat then
                  kernelOp <- getOpToWrapErroring (inputKernelFilename opts)
                                (functionName opts) ;;
                  match kernelOp with
                  | None => dret 1%Z
                  | Some k => wrapWith opts funcOp refOp (Some k)
                  end
                else wrapWith opts funcOp refOp None
            end
        end
    end.

End Driver.

End WrapGen.
(** ** Vocabulary of the statements *)

Local Open Scope list_scope.

(** Insertions into the indenting stream. *)
Definition osi (xs : list Operand) : list StreamOp := map (Write Osi) xs.

(** How often a literal of the generator is inserted. *)
Fixpoint countLit (lit : string) (ops : list StreamOp) : nat :=
  match ops with
  | [] => 0
  | Write _ (L s) :: rest =>
      (if String.eqb s lit then 1 else 0) + countLit lit rest
  | _ :: rest => countLit lit rest
  end.

(** The operations a run of [m] from [w] adds to the stream. *)
Definition appended {A} (m : M A) (w : Wrapper) : list StreamOp :=
  skipn (length (stream w)) (stream (snd (m w))).

(** Signals named as a load or store address, and the data width of such a
    signal when it is a bundle with a data element. *)
Definition isAddressSignal (sig : FIRRTL.BundleElement) : bool :=
  startswith (FIRRTL.name sig) "ldAddr" || startswith (FIRRTL.name sig) "stAddr".

Definition dataWidthOf (sig : FIRRTL.BundleElement) : option Z :=
  match FIRRTL.type sig with
  | FIRRTL.BundleType elts =>
      match FIRRTL.getElement elts "data" with
      | Some d => Some (to_unsigned (FIRRTL.getBitWidthOrSentinel (FIRRTL.type d)))
      | None => None
      end
  | _ => None
  end.

Definition noAddressSignal : Crash :=
  AssertionFailed "Found no address signal in memory bundle!".

(** The address width as the specification words it: the data width of the
    first address signal of the bundle. *)
Definition firstAddressWidth (sigs : list FIRRTL.BundleElement) : option Z :=
  match find isAddressSignal sigs with
  | Some sig => dataWidthOf sig
  | None => None
  end.

(** The port-count invariant of the data model: the module has one port per
    argument and one input control port, then one port per result and one
    output control port. *)
Definition portCountInvariant (f : MLIR.FuncOp) (m : FIRRTL.FModuleLike) : Prop :=
  length (FIRRTL.ports m) = (getNumArguments f + 1) + (getNumResults f + 1).

(** Names the generated code is built from. *)
Definition argAlias (i : nat) : string := ("TArg" ++ to_string i)%string.
Definition resAlias (i : nat) : string := ("TRes" ++ to_string i)%string.
Definition dataField (port : string) : string :=
  ("dut->" ++ port ++ "_data")%string.
Definition signalGroup (port kind : string) (i : nat) : string :=
  (port ++ "_" ++ kind ++ to_string i)%string.

(** The constructor arguments of a port object over the signals [prefix]:
    its name, its ready and valid signals and, with [hasData], its data
    signal. *)
Definition portCtor (prefix : string) (hasData : bool) : list StreamOp :=
  osi [L ("(" ++ dq)%string; V prefix; L (dq ++ ", ")%string;
       L "&dut->"; V prefix; L "_ready, ";
       L "&dut->"; V prefix; L "_valid"]
  ++ (if hasData then osi [L ", &dut->"; V prefix; L "_data"] else [])
  ++ osi [L ")"].

(** The static assertion that [alias] is the type of the model's field. *)
Definition staticTypeAssert (alias field : string) : list StreamOp :=
  osi [L "static_assert(std::is_same<"; V alias; L ", typeof("; V field;
       L (")>::value, " ++ dq)%string; V typeMismatchMessage;
       L (dq ++ ");" ++ nl)%string].

(** The registration of a scalar port of the given direction. *)
Definition scalarPortRegistration (adder portClass alias port : string)
  : list StreamOp :=
  osi [L (adder ++ "<" ++ portClass ++ "<")%string; V alias; L ">>"]
  ++ portCtor port true ++ osi [L (";" ++ nl)%string].

Module Cases.
Import FIRRTL.

(** A wrapper on which [init] and the first part of [emitPreamble] ran. *)
Definition ready (f : MLIR.FuncOp) (h : Handshake.FuncOp) (m : FModuleLike)
  : Wrapper := mkWrapper f (Some h) (Some m) [] [].

(** A memory bundle whose two address signals differ in width. *)
Definition mixedWidths : list BundleElement :=
  [mkElement "ldAddr0" (Scenario.channel 4);
   mkElement "stAddr0" (Scenario.channel 8)].

(** The signals of the memory port of scenario B. *)
Definition memSigs : list BundleElement :=
  [mkElement "ldAddr0" (Scenario.channel 3);
   mkElement "ldData0" (Scenario.channel 32);
   mkElement "ldDone0" Scenario.control].

Definition readyA : Wrapper := ready Scenario.funcA Scenario.hsA Scenario.moduleA.
Definition readyB : Wrapper := ready Scenario.funcB Scenario.hsB Scenario.moduleB.

Definition readyC : Wrapper := ready Scenario.funcB Scenario.hsC Scenario.moduleB.

(** Scenario A on a wrapper that still holds the module and output of an
    earlier use. *)
Definition staleA : Wrapper :=
  mkWrapper Scenario.funcA (Some Scenario.hsA) (Some Scenario.moduleB)
            [Indent; Write Osi (L "// earlier output")] [].

(** Scenario B with an address signal too wide for the type emitter: the
    expansion of the memory argument fails after its first insertions. *)
Definition wideMemPort : FIRRTLType_ :=
  BundleType [mkElement "ldAddr0" (Scenario.channel 65);
              mkElement "ldData0" (Scenario.channel 32);
              mkElement "ldDone0" Scenario.control].
Definition moduleWide : FModuleLike :=
  mkFModuleLike [("in0"%string, wideMemPort); ("inCtrl"%string, Scenario.control);
                 ("outCtrl"%string, Scenario.control)].
Definition freshWide : Wrapper :=
  Scenario.fresh Scenario.funcB (Some Scenario.hsB).
Definition readyWide : Wrapper :=
  ready Scenario.funcB Scenario.hsB moduleWide.

(** A function with an argument type the type emitter rejects. *)
Definition funcOpaque : MLIR.FuncOp :=
  MLIR.mkFuncOp "top" [IntegerType 32; OpaqueType "f32"] [].
Definition freshOpaque : Wrapper := Scenario.fresh funcOpaque None.

(** Scenario A over a module that lacks its result and control ports. *)
Definition moduleShort : FModuleLike :=
  mkFModuleLike [("in0"%string, Scenario.channel 32)].
Definition readyShort : Wrapper :=
  ready Scenario.funcA Scenario.hsA moduleShort.

(** A function whose memory argument has two dimensions, over the module of
    scenario B. *)
Definition funcRank2 : MLIR.FuncOp :=
  MLIR.mkFuncOp "top" [MemRefType [2%Z; 2%Z] (IntegerType 32)] [].
End Cases.

Definition notUnidimensional : Crash :=
  AssertionFailed "Only support unidimensional memories".

(** The last address signal of a bundle is the first one of its reversal. *)
Definition lastAddressSignal (sigs : list FIRRTL.BundleElement)
  : option FIRRTL.BundleElement :=
  find isAddressSignal (rev sigs).

(** Every address signal is a bundle with a data element. *)
Definition addressSignalsWellFormed (sigs : list FIRRTL.BundleElement) : Prop :=
  forall sig, In sig sigs -> isAddressSignal sig = true ->
              dataWidthOf sig <> None.

(** The two registrations of scalar ports. *)
Definition inputPortRegistration (alias port : string) : list StreamOp :=
  scalarPortRegistration "addInputPort" "HandshakeDataInPort" alias port.
Definition outputPortRegistration (alias port : string) : list StreamOp :=
  scalarPortRegistration "addOutputPort" "HandshakeDataOutPort" alias port.

(** ** Runs that depend on the operations only *)

(** Wrappers that wrap the same function; wrappers whose three operation
    fields agree. *)
Definition sameFunc (w w2 : Wrapper) : Prop := funcOp w = funcOp w2.

Definition sameOps (w w2 : Wrapper) : Prop :=
  funcOp w = funcOp w2 /\ hsOp w = hsOp w2 /\ firrtlOp w = firrtlOp w2.

(** [m] is blind to the stream: from all [R]-related wrappers it returns the
    same outcome and adds the same operations, which satisfy [P], and it
    changes nothing else. *)
Definition Blind {A} (R : Wrapper -> Wrapper -> Prop)
    (P : list StreamOp -> Prop) (m : M A) : Prop :=
  forall w, exists r ops,
    P ops /\ forall w2, R w w2 -> m w2 = (r, addOps w2 ops).

Class Frame (R : Wrapper -> Wrapper -> Prop) : Prop := {
  frame_refl : forall w, R w w;
  frame_left : forall w w2 o, R w w2 -> R (addOps w o) w2;
  frame_right : forall w w2 o, R w w2 -> R w (addOps w2 o)
}.

Class Closed (P : list StreamOp -> Prop) : Prop := {
  closed_nil : P [];
  closed_app : forall a b, P a -> P b -> P (a ++ b)
}.

Class ReadsFunc (R : Wrapper -> Wrapper -> Prop) : Prop :=
  reads_func : forall w w2, R w w2 -> funcOp w = funcOp w2.
Class ReadsHs (R : Wrapper -> Wrapper -> Prop) : Prop :=
  reads_hs : forall w w2, R w w2 -> hsOp w = hsOp w2.
Class ReadsFirrtl (R : Wrapper -> Wrapper -> Prop) : Prop :=
  reads_firrtl : forall w w2, R w w2 -> firrtlOp w = firrtlOp w2.

(** The literals that open the two control wirings. *)
Definition inCtrlLit : string :=
  "inCtrl = std::make_unique<HandshakeInPort>(&dut->".
Definition outCtrlLit : string :=
  "outCtrl = std::make_unique<HandshakeOutPort>(&dut->".

(** Operations that wire no control port. *)
Definition NoCtrl (ops : list StreamOp) : Prop :=
  countLit inCtrlLit ops = 0 /\ countLit outCtrlLit ops = 0.

Definition Any (ops : list StreamOp) : Prop := True.

(** ** The expansion of a memory argument, as the specification lays it out *)

(** The declaration of the memory interface. *)
Definition memoryInterfaceDeclaration (name elemTok addrTok : string)
    (size : Z) : list StreamOp :=
  osi [L "auto "; V name; L " = addInputPort<HandshakeMemoryInterface<";
       V elemTok; L ", "; V addrTok;
       L ">>(/*size=*/"; V (int64_to_string size); L (");" ++ nl)%string].

(** A port object handed to a load or store registration. *)
Inductive PortKind : Type :=
| DataIn (tok : string)      (* data into the kernel *)
| DataOut (tok : string)     (* data out of the kernel *)
| DoneIn.                    (* completion, no data *)

Definition sharedPort (k : PortKind) (signals : string) : list StreamOp :=
  match k with
  | DataIn tok =>
      osi [L "std::make_shared<HandshakeDataInPort<"] ++ [Write Os (V tok)]
      ++ osi [L ">>"] ++ portCtor signals true
  | DataOut tok =>
      osi [L "std::make_shared<HandshakeDataOutPort<"] ++ [Write Os (V tok)]
      ++ osi [L ">>"] ++ portCtor signals true
  | DoneIn =>
      osi [L "std::make_shared<HandshakeInPort>"] ++ portCtor signals false
  end.

Definition subPortRegistration (name method : string)
    (data addr done : list StreamOp) : list StreamOp :=
  osi [V name; L ("->" ++ method ++ "(" ++ nl)%string] ++ [Indent]
  ++ data ++ osi [L ("," ++ nl)%string]
  ++ addr ++ osi [L ("," ++ nl)%string]
  ++ done ++ osi [L (");" ++ nl)%string] ++ [Unindent].

Definition loadPortRegistration (name elemTok addrTok : string) (i : nat)
  : list StreamOp :=
  subPortRegistration name "addLoadPort"
    (sharedPort (DataIn elemTok) (signalGroup name "ldData" i))
    (sharedPort (DataOut addrTok) (signalGroup name "ldAddr" i))
    (sharedPort DoneIn (signalGroup name "ldDone" i)).

Definition storePortRegistration (name elemTok addrTok : string) (i : nat)
  : list StreamOp :=
  subPortRegistration name "addStorePort"
    (sharedPort (DataOut elemTok) (signalGroup name "stData" i))
    (sharedPort (DataOut addrTok) (signalGroup name "stAddr" i))
    (sharedPort DoneIn (signalGroup name "stDone" i)).

Definition memoryExpansion (name elemTok addrTok : string) (size : Z)
    (loadCount storeCount : nat) : list StreamOp :=
  memoryInterfaceDeclaration name elemTok addrTok size
  ++ flat_map (loadPortRegistration name elemTok addrTok) (seq 0 loadCount)
  ++ flat_map (storePortRegistration name elemTok addrTok) (seq 0 storeCount).

(** The literals that open a load and a store registration. *)
Definition addLoadPortLit : string := ("->addLoadPort(" ++ nl)%string.
Definition addStorePortLit : string := ("->addStorePort(" ++ nl)%string.

(** The bundle [sigs] settles the address width [aw]. *)
Definition settlesAddressWidth (sigs : list FIRRTL.BundleElement) (aw : Z)
  : Prop :=
  addressSignalsWellFormed sigs
  /\ exists sig, lastAddressSignal sigs = Some sig
                 /\ dataWidthOf sig = Some aw /\ (0 < aw)%Z.

(** The consumers that qualify: the external-memory operations among the
    users of the argument. *)
Definition qualifyingConsumers (users : list Handshake.User) : nat :=
  length (filter (fun u => match u with
                           | Handshake.ExternalMemoryOp _ _ => true
                           | _ => false
                           end) users).

Definition expectedOneUser : Crash :=
  AssertionFailed "expected exactly 1 user of a memref input argument".

(** ** The layout of the generated simulator *)

(** The wrapper after [firrtlOp = m]. *)
Definition withFirrtl (m : FIRRTL.FModuleLike) (w : Wrapper) : Wrapper :=
  mkWrapper (funcOp w) (hsOp w) (Some m) (stream w) (diags w).

(** The wiring of the two control ports. *)
Definition controlWiring (inCtrlName outCtrlName : string) : list StreamOp :=
  osi [L inCtrlLit; V inCtrlName; L "_ready, &dut->"; V inCtrlName;
       L ("_valid);" ++ nl)%string]
  ++ osi [L outCtrlLit; V outCtrlName; L "_ready, &dut->"; V outCtrlName;
          L ("_valid);" ++ nl)%string].

(** The class head, the constructor head and the clock and reset wiring. *)
Definition simulatorHeader (n : string) : list StreamOp :=
  osi [L "class "; V n; L "Sim : public "; V n;
       L ("SimInterface {" ++ nl)%string]
  ++ osi [L ("public:" ++ nl)%string] ++ [Indent]
  ++ osi [V n; L "Sim() : "; V n; L ("SimInterface() {" ++ nl)%string]
  ++ [Indent]
  ++ osi [L ("// --- Generic Verilator interface" ++ nl)%string]
  ++ osi [L ("interface.clock = &dut->clock;" ++ nl)%string]
  ++ osi [L ("interface.reset = &dut->reset;" ++ nl ++ nl)%string]
  ++ osi [L ("// --- Handshake interface" ++ nl)%string].

Definition softwareInterfaceHeader : list StreamOp :=
  osi [L ("// --- Software interface" ++ nl)%string]
  ++ osi [L ("// - Input ports" ++ nl)%string].

Definition inputPortsHeader : list StreamOp :=
  osi [L nl] ++ softwareInterfaceHeader.

Definition outputPortsHeader : list StreamOp :=
  osi [L (nl ++ "// - Output ports" ++ nl)%string].

Definition simulatorFooter : list StreamOp :=
  [Unindent] ++ osi [L ("};" ++ nl)%string] ++ [Unindent]
  ++ osi [L ("};" ++ nl ++ nl)%string].

(** The aliases emitted around the simulator. *)
Definition modelAliases (n : string) : list StreamOp :=
  osi [L "using TModel = V"; V n; L (";" ++ nl)%string]
  ++ osi [L "using "; V n;
          L ("SimInterface = HandshakeSimInterface<TInput, TOutput, TModel>;"
             ++ nl ++ nl)%string].

Definition driverAlias (n : string) : list StreamOp :=
  osi [L "using TSim = "; V n; L ("Sim;" ++ nl)%string].

(** The positions of a sequence, from [idx] on, and the operations each
    position adds when [body] runs on it from [w]. *)
Definition enumerate {A} (idx : nat) (xs : list A) : list (nat * A) :=
  combine (seq idx (length xs)) xs.

Definition portGroups {A} (body : A -> nat -> M LogicalResult)
    (idx : nat) (xs : list A) (w : Wrapper) : list (list StreamOp) :=
  map (fun p => appended (body (snd p) (fst p)) w) (enumerate idx xs).

(** Every position of [xs], counted from [idx], succeeds from [w]. *)
Definition allSucceed {A} (body : A -> nat -> M LogicalResult)
    (idx : nat) (xs : list A) (w : Wrapper) : Prop :=
  forall p, In p (enumerate idx xs) ->
            fst (body (snd p) (fst p) w) = Returned success.

(** The type emitter accepts every argument and result type. *)
Definition typesSupported (eVT : MLIR.Type_ -> option string)
    (f : MLIR.FuncOp) : Prop :=
  forall t, In t (getInputs f ++ getResults f) -> eVT t <> None.

(** No argument is a memory. *)
Definition scalarArguments (f : MLIR.FuncOp) : Prop :=
  forall t, In t (getInputs f) -> dyn_cast_MemRefType t = None.

(** Runs that return from every wrapper satisfying [I], adding to the stream
    only; [RunsOk] for those that return [success]. *)
Definition Runs {A} (I : Wrapper -> Prop) (m : M A) : Prop :=
  forall w, I w -> exists a ops, m w = (Returned a, addOps w ops).

Definition RunsOk (I : Wrapper -> Prop) (m : M LogicalResult) : Prop :=
  forall w, I w -> exists ops, m w = (Returned success, addOps w ops).

Class StreamFree (I : Wrapper -> Prop) : Prop :=
  stream_free : forall w ops, I w -> I (addOps w ops).

(** The wrapper wraps [f]. *)
Definition wrapsFunc (f : MLIR.FuncOp) (w : Wrapper) : Prop := funcOp w = f.

(** The wrapper wraps [f] and its module is [m]. *)
Definition wraps (f : MLIR.FuncOp) (m : FIRRTL.FModuleLike) (w : Wrapper)
  : Prop :=
  funcOp w = f /\ firrtlOp w = Some m.


(** ** Vocabulary of the further properties *)

(** The assertion of [dyn_cast] on a null pointer. *)
Definition castOfNull : Crash :=
  AssertionFailed "dyn_cast on a non-existent value".

(** The diagnostic [init] reports on the reference operation [r]: through
    the first guard when the kernel operation is null, through the cast of
    the reference operation otherwise. *)
Definition initDiagnostic (r : Operation) (kernelOp : option Operation)
  : Diagnostic :=
  match kernelOp with
  | None =>
      Error r
        "Expected both a reference and a kernel operation for wrapping a handshake simulator."
  | Some _ =>
      OpError r "expected reference operation to be a handshake.func operation."
  end.

Definition notAFirrtlModule (k : Operation) : Diagnostic :=
  OpError k "Expected a FIRRTL module of the handshake kernel that is to be wrapped".

(** Whether the I/O types were emitted with success from [w]. *)
Definition ioTypesEmitted (eVT : MLIR.Type_ -> option string) (w : Wrapper)
  : bool :=
  match fst (emitIOTypes (emitVerilatorType eVT) w) with
  | Returned success => true
  | _ => false
  end.

(** How an address signal without a data width stops the run: at the cast
    when it is no bundle, at the assertion when the bundle has no data
    element. *)
Definition malformedAddressSignal (sig : FIRRTL.BundleElement) : Crash :=
  match FIRRTL.type sig with
  | FIRRTL.BundleType _ =>
      AssertionFailed "Expected bundle to have a data signal"
  | _ => BadCast
  end.

(** An address channel whose data signal reports [s] as its width. *)
Definition addressChannel (n : string) (s : Z) : FIRRTL.BundleElement :=
  FIRRTL.mkElement n
    (FIRRTL.BundleType [FIRRTL.mkElement "data" (FIRRTL.GroundType s)]).

(** The declaration of the memory interface as far as it is written when
    the element type, or the address type, cannot be emitted. *)
Definition declarationHead (name : string) : list StreamOp :=
  osi [L "auto "; V name; L " = addInputPort<HandshakeMemoryInterface<"].

Definition declarationUpToAddress (name elemTok : string) : list StreamOp :=
  declarationHead name ++ osi [V elemTok] ++ osi [L ", "].

(** What the expansion of a memory argument does, check by check, in the
    order of [emitExtMemPort]. *)
Definition expansionOutcome
    (eVT : MLIR.Type_ -> option string) (eW : Z -> option string)
    (shape : list Z) (elt : MLIR.Type_) (idx : nat) (w : Wrapper)
  : Outcome LogicalResult * Wrapper :=
  match shape with
  | [size] =>
    match firrtlOp w with
    | None => (Crashed NullDereference, w)
    | Some m =>
      match nth_error (FIRRTL.ports m) idx with
      | None => (Crashed IndexOutOfRange, w)
      | Some (name, FIRRTL.GroundType _) => (Crashed BadCast, w)
      | Some (name, FIRRTL.BundleType sigs) =>
        match fst (resolveAddrWidth sigs w) with
        | Crashed c => (Crashed c, w)
        | Returned aw =>
          match hsOp w with
          | None => (Crashed NullDereference, addOps w (declarationHead name))
          | Some h =>
            match eVT elt with
            | None => (Returned failure, addOps w (declarationHead name))
            | Some elemTok =>
              match eW aw with
              | None =>
                  (Returned failure,
                   addOps w (declarationUpToAddress name elemTok))
              | Some addrTok =>
                let declared :=
                  addOps w (memoryInterfaceDeclaration name elemTok addrTok
                              size) in
                match nth_error (Handshake.argumentUsers h) idx with
                | None => (Crashed IndexOutOfRange, declared)
                | Some [Handshake.ExternalMemoryOp ld st] =>
                    (Returned success,
                     addOps w (memoryExpansion name elemTok addrTok size
                                 ld st))
                | Some [Handshake.OtherUser _] => (Crashed BadCast, declared)
                | Some _ => (Crashed expectedOneUser, declared)
                end
              end
            end
          end
        end
      end
    end
  | _ => (Crashed notUnidimensional, w)
  end.

(** The indentation a sequence of operations adds to the indenting stream. *)
Fixpoint netIndent (ops : list StreamOp) : Z :=
  match ops with
  | [] => 0
  | Indent :: rest => 1 + netIndent rest
  | Unindent :: rest => -1 + netIndent rest
  | Write _ _ :: rest => netIndent rest
  end.

(** Operations that leave the indentation where it was. *)
Definition KeepsIndent (ops : list StreamOp) : Prop := netIndent ops = 0%Z.

(** What [emitSimulator] has written when it looks up the control ports:
    the class head and the constructor head, both indented, and the clock
    and reset wiring. *)
Definition simulatorPrologue (n : string) : list StreamOp :=
  osi [L "class "; V n; L "Sim : public "; V n;
       L ("SimInterface {" ++ nl)%string]
  ++ osi [L ("public:" ++ nl)%string] ++ [Indent]
  ++ osi [V n; L "Sim() : "; V n; L ("SimInterface() {" ++ nl)%string]
  ++ [Indent]
  ++ osi [L ("// --- Generic Verilator interface" ++ nl)%string]
  ++ osi [L ("interface.clock = &dut->clock;" ++ nl)%string]
  ++ osi [L ("interface.reset = &dut->reset;" ++ nl ++ nl)%string].

(** The outcome of the lookup of the two control ports. *)
Definition controlLookup (w : Wrapper) : option Crash :=
  match firrtlOp w with
  | None => Some NullDereference
  | Some m =>
      match nth_error (FIRRTL.ports m) (getNumArguments (funcOp w)),
            nth_error (FIRRTL.ports m)
              (getNumResults (funcOp w) + getNumArguments (funcOp w) + 1) with
      | Some _, Some _ => None
      | _, _ => Some IndexOutOfRange
      end
  end.



(** ** The driver *)

(** The operations that define [symbol] in a module: one for each symbol
    table that defines it, in the order of the walk. *)
Definition definitions (m : WrapGen.ModuleOp) (symbol : string)
    : list WrapGen.SymbolOp :=
  flat_map (fun t => match WrapGen.lookupSymbolIn t symbol with
                     | Some op => [op]
                     | None => []
                     end)
    (WrapGen.symbolTables m).

Definition definedTwice : Crash := AssertionFailed "targetOp == nullptr".

Definition noDefinitionMessage (fn symbol : string) : string :=
  ("Found no definitions of symbol '" ++ symbol ++ "' in '" ++ fn ++ "'"
   ++ nl)%string.

(** The files [main] reads when every lookup succeeds: each one twice, the
    kernel only when [--kernel] occurs. *)
Definition inputFiles (opts : WrapGen.Options) : list string :=
  [WrapGen.inputFunctionFilename opts; WrapGen.inputFunctionFilename opts;
   WrapGen.inputReferenceFilename opts; WrapGen.inputReferenceFilename opts]
  ++ (if (WrapGen.inputKernelOccurrences opts =? 0)%nat then []
      else [WrapGen.inputKernelFilename opts;
            WrapGen.inputKernelFilename opts]).

(** The exit code after a call of [wrap]. *)
Definition exitCode (r : Outcome LogicalResult) : Outcome Z :=
  match r with
  | Returned success => Returned 0%Z
  | Returned failure => Returned 1%Z
  | Crashed c => Crashed c
  end.

(** The four ways a lookup in file [fn] can end, from the state [w]: the file
    cannot be read (at the first or at the second attempt), no symbol table
    defines the symbol, one does, more than one do. *)
Inductive LookupEnd {Env : Type} (fn symbol : string) (w : WrapGen.World Env)
    : Outcome (option WrapGen.SymbolOp) * WrapGen.World Env -> Prop :=
| LookupUnreadable e msgs n :
    msgs <> [] -> 1 <= n <= 2 ->
    LookupEnd fn symbol w
      (Returned None,
       WrapGen.mkWorld e (WrapGen.modules w) (WrapGen.errs w ++ msgs)
         (WrapGen.reads w ++ repeat fn n) (WrapGen.wrapped w))
| LookupNone e mod_ msgs :
    msgs <> [] ->
    match mod_ with Some m => definitions m symbol = [] | None => True end ->
    LookupEnd fn symbol w
      (Returned None,
       WrapGen.mkWorld e (WrapGen.modules w ++ [mod_]) (WrapGen.errs w ++ msgs)
         (WrapGen.reads w ++ [fn; fn]) (WrapGen.wrapped w))
| LookupOne e m op :
    definitions m symbol = [op] ->
    LookupEnd fn symbol w
      (Returned (Some op),
       WrapGen.mkWorld e (WrapGen.modules w ++ [Some m]) (WrapGen.errs w)
         (WrapGen.reads w ++ [fn; fn]) (WrapGen.wrapped w))
| LookupTwice e m :
    2 <= length (definitions m symbol) ->
    LookupEnd fn symbol w
      (Crashed definedTwice,
       WrapGen.mkWorld e (WrapGen.modules w ++ [Some m]) (WrapGen.errs w)
         (WrapGen.reads w ++ [fn; fn]) (WrapGen.wrapped w)).

(** A small outside world for the driver: named files, each with the module
    the parser finds in it if any, and directories.  The standard input is
    not part of it. *)
Module DriverCases.

Import WrapGen.

Record Outside : Type := mkOutside {
  files : list (string * option ModuleOp);
  directories : list string
}.

Definition getFileOrSTDIN (fn : string) (e : Outside)
    : (string + option ModuleOp) * Outside :=
  match find (fun f => String.eqb (fst f) fn) (files e) with
  | Some f => (inr (snd f), e)
  | None => (inl "No such file or directory"%string, e)
  end.

Definition fs_exists (path : string) (e : Outside) : bool :=
  existsb (String.eqb path) (directories e).

Definition parseSourceFile (b : option ModuleOp) : option ModuleOp := b.

(** A wrapper that wants a kernel. *)
Definition wrap (c : WrapCall) (e : Outside)
    : Outcome LogicalResult * Outside :=
  match callKernelOp c with
  | Some _ => (Returned success, e)
  | None => (Returned failure, e)
  end.

Definition top : SymbolOp := FuncFuncOperation Scenario.funcA.
Definition topHs : SymbolOp :=
  NonFuncOperation (HandshakeFuncOperation Scenario.hsA).
Definition topFir : SymbolOp :=
  NonFuncOperation (FModuleLikeOperation Scenario.moduleA).

Definition software : ModuleOp :=
  mkModuleOp [[("helper"%string, NonFuncOperation (OtherOperation "func.func"));
               ("top"%string, top)]].
Definition reference : ModuleOp := mkModuleOp [[("top"%string, topHs)]].
(** A circuit inside the module: the walk visits the inner table first. *)
Definition kernel : ModuleOp :=
  mkModuleOp [[("top"%string, topFir)]; [("circuit"%string, topFir)]].
(** The same symbol in two symbol tables. *)
Definition twice : ModuleOp :=
  mkModuleOp [[("top"%string, topFir)]; [("top"%string, topHs)]].

Definition outside : Outside :=
  mkOutside [("sw.mlir"%string, Some software);
             ("hs.mlir"%string, Some reference);
             ("fir.mlir"%string, Some kernel);
             ("twice.mlir"%string, Some twice);
             ("empty.mlir"%string, None)]
            ["out"%string].

Definition start : World Outside := mkWorld outside [] [] [] [].

Definition options : Options :=
  mkOptions "sw.mlir" "hs.mlir" "fir.mlir" 1 "out" "top" HandshakeFIRRTL.

(** No [--kernel], and the empty string for [--ref]. *)
Definition optionsNoRef : Options :=
  mkOptions "sw.mlir" EmptyString "-" 0 "out" "top" HandshakeFIRRTL.

End DriverCases.

(** ** Vocabulary of the statements on the address width, on success and on
    determinism *)

(** The first address signal of the bundle that has no data width. *)
Definition firstMalformedAddressSignal (sigs : list FIRRTL.BundleElement)
  : option FIRRTL.BundleElement :=
  find (fun sig => isAddressSignal sig
                   && match dataWidthOf sig with
                      | None => true
                      | Some _ => false
                      end) sigs.

(** What the resolution of the address width comes to, read off the bundle:
    it stops at the first address signal without a data width; otherwise it
    settles on the data width of the last address signal, and stops at the
    assertion when there is none or when that width is zero. *)
Definition addressWidthOutcome (sigs : list FIRRTL.BundleElement)
  : Outcome Z :=
  match firstMalformedAddressSignal sigs with
  | Some sig => Crashed (malformedAddressSignal sig)
  | None =>
      match lastAddressSignal sigs with
      | None => Crashed noAddressSignal
      | Some sig =>
          match dataWidthOf sig with
          | Some aw =>
              if (0 <? aw)%Z then Returned aw else Crashed noAddressSignal
          | None => Crashed (malformedAddressSignal sig)
          end
      end
  end.

(** Every address signal of the bundle has the data width [aw], and there is
    one. *)
Definition uniformAddressWidth (sigs : list FIRRTL.BundleElement) (aw : Z)
  : Prop :=
  (exists sig, In sig sigs /\ isAddressSignal sig = true)
  /\ forall sig, In sig sigs -> isAddressSignal sig = true ->
                 dataWidthOf sig = Some aw.

(** The memory argument at position [idx], of the given shape and element
    type, can be expanded over the module [m] and the handshake function
    [h]: it has one dimension, its port is a bundle that settles an address
    width, the element type and the address width are given a type name, and
    its one user in the handshake function is an external memory. *)
Definition memoryExpands
    (eVT : MLIR.Type_ -> option string) (eW : Z -> option string)
    (m : FIRRTL.FModuleLike) (h : option Handshake.FuncOp)
    (idx : nat) (shape : list Z) (elt : MLIR.Type_) : Prop :=
  exists size name sigs aw hs elemTok addrTok ld st,
    shape = [size]
    /\ nth_error (FIRRTL.ports m) idx = Some (name, FIRRTL.BundleType sigs)
    /\ settlesAddressWidth sigs aw
    /\ h = Some hs
    /\ eVT elt = Some elemTok
    /\ eW aw = Some addrTok
    /\ nth_error (Handshake.argumentUsers hs) idx
       = Some [Handshake.ExternalMemoryOp ld st].

(** Every memory argument of [f] can be expanded. *)
Definition memoryArgumentsExpand
    (eVT : MLIR.Type_ -> option string) (eW : Z -> option string)
    (f : MLIR.FuncOp) (m : FIRRTL.FModuleLike) (h : option Handshake.FuncOp)
  : Prop :=
  forall idx t shape elt,
    nth_error (getInputs f) idx = Some t ->
    dyn_cast_MemRefType t = Some (shape, elt) ->
    memoryExpands eVT eW m h idx shape elt.

(** Scenario A over a module that has a clock and a reset port after the
    ports of the function. *)
Definition moduleClocked : FIRRTL.FModuleLike :=
  FIRRTL.mkFModuleLike
    (FIRRTL.ports Scenario.moduleA
     ++ [("clock"%string, FIRRTL.GroundType 1);
         ("reset"%string, FIRRTL.GroundType 1)]).
Definition readyClocked : Wrapper :=
  Cases.ready Scenario.funcA Scenario.hsA moduleClocked.
(** ** Basic facts about the monad and the stream *)

Lemma addOps_app (w : Wrapper) (a b : list StreamOp) :
  addOps (addOps w a) b = addOps w (a ++ b).
Proof. unfold addOps; simpl. now rewrite <- app_assoc. Qed.

Lemma addOps_nil (w : Wrapper) : addOps w [] = w.
Proof. destruct w; unfold addOps; simpl. now rewrite app_nil_r. Qed.

Lemma bind_returned {A B} (m : M A) (k : A -> M B) w a w' :
  m w = (Returned a, w') -> bind m k w = k a w'.
Proof. unfold bind; intros ->; reflexivity. Qed.

Lemma appended_addOps {A} (m : M A) w r ops :
  m w = (r, addOps w ops) -> appended m w = ops.
Proof.
  unfold appended; intros ->; simpl.
  rewrite skipn_app, Nat.sub_diag, skipn_all; reflexivity.
Qed.

Lemma countLit_app lit a b :
  countLit lit (a ++ b) = countLit lit a + countLit lit b.
Proof.
  induction a as [|[t [s|s]| |] a IH]; simpl; auto.
  rewrite IH; lia.
Qed.

(** ** Rank of a memory argument (C9) *)

(** C9: a memory argument whose shape has a rank other than one stops the
    expansion at its first assertion: nothing is generated, whether the
    expansion is entered directly or through [emitInputPort]. *)
Theorem emitExtMemPort_rank_not_one
    (eVT : MLIR.Type_ -> option string) (eW : Z -> option string)
    (shape : list Z) (elt : MLIR.Type_) (idx : nat) (w : Wrapper) :
  length shape <> 1 ->
  emitExtMemPort eVT eW shape elt idx w = (Crashed notUnidimensional, w)
  /\ emitInputPort eVT eW (MemRefType shape elt) idx w
     = (Crashed notUnidimensional, w).
Proof.
  intros Hrank.
  assert (Hone : (length shape =? 1)%nat = false) by now apply Nat.eqb_neq.
  assert (H : emitExtMemPort eVT eW shape elt idx w
              = (Crashed notUnidimensional, w)).
  { unfold emitExtMemPort. rewrite Hone. reflexivity. }
  split; [exact H|]. unfold emitInputPort; simpl. exact H.
Qed.

Lemma emitExtMemPort_rank_not_one_witness :
  length [2%Z; 2%Z] <> 1
  /\ emitExtMemPort Verilator.typeToken Verilator.typeFromWidth
       [2%Z; 2%Z] (IntegerType 32) 0 Cases.readyB
     = (Crashed notUnidimensional, Cases.readyB).
Proof.
  split; [simpl; lia|].
  apply (emitExtMemPort_rank_not_one Verilator.typeToken Verilator.typeFromWidth
           [2%Z; 2%Z] (IntegerType 32) 0 Cases.readyB).
  simpl; lia.
Defined.

(** ** Initialisation (C10) *)

Lemma init_succeeds_iff refOp kernelOp w :
  fst (init refOp kernelOp w) = Returned success
  <-> exists h m, refOp = Some (HandshakeFuncOperation h)
                  /\ kernelOp = Some (FModuleLikeOperation m).
Proof.
  split.
  - destruct refOp as [[h|m|n]|], kernelOp as [[h'|m'|n']|];
      try discriminate.
    intros _. now exists h, m'.
  - intros (h & m & -> & ->). reflexivity.
Qed.

Lemma init_sets_fields h m w :
  init (Some (HandshakeFuncOperation h)) (Some (FModuleLikeOperation m)) w
  = (Returned success,
     mkWrapper (funcOp w) (Some h) (Some m) (stream w) (diags w)).
Proof. reflexivity. Qed.

(** C10: with a reference operation that is a handshake function and a
    kernel operation that is not a FIRRTL module, [init] goes through the
    null result of the failed cast to report its diagnostic: the run stops
    there, no diagnostic is reported and no failure is returned. *)
Theorem init_reports_through_null_cast
    (h : Handshake.FuncOp) (opName : string) (w : Wrapper) :
  init (Some (HandshakeFuncOperation h)) (Some (OtherOperation opName)) w
  = (Crashed NullDereference, w).
Proof. reflexivity. Qed.

(** ** Address width of a memory bundle: the loop *)

Lemma dataWidthOf_run sig aw w :
  dataWidthOf sig = Some aw ->
  bind (cast_BundleType (FIRRTL.type sig)) getBundleDataWidth w
  = (Returned aw, w).
Proof.
  unfold dataWidthOf. destruct (FIRRTL.type sig) as [gw|elts]; [discriminate|].
  unfold bind, cast_BundleType, getBundleDataWidth, ret; simpl.
  destruct (FIRRTL.getElement elts "data") as [d|]; [|discriminate].
  intros [= <-]. reflexivity.
Qed.

Lemma find_snoc {A} (p : A -> bool) (l : list A) (x : A) :
  find p (l ++ [x])
  = match find p l with
    | Some y => Some y
    | None => if p x then Some x else None
    end.
Proof.
  induction l as [|y l IH]; simpl; [reflexivity|].
  destruct (p y); [reflexivity|exact IH].
Qed.

Lemma findAddrWidth_last sigs :
  addressSignalsWellFormed sigs ->
  forall a w,
    findAddrWidth sigs a w
    = (Returned (match lastAddressSignal sigs with
                 | Some sig => match dataWidthOf sig with
                               | Some aw => aw
                               | None => a
                               end
                 | None => a
                 end), w).
Proof.
  unfold lastAddressSignal.
  induction sigs as [|sig rest IH]; intros Hwf a w; [reflexivity|].
  assert (Hrest : addressSignalsWellFormed rest).
  { intros s Hs. apply Hwf. now right. }
  simpl rev. rewrite find_snoc.
  cbn [findAddrWidth]. fold (isAddressSignal sig).
  destruct (isAddressSignal sig) eqn:Haddr.
  - destruct (dataWidthOf sig) as [x|] eqn:Hx.
    2:{ exfalso. apply (Hwf sig); auto. now left. }
    assert (Hstep :
      bind (cast_BundleType (FIRRTL.type sig))
           (fun b => bind (getBundleDataWidth b)
                          (fun w0 => findAddrWidth rest w0)) w
      = findAddrWidth rest x w).
    { pose proof (dataWidthOf_run sig x w Hx) as Hrun.
      unfold bind in *.
      destruct (cast_BundleType (FIRRTL.type sig) w) as [[b|c] w1];
        [|discriminate].
      destruct (getBundleDataWidth b w1) as [[y|c] w2]; [|discriminate].
      now inversion Hrun. }
    rewrite Hstep, (IH Hrest).
    destruct (find isAddressSignal (rev rest)) as [s|] eqn:Hfind.
    + destruct (dataWidthOf s) eqn:Hs; [reflexivity|].
      exfalso. apply find_some in Hfind as [Hin Hp].
      apply (Hrest s); auto. now apply in_rev.
    + rewrite Hx. reflexivity.
  - rewrite (IH Hrest).
    destruct (find isAddressSignal (rev rest)) as [s|]; reflexivity.
Qed.

Lemma lastAddressSignal_none sigs :
  find isAddressSignal sigs = None -> lastAddressSignal sigs = None.
Proof.
  unfold lastAddressSignal. intros Hnone.
  destruct (find isAddressSignal (rev sigs)) as [s|] eqn:Hfind; [|reflexivity].
  apply find_some in Hfind as [Hin Hp]. apply in_rev in Hin.
  now rewrite (find_none _ _ Hnone s Hin) in Hp.
Qed.

(** ** Runs that depend on the operations only *)

#[export] Instance Frame_sameFunc : Frame sameFunc.
Proof. split; unfold sameFunc; simpl; auto. Qed.

#[export] Instance Frame_sameOps : Frame sameOps.
Proof. split; unfold sameOps; simpl; auto. Qed.

#[export] Instance ReadsFunc_sameFunc : ReadsFunc sameFunc.
Proof. intros w w2 H; exact H. Qed.

#[export] Instance ReadsFunc_sameOps : ReadsFunc sameOps.
Proof. intros w w2 H; apply H. Qed.

#[export] Instance ReadsHs_sameOps : ReadsHs sameOps.
Proof. intros w w2 H; apply H. Qed.

#[export] Instance ReadsFirrtl_sameOps : ReadsFirrtl sameOps.
Proof. intros w w2 H; apply H. Qed.

#[export] Instance Closed_NoCtrl : Closed NoCtrl.
Proof.
  split; [split; reflexivity|].
  intros a b [Ha1 Ha2] [Hb1 Hb2]; split; rewrite countLit_app; lia.
Qed.

#[export] Instance Closed_Any : Closed Any.
Proof. split; unfold Any; auto. Qed.

Section BlindRuns.

Context {R : Wrapper -> Wrapper -> Prop} {P : list StreamOp -> Prop}.
Context `{!Frame R} `{!Closed P}.

Lemma Blind_pure {A} (m : M A) (r : Outcome A) :
  (forall w, m w = (r, w)) -> Blind R P m.
Proof.
  intros Hm w. exists r, []. split; [apply closed_nil|].
  intros w2 _. now rewrite addOps_nil.
Qed.

Lemma Blind_ret {A} (a : A) : Blind R P (ret a).
Proof. now apply (Blind_pure _ (Returned a)). Qed.

Lemma Blind_crash {A} (c : Crash) : Blind R P (@crash A c).
Proof. now apply (Blind_pure _ (Crashed c)). Qed.

Lemma Blind_assert cond msg : Blind R P (assert cond msg).
Proof. unfold assert; destruct cond; [apply Blind_ret|apply Blind_crash]. Qed.

Lemma Blind_deref {A} (p : option A) : Blind R P (deref p).
Proof. destruct p; [apply Blind_ret|apply Blind_crash]. Qed.

Lemma Blind_at_index {A} (l : list A) idx : Blind R P (at_index l idx).
Proof.
  unfold at_index; destruct (nth_error l idx);
    [apply Blind_ret|apply Blind_crash].
Qed.

Lemma Blind_adds {A} (m : M A) (a : A) ops :
  P ops -> (forall w, m w = (Returned a, addOps w ops)) -> Blind R P m.
Proof. intros HP Hm w. exists (Returned a), ops. auto. Qed.

Lemma Blind_put t xs : P (map (Write t) xs) -> Blind R P (put t xs).
Proof. intros HP. now apply (Blind_adds _ tt (map (Write t) xs)). Qed.

Lemma Blind_indent : P [Indent] -> Blind R P osi_indent.
Proof. intros HP. now apply (Blind_adds _ tt [Indent]). Qed.

Lemma Blind_unindent : P [Unindent] -> Blind R P osi_unindent.
Proof. intros HP. now apply (Blind_adds _ tt [Unindent]). Qed.

Lemma Blind_getFuncOp `{!ReadsFunc R} : Blind R P getFuncOp.
Proof.
  intros w. exists (Returned (funcOp w)), []. split; [apply closed_nil|].
  intros w2 HR. unfold getFuncOp.
  now rewrite addOps_nil, (reads_func _ _ HR).
Qed.

Lemma Blind_getHsOp `{!ReadsHs R} : Blind R P getHsOp.
Proof.
  intros w. exists (fst (getHsOp w)), []. split; [apply closed_nil|].
  intros w2 HR. unfold getHsOp, deref.
  rewrite addOps_nil, (reads_hs _ _ HR). now destruct (hsOp w2).
Qed.

Lemma Blind_getFirrtlOp `{!ReadsFirrtl R} : Blind R P getFirrtlOp.
Proof.
  intros w. exists (fst (getFirrtlOp w)), []. split; [apply closed_nil|].
  intros w2 HR. unfold getFirrtlOp, deref.
  rewrite addOps_nil, (reads_firrtl _ _ HR). now destruct (firrtlOp w2).
Qed.

Lemma Blind_bind {A B} (m : M A) (k : A -> M B) :
  Blind R P m -> (forall a, Blind R P (k a)) -> Blind R P (bind m k).
Proof.
  intros Hm Hk w.
  destruct (Hm w) as (r & ops & HP & Hrun).
  destruct r as [a|c].
  - destruct (Hk a (addOps w ops)) as (r2 & ops2 & HP2 & Hrun2).
    exists r2, (ops ++ ops2). split; [now apply closed_app|].
    intros w2 HR. unfold bind. rewrite (Hrun w2 HR).
    rewrite Hrun2, addOps_app; [reflexivity|].
    now apply frame_left, frame_right.
  - exists (Crashed c), ops. split; [exact HP|].
    intros w2 HR. unfold bind. now rewrite (Hrun w2 HR).
Qed.

Lemma Blind_check (m k : M LogicalResult) :
  Blind R P m -> Blind R P k ->
  Blind R P (bind m (fun r => if failed r then ret failure else k)).
Proof.
  intros Hm Hk. apply Blind_bind; [exact Hm|].
  intros r; destruct (failed r); [apply Blind_ret|exact Hk].
Qed.

Lemma Blind_forEnumerate {A} (body : A -> nat -> M LogicalResult) :
  (forall x i, Blind R P (body x i)) ->
  forall xs idx, Blind R P (forEnumerate body idx xs).
Proof.
  intros Hbody xs; induction xs as [|x rest IH]; intros idx; simpl.
  - apply Blind_ret.
  - apply Blind_check; [apply Hbody|apply IH].
Qed.

Lemma Blind_forRange (body : nat -> M LogicalResult) :
  (forall i, Blind R P (body i)) ->
  forall count from, Blind R P (forRange body from count).
Proof.
  intros Hbody count; induction count as [|count IH]; intros from; simpl.
  - apply Blind_ret.
  - apply Blind_check; [apply Hbody|apply IH].
Qed.

(** A blind run is determined by one of its runs. *)
Lemma Blind_run {A} (m : M A) w w2 :
  Blind R P m -> R w w2 ->
  m w2 = (fst (m w), addOps w2 (appended m w)) /\ P (appended m w).
Proof.
  intros Hm HR. destruct (Hm w) as (r & ops & HP & Hrun).
  pose proof (Hrun w (frame_refl w)) as Hw.
  rewrite (appended_addOps _ _ _ _ Hw), Hw. simpl.
  split; [now apply Hrun|exact HP].
Qed.

End BlindRuns.

Lemma Blind_weaken {A} (R R' : Wrapper -> Wrapper -> Prop)
    (P Q : list StreamOp -> Prop) (m : M A) :
  (forall w w2, R' w w2 -> R w w2) -> (forall ops, P ops -> Q ops) ->
  Blind R P m -> Blind R' Q m.
Proof.
  intros HR HPQ Hm w. destruct (Hm w) as (r & ops & HP & Hrun).
  exists r, ops. split; [now apply HPQ|]. intros w2 H. now apply Hrun, HR.
Qed.

(** ** The emitting methods are blind to the stream *)

Create HintDb blind discriminated.

Ltac noctrl := first [exact I | split; reflexivity].

Ltac blind_step :=
  match goal with
  | |- Blind _ _ (ret _) => apply Blind_ret
  | |- Blind _ _ (crash _) => apply Blind_crash
  | |- Blind _ _ (assert _ _) => apply Blind_assert
  | |- Blind _ _ (deref _) => apply Blind_deref
  | |- Blind _ _ (at_index _ _) => apply Blind_at_index
  | |- Blind _ _ getFuncOp => apply Blind_getFuncOp
  | |- Blind _ _ getHsOp => apply Blind_getHsOp
  | |- Blind _ _ getFirrtlOp => apply Blind_getFirrtlOp
  | |- Blind _ _ (put _ _) => apply Blind_put; noctrl
  | |- Blind _ _ osi_indent => apply Blind_indent; noctrl
  | |- Blind _ _ osi_unindent => apply Blind_unindent; noctrl
  | |- Blind _ _ (forEnumerate _ _ _) => apply Blind_forEnumerate; intros
  | |- Blind _ _ (forRange _ _ _) => apply Blind_forRange; intros
  | |- Blind _ _ (bind _ (fun r => if failed r then ret failure else _)) =>
      apply Blind_check
  | |- Blind _ _ (bind _ _) => apply Blind_bind; [|intros]
  | |- Blind _ _ (if ?b then _ else _) => destruct b
  | |- Blind _ _ (match ?x with _ => _ end) => destruct x
  | |- Blind _ _ _ => solve [auto with blind typeclass_instances]
  end.

Ltac blind := repeat blind_step.

Section BlindMethods.

Variable eVT : MLIR.Type_ -> option string.
Variable eW : Z -> option string.

Lemma Blind_funcName : Blind sameFunc NoCtrl funcName.
Proof. unfold funcName; blind. Qed.

Lemma Blind_run_emitter R `{!Frame R} os tok :
  Blind R NoCtrl (run_emitter os tok).
Proof. unfold run_emitter; blind. Qed.

Lemma Blind_emitHSPortCtor R `{!Frame R} os prefix hasData :
  Blind R NoCtrl (emitHSPortCtor os prefix hasData).
Proof. unfold emitHSPortCtor; blind. Qed.

Lemma Blind_emitHSTypeAssert R `{!Frame R} os type value err :
  Blind R NoCtrl (emitHSTypeAssert os type value err).
Proof. unfold emitHSTypeAssert; blind. Qed.

Lemma Blind_getPortName idx : Blind sameOps NoCtrl (getPortName idx).
Proof. unfold getPortName; blind. Qed.

Lemma Blind_getPortType idx : Blind sameOps NoCtrl (getPortType idx).
Proof. unfold getPortType; blind. Qed.

Lemma Blind_getResName idx : Blind sameOps NoCtrl (getResName idx).
Proof. unfold getResName, inCtrlIdx; blind. apply Blind_getPortName. Qed.

Lemma Blind_getBundleDataWidth R `{!Frame R} b :
  Blind R NoCtrl (getBundleDataWidth b).
Proof. unfold getBundleDataWidth; blind. Qed.

Lemma Blind_findAddrWidth R `{!Frame R} sigs :
  forall a, Blind R NoCtrl (findAddrWidth sigs a).
Proof.
  induction sigs as [|sig rest IH]; intros a; simpl; [apply Blind_ret|].
  destruct (startswith (FIRRTL.name sig) "ldAddr"
            || startswith (FIRRTL.name sig) "stAddr"); [|apply IH].
  apply Blind_bind; [unfold cast_BundleType; blind|intros b].
  apply Blind_bind; [now apply Blind_getBundleDataWidth|intros x; apply IH].
Qed.

Lemma Blind_resolveAddrWidth R `{!Frame R} sigs :
  Blind R NoCtrl (resolveAddrWidth sigs).
Proof.
  unfold resolveAddrWidth.
  apply Blind_bind; [now apply Blind_findAddrWidth|intros; blind].
Qed.

Lemma Blind_emitVerilatorType R `{!Frame R} os t :
  Blind R NoCtrl (emitVerilatorType eVT os t).
Proof. now apply Blind_run_emitter. Qed.

Lemma Blind_emitVerilatorTypeFromWidth R `{!Frame R} os width :
  Blind R NoCtrl (emitVerilatorTypeFromWidth eW os width).
Proof. now apply Blind_run_emitter. Qed.

Hint Resolve Blind_emitVerilatorType Blind_emitVerilatorTypeFromWidth
  Blind_emitHSPortCtor Blind_emitHSTypeAssert Blind_getPortName
  Blind_getPortType Blind_getResName Blind_resolveAddrWidth : blind.

Lemma Blind_emitLoadPort name elt aw i :
  Blind sameOps NoCtrl (emitLoadPort eVT eW name elt aw i).
Proof. unfold emitLoadPort; blind. Qed.

Lemma Blind_emitStorePort name elt aw i :
  Blind sameOps NoCtrl (emitStorePort eVT eW name elt aw i).
Proof. unfold emitStorePort; blind. Qed.

Hint Resolve Blind_emitLoadPort Blind_emitStorePort : blind.

Lemma Blind_emitExtMemPort shape elt idx :
  Blind sameOps NoCtrl (emitExtMemPort eVT eW shape elt idx).
Proof.
  unfold emitExtMemPort, getInputName, cast_BundleType,
    cast_ExternalMemoryOp; blind.
Qed.

Lemma Blind_emitInputPort t idx :
  Blind sameOps NoCtrl (emitInputPort eVT eW t idx).
Proof.
  unfold emitInputPort.
  destruct (dyn_cast_MemRefType t) as [[shape elt]|];
    [apply Blind_emitExtMemPort|].
  unfold getInputName; blind.
Qed.

Lemma Blind_emitOutputPort t idx :
  Blind sameOps NoCtrl (emitOutputPort t idx).
Proof. unfold emitOutputPort; blind. Qed.

Lemma NoCtrl_aliases (alias : nat -> string) (l : list nat) :
  NoCtrl (map (Write Osi) (interleaveComma (map (fun i => V (alias i)) l))).
Proof.
  induction l as [|i [|j l] IH]; [split; reflexivity..|].
  destruct IH as [IH1 IH2]. split; simpl in *; assumption.
Qed.

Lemma Blind_emitIOTypes R `{!Frame R} `{!ReadsFunc R}
    (emitter : Target -> MLIR.Type_ -> M LogicalResult) :
  (forall os t, Blind R NoCtrl (emitter os t)) ->
  Blind R NoCtrl (emitIOTypes emitter).
Proof.
  intros Hemitter. unfold emitIOTypes.
  apply Blind_bind; [apply Blind_getFuncOp|intros f].
  apply Blind_check.
  { apply Blind_forEnumerate; intros t i.
    apply Blind_bind; [blind|intros _].
    apply Blind_check; [apply Hemitter|blind]. }
  apply Blind_bind; [blind|intros _].
  apply Blind_bind; [apply Blind_put, NoCtrl_aliases|intros _].
  apply Blind_bind; [blind|intros _].
  apply Blind_check.
  { apply Blind_forEnumerate; intros t i.
    apply Blind_bind; [blind|intros _].
    apply Blind_check; [apply Hemitter|blind]. }
  apply Blind_bind; [blind|intros _].
  apply Blind_bind; [apply Blind_put, NoCtrl_aliases|intros _].
  blind.
Qed.

End BlindMethods.

(** ** Scalar ports (C7) *)

Ltac run_monad :=
  cbv beta iota delta
    [getInputName getResName inCtrlIdx getPortName getPortType
     getFirrtlOp getHsOp getFuncOp funcName at_index emitHSTypeAssert
     emitHSPortCtor put osi_indent osi_unindent bind ret deref assert
     crash run_emitter emitVerilatorType emitVerilatorTypeFromWidth
     cast_BundleType cast_ExternalMemoryOp failed fst snd];
  cbn [addOps funcOp hsOp firrtlOp stream diags].

(* Two descriptions of the same wrapper: merge what was added, then compare
   the added operations. *)
Ltac same_state :=
  repeat rewrite addOps_app;
  lazymatch goal with
  | |- addOps ?w _ = addOps ?w _ =>
      apply (f_equal (addOps w)); vm_compute; reflexivity
  | |- withFirrtl ?m _ = withFirrtl ?m _ =>
      apply (f_equal (withFirrtl m));
      apply (f_equal (addOps _)); vm_compute; reflexivity
  end.

Lemma emitInputPort_scalar eVT eW t idx w m name ty :
  dyn_cast_MemRefType t = None ->
  firrtlOp w = Some m ->
  nth_error (FIRRTL.ports m) idx = Some (name, ty) ->
  emitInputPort eVT eW t idx w
  = (Returned success,
     addOps w (staticTypeAssert (argAlias idx) (dataField name)
               ++ inputPortRegistration (argAlias idx) name)).
Proof.
  intros Hcast Hfir Hport. unfold emitInputPort. rewrite Hcast.
  run_monad. rewrite Hfir. run_monad. rewrite Hport. run_monad.
  f_equal. same_state.
Qed.

Lemma emitOutputPort_run t idx w m name ty :
  firrtlOp w = Some m ->
  nth_error (FIRRTL.ports m) (idx + getNumArguments (funcOp w) + 1)
  = Some (name, ty) ->
  emitOutputPort t idx w
  = (Returned success,
     addOps w (staticTypeAssert (resAlias idx) (dataField name)
               ++ outputPortRegistration (resAlias idx) name)).
Proof.
  intros Hfir Hport. unfold emitOutputPort.
  run_monad. rewrite Hfir. run_monad. rewrite Hport. run_monad.
  f_equal. same_state.
Qed.

(** C7: the registration of the scalar argument at position [idx] uses the
    alias [TArg<idx>], that of the result at position [idx] the alias
    [TRes<idx>], and each registration comes right after the static assertion
    that this alias is the type of the data field of the model's port. *)
Theorem scalar_port_uses_position_alias
    (eVT : MLIR.Type_ -> option string) (eW : Z -> option string)
    (t : MLIR.Type_) (idx : nat) (w : Wrapper) (m : FIRRTL.FModuleLike) :
  firrtlOp w = Some m ->
  (forall name ty,
      dyn_cast_MemRefType t = None ->
      nth_error (FIRRTL.ports m) idx = Some (name, ty) ->
      emitInputPort eVT eW t idx w
      = (Returned success,
         addOps w (staticTypeAssert (argAlias idx) (dataField name)
                   ++ inputPortRegistration (argAlias idx) name)))
  /\ (forall name ty,
      nth_error (FIRRTL.ports m) (idx + getNumArguments (funcOp w) + 1)
      = Some (name, ty) ->
      emitOutputPort t idx w
      = (Returned success,
         addOps w (staticTypeAssert (resAlias idx) (dataField name)
                   ++ outputPortRegistration (resAlias idx) name))).
Proof.
  intros Hfir; split; intros name ty.
  - intros Hcast Hport. now apply emitInputPort_scalar with (m := m) (ty := ty).
  - intros Hport. now apply emitOutputPort_run with (m := m) (ty := ty).
Qed.

Lemma scalar_port_uses_position_alias_witness :
  emitInputPort Verilator.typeToken Verilator.typeFromWidth
    (IntegerType 32) 0 Cases.readyA
  = (Returned success,
     addOps Cases.readyA
       (staticTypeAssert "TArg0" "dut->in0_data"
        ++ inputPortRegistration "TArg0" "in0"))
  /\ emitOutputPort (IntegerType 32) 0 Cases.readyA
  = (Returned success,
     addOps Cases.readyA
       (staticTypeAssert "TRes0" "dut->out0_data"
        ++ outputPortRegistration "TRes0" "out0")).
Proof.
  pose proof (scalar_port_uses_position_alias
                Verilator.typeToken Verilator.typeFromWidth
                (IntegerType 32) 0 Cases.readyA Scenario.moduleA
                eq_refl) as [Hin Hout].
  split.
  - exact (Hin "in0"%string (Scenario.channel 32) eq_refl eq_refl).
  - exact (Hout "out0"%string (Scenario.channel 32) eq_refl).
Defined.

(** ** Expansion of a memory argument (C3, C4, C5) *)

Lemma resolveAddrWidth_settled sigs aw w :
  settlesAddressWidth sigs aw -> resolveAddrWidth sigs w = (Returned aw, w).
Proof.
  intros (Hwf & sig & Hlast & Haw & Hpos). unfold resolveAddrWidth.
  rewrite (bind_returned _ _ _ _ _ (findAddrWidth_last sigs Hwf 0%Z w)).
  rewrite Hlast, Haw. unfold bind, assert.
  apply Z.ltb_lt in Hpos. now rewrite Hpos.
Qed.

Section MemoryExpansion.

Variable eVT : MLIR.Type_ -> option string.
Variable eW : Z -> option string.
Variables (name elemTok addrTok : string) (elt : MLIR.Type_) (aw : Z).
Variable h : Handshake.FuncOp.
Hypothesis HeVT : eVT elt = Some elemTok.
Hypothesis HeW : eW aw = Some addrTok.

Ltac run_with Hhs :=
  repeat (progress (run_monad; rewrite ?Hhs, ?HeVT, ?HeW)).

Lemma emitLoadPort_run i w :
  hsOp w = Some h ->
  emitLoadPort eVT eW name elt aw i w
  = (Returned success,
     addOps w (loadPortRegistration name elemTok addrTok i)).
Proof.
  intros Hhs. unfold emitLoadPort. run_with Hhs. f_equal. same_state.
Qed.

Lemma emitStorePort_run i w :
  hsOp w = Some h ->
  emitStorePort eVT eW name elt aw i w
  = (Returned success,
     addOps w (storePortRegistration name elemTok addrTok i)).
Proof.
  intros Hhs. unfold emitStorePort. run_with Hhs. f_equal. same_state.
Qed.

Lemma forRange_registrations (body : nat -> M LogicalResult)
    (reg : nat -> list StreamOp) :
  (forall i w, hsOp w = Some h ->
               body i w = (Returned success, addOps w (reg i))) ->
  forall count from w,
    hsOp w = Some h ->
    forRange body from count w
    = (Returned success, addOps w (flat_map reg (seq from count))).
Proof.
  intros Hbody count; induction count as [|count IH]; intros from w Hhs.
  - simpl. unfold ret. now rewrite addOps_nil.
  - cbn [forRange seq flat_map].
    rewrite (bind_returned _ _ _ _ _ (Hbody from w Hhs)). cbn [failed].
    rewrite IH by exact Hhs. now rewrite addOps_app.
Qed.

Lemma emitExtMemPort_declares size idx w m sigs :
  firrtlOp w = Some m ->
  nth_error (FIRRTL.ports m) idx = Some (name, FIRRTL.BundleType sigs) ->
  settlesAddressWidth sigs aw ->
  hsOp w = Some h ->
  emitExtMemPort eVT eW [size] elt idx w
  = match nth_error (Handshake.argumentUsers h) idx with
    | None => (Crashed IndexOutOfRange,
               addOps w (memoryInterfaceDeclaration name elemTok addrTok size))
    | Some users =>
        (assert (length users =? 1)%nat
           "expected exactly 1 user of a memref input argument" ;;;
         user <- at_index users 0 ;;
         extMemOp <- cast_ExternalMemoryOp user ;;
         check forRange (emitLoadPort eVT eW name elt aw) 0 (fst extMemOp) ;;
         check forRange (emitStorePort eVT eW name elt aw) 0 (snd extMemOp) ;;
         ret success)
          (addOps w (memoryInterfaceDeclaration name elemTok addrTok size))
    end.
Proof.
  intros Hfir Hport Haw Hhs.
  unfold emitExtMemPort, memoryInterfaceDeclaration, osi.
  cbn [length Nat.eqb].
  repeat (progress (run_monad; rewrite ?Hfir, ?Hport)).
  rewrite (resolveAddrWidth_settled sigs aw w Haw).
  run_with Hhs. cbn [nth_error]. run_with Hhs.
  rewrite !addOps_app. cbn [map app].
  destruct (nth_error (Handshake.argumentUsers h) idx) as [users|];
    reflexivity.
Qed.

End MemoryExpansion.

Lemma emitExtMemPort_expands eVT eW name elemTok addrTok elt aw h
    size idx w m sigs loadCount storeCount :
  eVT elt = Some elemTok ->
  eW aw = Some addrTok ->
  firrtlOp w = Some m ->
  nth_error (FIRRTL.ports m) idx = Some (name, FIRRTL.BundleType sigs) ->
  settlesAddressWidth sigs aw ->
  hsOp w = Some h ->
  nth_error (Handshake.argumentUsers h) idx
  = Some [Handshake.ExternalMemoryOp loadCount storeCount] ->
  emitExtMemPort eVT eW [size] elt idx w
  = (Returned success,
     addOps w (memoryExpansion name elemTok addrTok size loadCount storeCount)).
Proof.
  intros HeVT HeW Hfir Hport Haw Hhs Husers.
  rewrite (emitExtMemPort_declares eVT eW name elemTok addrTok elt aw h
             HeVT HeW size idx w m sigs Hfir Hport Haw Hhs).
  rewrite Husers.
  set (w1 := addOps w (memoryInterfaceDeclaration name elemTok addrTok size)).
  assert (Hhs1 : hsOp w1 = Some h) by exact Hhs.
  cbn [length Nat.eqb]. run_monad. cbn [nth_error]. run_monad.
  rewrite (forRange_registrations h _ _
             (emitLoadPort_run eVT eW name elemTok addrTok elt aw h HeVT HeW)
             loadCount 0 w1 Hhs1).
  run_monad.
  match goal with
  | |- context [forRange (emitStorePort eVT eW name elt aw) 0 storeCount ?st] =>
      rewrite (forRange_registrations h _ _
                 (emitStorePort_run eVT eW name elemTok addrTok elt aw h
                    HeVT HeW)
                 storeCount 0 st Hhs1)
  end.
  run_monad. subst w1. unfold memoryExpansion.
  now rewrite !addOps_app.
Qed.




Lemma memSigs_settle : settlesAddressWidth Cases.memSigs 3%Z.
Proof.
  split.
  - intros sig [<-|[<-|[<-|[]]]] Haddr;
      first [discriminate Haddr | vm_compute; discriminate].
  - exists (FIRRTL.mkElement "ldAddr0" (Scenario.channel 3)).
    repeat split; reflexivity.
Defined.




#[export] Hint Resolve Blind_emitVerilatorType Blind_emitVerilatorTypeFromWidth
  Blind_emitHSPortCtor Blind_emitHSTypeAssert Blind_getPortName
  Blind_getPortType Blind_getResName Blind_resolveAddrWidth
  Blind_emitLoadPort Blind_emitStorePort Blind_emitExtMemPort
  Blind_emitInputPort Blind_emitOutputPort : blind.

Lemma bind_success_inv {A B} (m : M A) (k : A -> M B) w b w' :
  bind m k w = (Returned b, w') ->
  exists a w1, m w = (Returned a, w1) /\ k a w1 = (Returned b, w').
Proof.
  unfold bind. destruct (m w) as [[a|c] w1]; [|discriminate].
  intros H. now exists a, w1.
Qed.

Lemma Blind_keeps_ops {A} (P : list StreamOp -> Prop) (m : M A) w r w1 :
  Blind sameOps P m -> m w = (r, w1) -> sameOps w w1.
Proof.
  intros Hm Hrun. destruct (Hm w) as (r' & ops & _ & H).
  rewrite (H w (frame_refl w)) in Hrun. inversion Hrun; subst.
  repeat split.
Qed.

Lemma qualifying_single u :
  qualifyingConsumers [u] <> 1 -> exists opName, u = Handshake.OtherUser opName.
Proof.
  destruct u as [ld st|opName]; [now intros []|]. intros _. now exists opName.
Qed.

Section ConsumerCardinality.

Variable eVT : MLIR.Type_ -> option string.
Variable eW : Z -> option string.

(* One step of a successful run: the step returned, and it left the
   handshake function in place. *)
Ltac step E Hhs :=
  let a := fresh "a" in
  let w1 := fresh "w" in
  let Hs := fresh "Hs" in
  let Hk := fresh "Hk" in
  apply bind_success_inv in E as (a & w1 & Hs & E);
  assert (Hk : sameOps _ w1)
    by (eapply (Blind_keeps_ops NoCtrl); [|exact Hs];
        first [ solve [auto with blind typeclass_instances]
              | unfold getInputName, cast_BundleType; blind ]);
  destruct Hk as (_ & Hk & _); rewrite Hhs in Hk; symmetry in Hk;
  clear Hhs; rename Hk into Hhs;
  try (destruct a; [|discriminate E]; cbn [failed] in E).

Lemma emitExtMemPort_success_one_consumer shape elt idx w h users w' :
  hsOp w = Some h ->
  nth_error (Handshake.argumentUsers h) idx = Some users ->
  emitExtMemPort eVT eW shape elt idx w = (Returned success, w') ->
  qualifyingConsumers users = 1.
Proof.
  intros Hhs Husers E. unfold emitExtMemPort in E.
  do 13 (step E Hhs).
  apply bind_success_inv in E as (h' & wa & Hget & E).
  unfold getHsOp in Hget. rewrite Hhs in Hget. inversion Hget; subst h' wa.
  apply bind_success_inv in E as (us & wb & Hus & E).
  unfold at_index in Hus. rewrite Husers in Hus. inversion Hus; subst us wb.
  apply bind_success_inv in E as (u1 & wc & Hone & E).
  unfold assert in Hone.
  destruct (length users =? 1)%nat eqn:Hlen; [|discriminate].
  inversion Hone; subst wc.
  apply bind_success_inv in E as (u & wd & Hu & E).
  apply bind_success_inv in E as (counts & we & Hcast & E).
  apply Nat.eqb_eq in Hlen.
  destruct users as [|u0 [|u2 users]]; try discriminate.
  unfold at_index in Hu. cbn [nth_error] in Hu. inversion Hu; subst u0 wd.
  destruct u as [ld st|opName]; [reflexivity|discriminate].
Qed.

Lemma emitExtMemPort_wrong_consumers name elemTok addrTok elt aw h
    size idx w m sigs users :
  eVT elt = Some elemTok ->
  eW aw = Some addrTok ->
  firrtlOp w = Some m ->
  nth_error (FIRRTL.ports m) idx = Some (name, FIRRTL.BundleType sigs) ->
  settlesAddressWidth sigs aw ->
  hsOp w = Some h ->
  nth_error (Handshake.argumentUsers h) idx = Some users ->
  qualifyingConsumers users <> 1 ->
  emitExtMemPort eVT eW [size] elt idx w
  = (Crashed (if (length users =? 1)%nat then BadCast else expectedOneUser),
     addOps w (memoryInterfaceDeclaration name elemTok addrTok size)).
Proof.
  intros HeVT HeW Hfir Hport Haw Hhs Husers Hq.
  rewrite (emitExtMemPort_declares eVT eW name elemTok addrTok elt aw h
             HeVT HeW size idx w m sigs Hfir Hport Haw Hhs).
  rewrite Husers.
  destruct users as [|u [|u1 users]]; try reflexivity.
  destruct (qualifying_single u Hq) as [opName ->]. reflexivity.
Qed.

End ConsumerCardinality.

(** C5: a memory argument whose users do not include exactly one
    external-memory operation is never expanded with success; once the
    declaration is emitted the run stops, at the assertion on the number of
    users or at the cast of the single user. *)
Theorem memory_expansion_needs_one_consumer
    (eVT : MLIR.Type_ -> option string) (eW : Z -> option string)
    (shape : list Z) (elt : MLIR.Type_) (idx : nat) (w : Wrapper)
    (h : Handshake.FuncOp) (users : list Handshake.User) :
  hsOp w = Some h ->
  nth_error (Handshake.argumentUsers h) idx = Some users ->
  qualifyingConsumers users <> 1 ->
  fst (emitExtMemPort eVT eW shape elt idx w) <> Returned success
  /\ (forall name elemTok addrTok aw size m sigs,
        shape = [size] ->
        eVT elt = Some elemTok ->
        eW aw = Some addrTok ->
        firrtlOp w = Some m ->
        nth_error (FIRRTL.ports m) idx = Some (name, FIRRTL.BundleType sigs) ->
        settlesAddressWidth sigs aw ->
        emitExtMemPort eVT eW shape elt idx w
        = (Crashed (if (length users =? 1)%nat then BadCast
                    else expectedOneUser),
           addOps w (memoryInterfaceDeclaration name elemTok addrTok size))).
Proof.
  intros Hhs Husers Hq. split.
  - intros Hsucc.
    destruct (emitExtMemPort eVT eW shape elt idx w) as [r w'] eqn:E.
    simpl in Hsucc; subst r. apply Hq.
    exact (emitExtMemPort_success_one_consumer eVT eW shape elt idx w h
             users w' Hhs Husers E).
  - intros name elemTok addrTok aw size m sigs -> HeVT HeW Hfir Hport Haw.
    now apply emitExtMemPort_wrong_consumers with (h := h) (m := m) (sigs := sigs)
                                                  (aw := aw).
Qed.

Lemma memory_expansion_needs_one_consumer_witness :
  fst (emitExtMemPort Verilator.typeToken Verilator.typeFromWidth
         [8%Z] (IntegerType 32) 0 Cases.readyC) <> Returned success
  /\ emitExtMemPort Verilator.typeToken Verilator.typeFromWidth
       [8%Z] (IntegerType 32) 0 Cases.readyC
     = (Crashed expectedOneUser,
        addOps Cases.readyC
          (memoryInterfaceDeclaration "in0" "IData" "CData" 8)).
Proof.
  assert (Hq : qualifyingConsumers
                 [Handshake.ExternalMemoryOp 1 0;
                  Handshake.ExternalMemoryOp 0 1] <> 1)
    by (vm_compute; discriminate).
  destruct (memory_expansion_needs_one_consumer
              Verilator.typeToken Verilator.typeFromWidth
              [8%Z] (IntegerType 32) 0 Cases.readyC Scenario.hsC
              [Handshake.ExternalMemoryOp 1 0; Handshake.ExternalMemoryOp 0 1]
              eq_refl eq_refl Hq) as [Hnever Hstop].
  split; [exact Hnever|].
  exact (Hstop "in0"%string "IData"%string "CData"%string 3%Z 8%Z
               Scenario.moduleB Cases.memSigs
               eq_refl eq_refl eq_refl eq_refl eq_refl memSigs_settle).
Defined.

(** ** Runs composed from blind parts *)

Lemma appended_stream {A} (m : M A) w ops :
  stream (snd (m w)) = stream w ++ ops -> appended m w = ops.
Proof.
  unfold appended; intros ->.
  rewrite skipn_app, Nat.sub_diag, skipn_all; reflexivity.
Qed.

Lemma appended_ret {A} (a : A) w : appended (ret a) w = [].
Proof. apply appended_stream. simpl. now rewrite app_nil_r. Qed.

Section ComposedRuns.

Context {R : Wrapper -> Wrapper -> Prop} {P : list StreamOp -> Prop}.
Context `{!Frame R} `{!Closed P}.

Lemma Blind_at {A} (m : M A) w :
  Blind R P m -> m w = (fst (m w), addOps w (appended m w)).
Proof. intros Hm. exact (proj1 (Blind_run m w w Hm (frame_refl w))). Qed.

Lemma Blind_after {A} (m : M A) w ops :
  Blind R P m ->
  m (addOps w ops) = (fst (m w), addOps (addOps w ops) (appended m w)).
Proof.
  intros Hm. apply (Blind_run m w (addOps w ops) Hm).
  apply frame_right, frame_refl.
Qed.

Lemma bind_run {A B} (m : M A) (k : A -> M B) w :
  Blind R P m -> (forall a, Blind R P (k a)) ->
  fst (bind m k w)
  = match fst (m w) with
    | Returned a => fst (k a w)
    | Crashed c => Crashed c
    end
  /\ appended (bind m k) w
     = appended m w ++ match fst (m w) with
                       | Returned a => appended (k a) w
                       | Crashed _ => []
                       end.
Proof.
  intros Hm Hk. pose proof (Blind_at m w Hm) as Hw.
  remember (fst (m w)) as r eqn:Hr. remember (appended m w) as o eqn:Ho.
  assert (Hb : bind m k w
               = match r with
                 | Returned a =>
                     (fst (k a w), addOps w (o ++ appended (k a) w))
                 | Crashed c => (Crashed c, addOps w o)
                 end).
  { unfold bind. rewrite Hw. destruct r as [a|c]; [|reflexivity].
    rewrite (Blind_after (k a) w o (Hk a)). now rewrite addOps_app. }
  destruct r as [a|c].
  - split; [now rewrite Hb|]. exact (appended_addOps _ _ _ _ Hb).
  - split; [now rewrite Hb|]. rewrite app_nil_r.
    exact (appended_addOps _ _ _ _ Hb).
Qed.

Lemma enumerate_cons {A} idx (x : A) xs :
  enumerate idx (x :: xs) = (idx, x) :: enumerate (S idx) xs.
Proof. reflexivity. Qed.

(** A loop whose positions all succeed runs to its end and adds the groups
    of its positions in order. *)
Lemma forEnumerate_all {A} (body : A -> nat -> M LogicalResult) xs :
  (forall x i, Blind R P (body x i)) ->
  forall idx w,
    allSucceed body idx xs w ->
    fst (forEnumerate body idx xs w) = Returned success
    /\ appended (forEnumerate body idx xs) w
       = concat (portGroups body idx xs w).
Proof.
  intros Hbody. induction xs as [|x xs IH]; intros idx w Hall.
  - split; [reflexivity|]. apply appended_ret.
  - cbn [forEnumerate].
    assert (Hk : forall r : LogicalResult,
               Blind R P (if failed r then ret failure
                          else forEnumerate body (S idx) xs)).
    { intros r; destruct (failed r);
        [apply Blind_ret|now apply Blind_forEnumerate]. }
    destruct (bind_run (body x idx) _ w (Hbody x idx) Hk) as [Hfst Happ].
    pose proof (Hall (idx, x) (or_introl eq_refl)) as Hx. cbn [fst snd] in Hx.
    rewrite Hx in Hfst, Happ. cbn [failed] in Hfst, Happ.
    destruct (IH (S idx) w) as [IHfst IHapp].
    { intros p Hp. apply Hall. rewrite enumerate_cons. now right. }
    split; [now rewrite Hfst|].
    rewrite Happ, IHapp. reflexivity.
Qed.

(** A loop stops at its first position that does not succeed: its outcome
    is the outcome of that position, and it adds the groups of the positions
    before it and what that position added, nothing of the later ones. *)
Lemma forEnumerate_first_failure {A} (body : A -> nat -> M LogicalResult)
    pre x post :
  (forall x i, Blind R P (body x i)) ->
  forall idx w,
    allSucceed body idx pre w ->
    fst (body x (idx + length pre) w) <> Returned success ->
    fst (forEnumerate body idx (pre ++ x :: post) w)
    = fst (body x (idx + length pre) w)
    /\ appended (forEnumerate body idx (pre ++ x :: post)) w
       = concat (portGroups body idx pre w)
         ++ appended (body x (idx + length pre)) w.
Proof.
  intros Hbody. induction pre as [|y pre IH]; intros idx w Hall Hfail.
  - cbn [app length forEnumerate]. rewrite Nat.add_0_r in *.
    assert (Hk : forall r : LogicalResult,
               Blind R P (if failed r then ret failure
                          else forEnumerate body (S idx) post)).
    { intros r; destruct (failed r);
        [apply Blind_ret|now apply Blind_forEnumerate]. }
    destruct (bind_run (body x idx) _ w (Hbody x idx) Hk) as [Hfst Happ].
    rewrite Hfst, Happ.
    destruct (fst (body x idx w)) as [[|]|c]; cbn [failed].
    + now contradict Hfail.
    + split; [reflexivity|]. now rewrite appended_ret, app_nil_r.
    + split; [reflexivity|]. now rewrite app_nil_r.
  - cbn [app length forEnumerate] in *.
    assert (Hk : forall r : LogicalResult,
               Blind R P (if failed r then ret failure
                          else forEnumerate body (S idx) (pre ++ x :: post))).
    { intros r; destruct (failed r);
        [apply Blind_ret|now apply Blind_forEnumerate]. }
    destruct (bind_run (body y idx) _ w (Hbody y idx) Hk) as [Hfst Happ].
    pose proof (Hall (idx, y) (or_introl eq_refl)) as Hy. cbn [fst snd] in Hy.
    rewrite Hy in Hfst, Happ. cbn [failed] in Hfst, Happ.
    rewrite Nat.add_succ_r in *.
    destruct (IH (S idx) w) as [IHfst IHapp].
    { intros p Hp. apply Hall. rewrite enumerate_cons. now right. }
    { exact Hfail. }
    split; [now rewrite Hfst|].
    rewrite Happ, IHapp. cbn [portGroups enumerate]. simpl.
    now rewrite <- app_assoc.
Qed.

End ComposedRuns.

(** ** The simulator and the preamble, part by part *)

Section SimulatorParts.

Variable eVT : MLIR.Type_ -> option string.
Variable eW : Z -> option string.

Lemma Blind_emitSoftwareInterface :
  Blind sameOps NoCtrl (emitSoftwareInterface eVT eW).
Proof. unfold emitSoftwareInterface; blind. Qed.

Lemma emitSimulator_wires w m inName tyI outName tyO :
  firrtlOp w = Some m ->
  nth_error (FIRRTL.ports m) (getNumArguments (funcOp w))
  = Some (inName, tyI) ->
  nth_error (FIRRTL.ports m)
            (getNumResults (funcOp w) + getNumArguments (funcOp w) + 1)
  = Some (outName, tyO) ->
  emitSimulator eVT eW w
  = emitSoftwareInterface eVT eW
      (addOps w (simulatorHeader (getName (funcOp w))
                 ++ controlWiring inName outName ++ osi [L nl])).
Proof.
  intros Hfir Hin Hout. unfold emitSimulator.
  repeat (progress (run_monad; rewrite ?Hfir, ?Hin, ?Hout)).
  f_equal. same_state.
Qed.

Lemma emitSoftwareInterface_unfold w :
  emitSoftwareInterface eVT eW w
  = match forEnumerate (emitInputPort eVT eW) 0 (getInputs (funcOp w))
            (addOps w softwareInterfaceHeader) with
    | (Returned success, w1) =>
        match forEnumerate emitOutputPort 0 (getResults (funcOp w))
                (addOps w1 outputPortsHeader) with
        | (Returned success, w2) => (Returned success, addOps w2 simulatorFooter)
        | other => other
        end
    | other => other
    end.
Proof.
  unfold emitSoftwareInterface. run_monad.
  match goal with
  | |- context [forEnumerate (emitInputPort eVT eW) 0 ?xs ?st] =>
      replace st with (addOps w softwareInterfaceHeader) by same_state
  end.
  destruct (forEnumerate (emitInputPort eVT eW) 0 (getInputs (funcOp w)) _)
    as [[[|]|c] w1]; try reflexivity.
  run_monad.
  match goal with
  | |- context [forEnumerate emitOutputPort 0 ?xs ?st] =>
      replace st with (addOps w1 outputPortsHeader) by same_state
  end.
  destruct (forEnumerate emitOutputPort 0 (getResults (funcOp w)) _)
    as [[[|]|c] w2]; try reflexivity.
  run_monad. f_equal. same_state.
Qed.

Lemma emitPreamble_unfold m w :
  emitPreamble eVT eW (Some (FModuleLikeOperation m)) w
  = match emitIOTypes (emitVerilatorType eVT) w with
    | (Returned success, w1) =>
        match emitSimulator eVT eW
                (withFirrtl m
                   (addOps w1 (modelAliases (getName (funcOp w1))))) with
        | (Returned success, w2) =>
            (Returned success,
             addOps w2 (driverAlias (getName (funcOp w1))))
        | other => other
        end
    | other => other
    end.
Proof.
  unfold emitPreamble.
  rewrite (bind_returned _ _ w (FModuleLikeOperation m) w eq_refl).
  change (dyn_cast_FModuleLike (FModuleLikeOperation m)) with (Some m).
  cbv beta iota. unfold bind at 1.
  destruct (emitIOTypes (emitVerilatorType eVT) w) as [[[|]|c] w1];
    try reflexivity.
  cbn [failed]. cbv beta iota.
  change (setFirrtlOp m) with (fun w0 => (Returned tt, withFirrtl m w0)).
  run_monad.
  match goal with
  | |- context [emitSimulator eVT eW ?st] =>
      replace st with
        (withFirrtl m (addOps w1 (modelAliases (getName (funcOp w1)))))
        by same_state
  end.
  destruct (emitSimulator eVT eW _) as [[[|]|c] w2]; reflexivity.
Qed.

End SimulatorParts.

(** ** Runs that succeed *)

#[export] Instance StreamFree_wraps f m : StreamFree (wraps f m).
Proof. intros w ops H; exact H. Qed.

#[export] Instance StreamFree_wrapsFunc f : StreamFree (wrapsFunc f).
Proof. intros w ops H; exact H. Qed.

Section SucceedingRuns.

Context {I : Wrapper -> Prop} `{!StreamFree I}.

Lemma RunsOk_ret : RunsOk I (ret success).
Proof. intros w _. exists []. unfold ret. now rewrite addOps_nil. Qed.

Lemma Runs_put t xs : Runs I (put t xs).
Proof. intros w _. now exists tt, (map (Write t) xs). Qed.

Lemma Runs_unindent : Runs I osi_unindent.
Proof. intros w _. now exists tt, [Unindent]. Qed.

Lemma Runs_getFuncOp : Runs I getFuncOp.
Proof.
  intros w _. exists (funcOp w), []. unfold getFuncOp. now rewrite addOps_nil.
Qed.

Lemma RunsOk_bind {A} (m : M A) (k : A -> M LogicalResult) :
  Runs I m -> (forall a, RunsOk I (k a)) -> RunsOk I (bind m k).
Proof.
  intros Hm Hk w Hw. destruct (Hm w Hw) as (a & ops & Hrun).
  destruct (Hk a (addOps w ops) (stream_free _ _ Hw)) as [ops2 Hrun2].
  exists (ops ++ ops2). unfold bind. now rewrite Hrun, Hrun2, addOps_app.
Qed.

Lemma RunsOk_check (m k : M LogicalResult) :
  RunsOk I m -> RunsOk I k ->
  RunsOk I (bind m (fun r => if failed r then ret failure else k)).
Proof.
  intros Hm Hk w Hw. destruct (Hm w Hw) as [ops Hrun].
  destruct (Hk (addOps w ops) (stream_free _ _ Hw)) as [ops2 Hrun2].
  exists (ops ++ ops2). unfold bind. rewrite Hrun. cbn [failed].
  now rewrite Hrun2, addOps_app.
Qed.

Lemma RunsOk_forEnumerate {A} (body : A -> nat -> M LogicalResult) xs :
  forall idx,
    (forall p, In p (enumerate idx xs) -> RunsOk I (body (snd p) (fst p))) ->
    RunsOk I (forEnumerate body idx xs).
Proof.
  induction xs as [|x xs IH]; intros idx Hbody; cbn [forEnumerate].
  - apply RunsOk_ret.
  - apply RunsOk_check.
    + apply (Hbody (idx, x)). now left.
    + apply IH. intros p Hp. apply Hbody. rewrite enumerate_cons. now right.
Qed.

End SucceedingRuns.

Lemma enumerate_In {A} (xs : list A) idx p :
  In p (enumerate idx xs) ->
  In (snd p) xs /\ idx <= fst p < idx + length xs.
Proof.
  revert idx; induction xs as [|x xs IH]; intros idx; [now intros []|].
  rewrite enumerate_cons. intros [<-|Hp].
  - cbn [fst snd length]. split; [now left|lia].
  - destruct (IH _ Hp) as [Hin Hrange]. cbn [length].
    split; [now right|lia].
Qed.

Lemma nth_error_in_range {A} (l : list A) i :
  i < length l -> exists x, nth_error l i = Some x.
Proof.
  intros Hi. destruct (nth_error l i) as [x|] eqn:E; [now exists x|].
  apply nth_error_None in E. lia.
Qed.

Section SucceedingMethods.

Variable eVT : MLIR.Type_ -> option string.
Variable eW : Z -> option string.

Lemma RunsOk_emitIOTypes f :
  typesSupported eVT f ->
  RunsOk (wrapsFunc f) (emitIOTypes (emitVerilatorType eVT)).
Proof.
  intros Hsup.
  assert (Hpos : forall (lit : string) xs idx,
             (forall t, In t xs -> eVT t <> None) ->
             RunsOk (wrapsFunc f)
               (forEnumerate
                  (fun t i =>
                     put Osi [L lit; V (to_string i); L " = "] ;;;
                     check emitVerilatorType eVT Osi t ;;
                     put Osi [L (";" ++ nl)%string] ;;;
                     ret success) idx xs)).
  { intros lit xs idx Hxs. apply RunsOk_forEnumerate. intros p Hp.
    destruct (enumerate_In _ _ _ Hp) as [Hin _].
    apply RunsOk_bind; [apply Runs_put|intros _].
    apply RunsOk_check.
    - intros w _. unfold emitVerilatorType, run_emitter.
      destruct (eVT (snd p)) as [tok|] eqn:E; [|now apply Hxs in Hin].
      exists (map (Write Osi) [V tok]). reflexivity.
    - apply RunsOk_bind; [apply Runs_put|intros _; apply RunsOk_ret]. }
  intros w Hw. unfold emitIOTypes.
  rewrite (bind_returned getFuncOp _ w (funcOp w) w eq_refl).
  pose proof Hw as Hf. unfold wrapsFunc in Hf. rewrite Hf.
  refine (RunsOk_check (I := wrapsFunc f) _ _ _ _ w Hw).
  - apply Hpos. intros t Ht. apply Hsup, in_or_app. now left.
  - apply RunsOk_bind; [apply Runs_put|intros _].
    apply RunsOk_bind; [apply Runs_put|intros _].
    apply RunsOk_bind; [apply Runs_put|intros _].
    apply RunsOk_check.
    + apply Hpos. intros t Ht. apply Hsup, in_or_app. now right.
    + apply RunsOk_bind; [apply Runs_put|intros _].
      apply RunsOk_bind; [apply Runs_put|intros _].
      apply RunsOk_bind; [apply Runs_put|intros _; apply RunsOk_ret].
Qed.

Lemma RunsOk_emitSoftwareInterface f m :
  scalarArguments f ->
  getNumResults f + getNumArguments f + 1 < length (FIRRTL.ports m) ->
  RunsOk (wraps f m) (emitSoftwareInterface eVT eW).
Proof.
  intros Hscalar Hports. intros w Hw. destruct Hw as [Hf Hfir].
  assert (Hin : RunsOk (wraps f m)
                  (forEnumerate (emitInputPort eVT eW) 0 (getInputs f))).
  { apply RunsOk_forEnumerate. intros p Hp w' [Hf' Hfir'].
    destruct (enumerate_In _ _ _ Hp) as [Hin Hrange].
    destruct (nth_error_in_range (FIRRTL.ports m) (fst p)) as [[name ty] Hn].
    { unfold getNumArguments in Hports. lia. }
    eexists. apply (emitInputPort_scalar eVT eW _ _ _ m name ty);
      [now apply Hscalar|exact Hfir'|exact Hn]. }
  assert (Hout : RunsOk (wraps f m)
                   (forEnumerate emitOutputPort 0 (getResults f))).
  { apply RunsOk_forEnumerate. intros p Hp w' [Hf' Hfir'].
    destruct (enumerate_In _ _ _ Hp) as [Hin' Hrange].
    destruct (nth_error_in_range (FIRRTL.ports m)
                (fst p + getNumArguments f + 1)) as [[name ty] Hn].
    { unfold getNumResults in Hports. lia. }
    eexists. apply (emitOutputPort_run _ _ _ m name ty);
      [exact Hfir'|now rewrite Hf']. }
  assert (Hw : wraps f m w) by now split.
  unfold emitSoftwareInterface.
  refine (RunsOk_bind (I := wraps f m) _ _ (Runs_put _ _) _ w Hw).
  intros _ w1 Hw1.
  rewrite (bind_returned getFuncOp _ w1 (funcOp w1) w1 eq_refl).
  rewrite (proj1 Hw1).
  refine (RunsOk_bind (I := wraps f m) _ _ (Runs_put _ _) _ w1 Hw1).
  intros _.
  apply RunsOk_check; [exact Hin|].
  apply RunsOk_bind; [apply Runs_put|intros _].
  apply RunsOk_check; [exact Hout|].
  apply RunsOk_bind; [apply Runs_unindent|intros _].
  apply RunsOk_bind; [apply Runs_put|intros _].
  apply RunsOk_bind; [apply Runs_unindent|intros _].
  apply RunsOk_bind; [apply Runs_put|intros _; apply RunsOk_ret].
Qed.

End SucceedingMethods.

(** ** The layout of the preamble *)

Lemma control_ports_exist f m :
  portCountInvariant f m ->
  exists inName tyI outName tyO,
    nth_error (FIRRTL.ports m) (getNumArguments f) = Some (inName, tyI)
    /\ nth_error (FIRRTL.ports m) (getNumResults f + getNumArguments f + 1)
       = Some (outName, tyO).
Proof.
  unfold portCountInvariant. intros Hinv.
  destruct (nth_error_in_range (FIRRTL.ports m) (getNumArguments f))
    as [[inName tyI] Hin]; [lia|].
  destruct (nth_error_in_range (FIRRTL.ports m)
              (getNumResults f + getNumArguments f + 1))
    as [[outName tyO] Hout]; [lia|].
  now exists inName, tyI, outName, tyO.
Qed.

Lemma Blind_emitIOTypes_at eVT w :
  emitIOTypes (emitVerilatorType eVT) w
  = (fst (emitIOTypes (emitVerilatorType eVT) w),
     addOps w (appended (emitIOTypes (emitVerilatorType eVT)) w))
  /\ NoCtrl (appended (emitIOTypes (emitVerilatorType eVT)) w).
Proof.
  apply (Blind_run (R := sameFunc) (P := NoCtrl)); [|apply frame_refl].
  apply Blind_emitIOTypes; try typeclasses eauto.
  intros os t. apply Blind_emitVerilatorType. typeclasses eauto.
Qed.

Section PreambleLayout.

Variable eVT : MLIR.Type_ -> option string.
Variable eW : Z -> option string.

Lemma emitSimulator_layout w m inName tyI outName tyO :
  firrtlOp w = Some m ->
  nth_error (FIRRTL.ports m) (getNumArguments (funcOp w))
  = Some (inName, tyI) ->
  nth_error (FIRRTL.ports m)
            (getNumResults (funcOp w) + getNumArguments (funcOp w) + 1)
  = Some (outName, tyO) ->
  emitSimulator eVT eW w
  = (fst (emitSoftwareInterface eVT eW w),
     addOps w (simulatorHeader (getName (funcOp w))
               ++ controlWiring inName outName ++ osi [L nl]
               ++ appended (emitSoftwareInterface eVT eW) w)).
Proof.
  intros Hfir Hin Hout.
  rewrite (emitSimulator_wires eVT eW w m inName tyI outName tyO Hfir Hin Hout).
  rewrite (Blind_after (R := sameOps) (P := NoCtrl) _ w _
             (Blind_emitSoftwareInterface eVT eW)).
  rewrite addOps_app. now rewrite <- !app_assoc.
Qed.

Lemma emitPreamble_layout f m w inName tyI outName tyO :
  funcOp w = f ->
  typesSupported eVT f ->
  nth_error (FIRRTL.ports m) (getNumArguments f) = Some (inName, tyI) ->
  nth_error (FIRRTL.ports m) (getNumResults f + getNumArguments f + 1)
  = Some (outName, tyO) ->
  let sw := emitSoftwareInterface eVT eW in
  let ws := withFirrtl m w in
  exists io,
    NoCtrl io /\ NoCtrl (appended sw ws)
    /\ fst (emitPreamble eVT eW (Some (FModuleLikeOperation m)) w)
       = fst (sw ws)
    /\ appended (emitPreamble eVT eW (Some (FModuleLikeOperation m))) w
       = (io ++ modelAliases (getName f) ++ simulatorHeader (getName f))
         ++ controlWiring inName outName
         ++ (osi [L nl] ++ appended sw ws
             ++ match fst (sw ws) with
                | Returned success => driverAlias (getName f)
                | _ => []
                end).
Proof.
  intros Hf Hsup Hin Hout sw ws.
  destruct (Blind_emitIOTypes_at eVT w) as [Hio HioP].
  destruct (RunsOk_emitIOTypes eVT f Hsup w Hf) as [ops Hok].
  assert (Hfst : fst (emitIOTypes (emitVerilatorType eVT) w) = Returned success)
    by now rewrite Hok.
  rewrite Hfst in Hio.
  set (io := appended (emitIOTypes (emitVerilatorType eVT)) w) in *.
  exists io. split; [exact HioP|].
  set (ws1 := withFirrtl m (addOps (addOps w io) (modelAliases (getName f)))).
  assert (Hrel : sameOps ws ws1) by (repeat split).
  destruct (Blind_run (R := sameOps) (P := NoCtrl) sw ws ws1
              (Blind_emitSoftwareInterface eVT eW) Hrel) as [Hsw HswP].
  split; [exact HswP|].
  assert (Hsim : emitSimulator eVT eW ws1
                 = (fst (sw ws),
                    addOps ws1 (simulatorHeader (getName f)
                                ++ controlWiring inName outName ++ osi [L nl]
                                ++ appended sw ws))).
  { rewrite (emitSimulator_layout ws1 m inName tyI outName tyO);
      [|reflexivity| |].
    - fold sw. rewrite Hsw. cbn [fst]. rewrite (appended_addOps _ _ _ _ Hsw).
      subst ws1. cbn [withFirrtl addOps funcOp]. now rewrite Hf.
    - subst ws1. cbn [withFirrtl addOps funcOp]. now rewrite Hf.
    - subst ws1. cbn [withFirrtl addOps funcOp]. now rewrite Hf. }
  assert (Hrun : emitPreamble eVT eW (Some (FModuleLikeOperation m)) w
                 = match fst (sw ws) with
                   | Returned success =>
                       (Returned success,
                        addOps
                          (addOps ws1
                             (simulatorHeader (getName f)
                              ++ controlWiring inName outName ++ osi [L nl]
                              ++ appended sw ws))
                          (driverAlias (getName f)))
                   | r =>
                       (r, addOps ws1
                             (simulatorHeader (getName f)
                              ++ controlWiring inName outName ++ osi [L nl]
                              ++ appended sw ws))
                   end).
  { rewrite emitPreamble_unfold, Hio.
    cbn [addOps funcOp]. rewrite Hf. fold ws1. rewrite Hsim.
    destruct (fst (sw ws)) as [[|]|c]; reflexivity. }
  split.
  - rewrite Hrun. destruct (fst (sw ws)) as [[|]|c]; reflexivity.
  - apply appended_stream. rewrite Hrun.
    destruct (fst (sw ws)) as [[|]|c]; subst ws1;
      cbn [snd addOps withFirrtl stream];
      rewrite <- ?app_assoc; rewrite ?app_nil_r; reflexivity.
Qed.

End PreambleLayout.

(** ** Generation depends on the operations only *)

Lemma sameOps_sameFunc w w2 : sameOps w w2 -> sameFunc w w2.
Proof. intros H; apply H. Qed.

Ltac from_noctrl :=
  eapply (Blind_weaken sameOps sameOps NoCtrl Any);
  [intros ? ? HH; exact HH | intros; exact I |].

Section Determinism.

Variable eVT : MLIR.Type_ -> option string.
Variable eW : Z -> option string.

Lemma Blind_emitSimulator : Blind sameOps Any (emitSimulator eVT eW).
Proof.
  assert (Hidx : Blind sameOps Any inCtrlIdx).
  { unfold inCtrlIdx. apply Blind_bind; [apply Blind_getFuncOp|].
    intros f. apply Blind_ret. }
  unfold emitSimulator, getInputName.
  apply Blind_bind.
  { eapply (Blind_weaken sameFunc sameOps NoCtrl Any);
      [apply sameOps_sameFunc|intros; exact I|apply Blind_funcName]. }
  intros n.
  repeat (lazymatch goal with |- Blind _ _ (bind _ _) => idtac end;
          apply Blind_bind;
          [first [ apply Blind_put; exact I
                 | apply Blind_indent; exact I
                 | apply Blind_getFuncOp
                 | apply Blind_ret
                 | exact Hidx
                 | from_noctrl; apply Blind_getPortName
                 | from_noctrl; apply Blind_getResName ]
          |intros]).
  from_noctrl. apply Blind_emitSoftwareInterface.
Qed.

Lemma emitPreamble_determined kernelOp w :
  exists r ops,
    forall w2, funcOp w = funcOp w2 -> hsOp w = hsOp w2 ->
      fst (emitPreamble eVT eW kernelOp w2) = r
      /\ stream (snd (emitPreamble eVT eW kernelOp w2)) = stream w2 ++ ops.
Proof.
  destruct kernelOp as [[h|m|opName]|].
  - exists (Returned failure), []. intros w2 _ _.
    split; [reflexivity|]. simpl. now rewrite app_nil_r.
  - assert (Hio : Blind sameFunc NoCtrl (emitIOTypes (emitVerilatorType eVT))).
    { apply Blind_emitIOTypes; try typeclasses eauto.
      intros os t. apply Blind_emitVerilatorType. typeclasses eauto. }
    destruct (Hio w) as (r0 & io & _ & Hrun0).
    set (n := getName (funcOp w)).
    destruct (Blind_emitSimulator
                (withFirrtl m (addOps (addOps w io) (modelAliases n))))
      as (r1 & sim & _ & Hrun1).
    exists (match r0 with
            | Returned success => r1
            | _ => r0
            end),
           (match r0 with
            | Returned success =>
                io ++ modelAliases n ++ sim
                ++ match r1 with
                   | Returned success => driverAlias n
                   | _ => []
                   end
            | _ => io
            end).
    intros w2 Hf Hh. rewrite emitPreamble_unfold, (Hrun0 w2 Hf).
    destruct r0 as [[|]|c]; try (split; reflexivity).
    cbn [addOps funcOp]. rewrite <- Hf. fold n.
    rewrite (Hrun1 (withFirrtl m (addOps (addOps w2 io) (modelAliases n))))
      by (repeat split; assumption).
    destruct r1 as [[|]|c]; (split; [reflexivity|]);
      cbn [snd addOps withFirrtl stream];
      rewrite <- ?app_assoc; rewrite ?app_nil_r; reflexivity.
  - exists (Returned failure), []. intros w2 _ _.
    split; [reflexivity|]. simpl. now rewrite app_nil_r.
  - exists (Crashed (AssertionFailed "dyn_cast on a non-existent value")), [].
    intros w2 _ _.
    split; [reflexivity|]. simpl. now rewrite app_nil_r.
Qed.

End Determinism.

Section OrderedLoops.

Context {R : Wrapper -> Wrapper -> Prop} {P : list StreamOp -> Prop}.
Context `{!Frame R} `{!Closed P}.

(** A loop that ran to its end added the groups of its positions in order. *)
Lemma forEnumerate_success {A} (body : A -> nat -> M LogicalResult) xs :
  (forall x i, Blind R P (body x i)) ->
  forall idx w,
    fst (forEnumerate body idx xs w) = Returned success ->
    appended (forEnumerate body idx xs) w = concat (portGroups body idx xs w).
Proof.
  intros Hbody. induction xs as [|x xs IH]; intros idx w Hok.
  - apply appended_ret.
  - cbn [forEnumerate] in *.
    assert (Hk : forall r : LogicalResult,
               Blind R P (if failed r then ret failure
                          else forEnumerate body (S idx) xs)).
    { intros r; destruct (failed r);
        [apply Blind_ret|now apply Blind_forEnumerate]. }
    destruct (bind_run (body x idx) _ w (Hbody x idx) Hk) as [Hfst Happ].
    rewrite Hfst in Hok. rewrite Happ.
    destruct (fst (body x idx w)) as [[|]|c]; try discriminate.
    cbn [failed] in *. rewrite (IH (S idx) w Hok). reflexivity.
Qed.

End OrderedLoops.

Section SoftwareInterface.

Variable eVT : MLIR.Type_ -> option string.
Variable eW : Z -> option string.

Lemma emitSoftwareInterface_run w :
  let ins := forEnumerate (emitInputPort eVT eW) 0 (getInputs (funcOp w)) in
  let outs := forEnumerate emitOutputPort 0 (getResults (funcOp w)) in
  fst (emitSoftwareInterface eVT eW w)
  = match fst (ins w) with
    | Returned success => fst (outs w)
    | r => r
    end
  /\ appended (emitSoftwareInterface eVT eW) w
     = softwareInterfaceHeader ++ appended ins w
       ++ match fst (ins w) with
          | Returned success =>
              outputPortsHeader ++ appended outs w
              ++ match fst (outs w) with
                 | Returned success => simulatorFooter
                 | _ => []
                 end
          | _ => []
          end.
Proof.
  intros ins outs.
  assert (Hins : Blind sameOps NoCtrl ins).
  { apply Blind_forEnumerate. intros; apply Blind_emitInputPort. }
  assert (Houts : Blind sameOps NoCtrl outs).
  { apply Blind_forEnumerate. intros; apply Blind_emitOutputPort. }
  assert (Hrun : emitSoftwareInterface eVT eW w
                 = (match fst (ins w) with
                    | Returned success => fst (outs w)
                    | r => r
                    end,
                    addOps w
                      (softwareInterfaceHeader ++ appended ins w
                       ++ match fst (ins w) with
                          | Returned success =>
                              outputPortsHeader ++ appended outs w
                              ++ match fst (outs w) with
                                 | Returned success => simulatorFooter
                                 | _ => []
                                 end
                          | _ => []
                          end))).
  { rewrite emitSoftwareInterface_unfold. fold ins outs.
    rewrite (Blind_after ins w softwareInterfaceHeader Hins).
    destruct (fst (ins w)) as [[|]|c];
      try (rewrite addOps_app, app_nil_r; reflexivity).
    rewrite (proj1 (Blind_run outs w
                      (addOps (addOps (addOps w softwareInterfaceHeader)
                                      (appended ins w))
                              outputPortsHeader)
                      Houts ltac:(repeat split))).
    destruct (fst (outs w)) as [[|]|c];
      rewrite !addOps_app, ?app_nil_r; reflexivity. }
  split; [now rewrite Hrun|exact (appended_addOps _ _ _ _ Hrun)].
Qed.

End SoftwareInterface.

(** ** The first failure stops generation (C8) *)

(** C8: generation stops at the first step that does not succeed and hands
    its outcome on unchanged.  When the I/O types do not succeed, the
    preamble ends as their emission ended; when the simulator does not
    succeed, the preamble ends as the simulator ended; when an argument port
    does not succeed, the simulator ends with the outcome of that port,
    having emitted the ports before it and what that port emitted; and the
    same holds for a result port in the software interface. *)
Theorem first_failure_stops_generation
    (eVT : MLIR.Type_ -> option string) (eW : Z -> option string)
    (m : FIRRTL.FModuleLike) (w : Wrapper) :
  (fst (emitIOTypes (emitVerilatorType eVT) w) <> Returned success ->
   emitPreamble eVT eW (Some (FModuleLikeOperation m)) w
   = emitIOTypes (emitVerilatorType eVT) w)
  /\ (forall w1,
        emitIOTypes (emitVerilatorType eVT) w = (Returned success, w1) ->
        let ws := withFirrtl m (addOps w1 (modelAliases (getName (funcOp w1)))) in
        fst (emitSimulator eVT eW ws) <> Returned success ->
        emitPreamble eVT eW (Some (FModuleLikeOperation m)) w
        = emitSimulator eVT eW ws)
  /\ (forall pre t post inName tyI outName tyO,
        firrtlOp w = Some m ->
        nth_error (FIRRTL.ports m) (getNumArguments (funcOp w))
        = Some (inName, tyI) ->
        nth_error (FIRRTL.ports m)
                  (getNumResults (funcOp w) + getNumArguments (funcOp w) + 1)
        = Some (outName, tyO) ->
        getInputs (funcOp w) = pre ++ t :: post ->
        allSucceed (emitInputPort eVT eW) 0 pre w ->
        fst (emitInputPort eVT eW t (length pre) w) <> Returned success ->
        fst (emitSimulator eVT eW w)
        = fst (emitInputPort eVT eW t (length pre) w)
        /\ appended (emitSimulator eVT eW) w
           = simulatorHeader (getName (funcOp w))
             ++ controlWiring inName outName
             ++ inputPortsHeader
             ++ concat (portGroups (emitInputPort eVT eW) 0 pre w)
             ++ appended (emitInputPort eVT eW t (length pre)) w)
  /\ (forall pre t post,
        getResults (funcOp w) = pre ++ t :: post ->
        allSucceed (emitInputPort eVT eW) 0 (getInputs (funcOp w)) w ->
        allSucceed emitOutputPort 0 pre w ->
        fst (emitOutputPort t (length pre) w) <> Returned success ->
        fst (emitSoftwareInterface eVT eW w)
        = fst (emitOutputPort t (length pre) w)
        /\ appended (emitSoftwareInterface eVT eW) w
           = softwareInterfaceHeader
             ++ concat (portGroups (emitInputPort eVT eW) 0
                          (getInputs (funcOp w)) w)
             ++ outputPortsHeader
             ++ concat (portGroups emitOutputPort 0 pre w)
             ++ appended (emitOutputPort t (length pre)) w).
Proof.
  split; [|split; [|split]].
  - intros Hfail. rewrite emitPreamble_unfold.
    destruct (emitIOTypes (emitVerilatorType eVT) w) as [[[|]|c] w1];
      [now contradict Hfail|reflexivity|reflexivity].
  - intros w1 Hio ws Hfail. rewrite emitPreamble_unfold, Hio. fold ws.
    destruct (emitSimulator eVT eW ws) as [[[|]|c] w2];
      [now contradict Hfail|reflexivity|reflexivity].
  - intros pre t post inName tyI outName tyO Hfir Hin Hout Hargs Hall Hfail.
    pose proof (emitSimulator_layout eVT eW w m inName tyI outName tyO
                  Hfir Hin Hout) as Hsim.
    destruct (emitSoftwareInterface_run eVT eW w) as [Hswf Hswa].
    destruct (forEnumerate_first_failure (R := sameOps) (P := NoCtrl)
                (emitInputPort eVT eW) pre t post
                (fun x i => Blind_emitInputPort eVT eW x i) 0 w Hall Hfail)
      as [Hfst Happ].
    cbn [Nat.add] in Hfst, Happ.
    rewrite Hargs, Hfst in Hswf. rewrite Hargs, Hfst, Happ in Hswa.
    rewrite (appended_addOps _ _ _ _ Hsim), Hsim. cbn [fst].
    rewrite Hswf, Hswa. unfold inputPortsHeader.
    destruct (fst (emitInputPort eVT eW t (length pre) w)) as [[|]|c];
      [now contradict Hfail| |];
      (split; [reflexivity|]);
      rewrite ?app_nil_r, <- ?app_assoc; reflexivity.
  - intros pre t post Hres Hins Hall Hfail.
    destruct (emitSoftwareInterface_run eVT eW w) as [Hswf Hswa].
    destruct (forEnumerate_all (R := sameOps) (P := NoCtrl)
                (emitInputPort eVT eW) _
                (fun x i => Blind_emitInputPort eVT eW x i) 0 w Hins)
      as [Hifst Hiapp].
    destruct (forEnumerate_first_failure (R := sameOps) (P := NoCtrl)
                emitOutputPort pre t post
                (fun x i => Blind_emitOutputPort x i) 0 w Hall Hfail)
      as [Hfst Happ].
    cbn [Nat.add] in Hfst, Happ.
    rewrite Hifst, Hres, Hfst in Hswf.
    rewrite Hifst, Hiapp, Hres, Hfst, Happ in Hswa.
    rewrite Hswf, Hswa.
    destruct (fst (emitOutputPort t (length pre) w)) as [[|]|c];
      [now contradict Hfail| |];
      (split; [reflexivity|]);
      rewrite ?app_nil_r, <- ?app_assoc; reflexivity.
Qed.

Lemma first_failure_stops_generation_witness :
  emitPreamble Verilator.typeToken Verilator.typeFromWidth
    (Some (FModuleLikeOperation Scenario.moduleA)) Cases.freshOpaque
  = emitIOTypes (emitVerilatorType Verilator.typeToken) Cases.freshOpaque
  /\ emitPreamble Verilator.typeToken Verilator.typeFromWidth
       (Some (FModuleLikeOperation Cases.moduleWide)) Cases.freshWide
     = emitSimulator Verilator.typeToken Verilator.typeFromWidth
         (withFirrtl Cases.moduleWide
            (addOps (snd (emitIOTypes (emitVerilatorType Verilator.typeToken)
                            Cases.freshWide))
                    (modelAliases "top")))
  /\ fst (emitSimulator Verilator.typeToken Verilator.typeFromWidth
            Cases.readyWide)
     = fst (emitInputPort Verilator.typeToken Verilator.typeFromWidth
              (MemRefType [8%Z] (IntegerType 32)) 0 Cases.readyWide)
  /\ fst (emitSoftwareInterface Verilator.typeToken Verilator.typeFromWidth
            Cases.readyShort)
     = fst (emitOutputPort (IntegerType 32) 0 Cases.readyShort).
Proof.
  split; [|split; [|split]].
  - apply (proj1 (first_failure_stops_generation
                    Verilator.typeToken Verilator.typeFromWidth
                    Scenario.moduleA Cases.freshOpaque)).
    vm_compute. discriminate.
  - apply (proj1 (proj2 (first_failure_stops_generation
                           Verilator.typeToken Verilator.typeFromWidth
                           Cases.moduleWide Cases.freshWide))
                 (snd (emitIOTypes (emitVerilatorType Verilator.typeToken)
                         Cases.freshWide))).
    + vm_compute. reflexivity.
    + vm_compute. discriminate.
  - apply (proj1 (proj2 (proj2 (first_failure_stops_generation
                           Verilator.typeToken Verilator.typeFromWidth
                           Cases.moduleWide Cases.readyWide)))
                 [] (MemRefType [8%Z] (IntegerType 32)) []
                 "inCtrl"%string Scenario.control
                 "outCtrl"%string Scenario.control
                 eq_refl eq_refl eq_refl eq_refl).
    + intros p [].
    + vm_compute. discriminate.
  - apply (proj2 (proj2 (proj2 (first_failure_stops_generation
                           Verilator.typeToken Verilator.typeFromWidth
                           Cases.moduleShort Cases.readyShort)))
                 [] (IntegerType 32) [] eq_refl).
    + intros p [<-|[]]. vm_compute. reflexivity.
    + intros p [].
    + vm_compute. discriminate.
Defined.

(** * Further properties of the wrapper *)

(** ** Initialisation *)

(** X1: [init] returns success exactly when the reference operation is a
    handshake function and the kernel operation a FIRRTL module; it then
    stores both and changes nothing else. *)
Theorem init_success_stores_operations
    (refOp kernelOp : option Operation) (w w' : Wrapper) :
  init refOp kernelOp w = (Returned success, w')
  <-> exists h m,
        refOp = Some (HandshakeFuncOperation h)
        /\ kernelOp = Some (FModuleLikeOperation m)
        /\ w' = mkWrapper (funcOp w) (Some h) (Some m) (stream w) (diags w).
Proof.
  split.
  - destruct refOp as [[h|m|n]|], kernelOp as [[h'|m'|n']|];
      try discriminate.
    intros [= <-]. now exists h, m'.
  - intros (h & m & -> & -> & ->). reflexivity.
Qed.

(** X2: [init] returns failure exactly when the reference operation is not
    null and either the kernel operation is null or the reference operation
    is no handshake function; it then reports one diagnostic, on the
    reference operation, and changes neither the stored operations nor the
    stream. *)
Theorem init_failure_reports_on_reference
    (refOp kernelOp : option Operation) (w w' : Wrapper) :
  init refOp kernelOp w = (Returned failure, w')
  <-> exists r,
        refOp = Some r
        /\ (kernelOp = None \/ dyn_cast_HandshakeFuncOp r = None)
        /\ w' = addDiag w (initDiagnostic r kernelOp).
Proof.
  split.
  - destruct refOp as [[h|m|n]|], kernelOp as [[h'|m'|n']|];
      try discriminate; intros [= <-];
      eexists; (split; [reflexivity|]); (split; [|reflexivity]);
      first [now left | now right].
  - intros (r & -> & Hcase & ->).
    destruct kernelOp as [k|]; [|reflexivity].
    destruct Hcase as [|Hr]; [discriminate|].
    destruct r; try discriminate; reflexivity.
Qed.

(** X3: [init] stops at a null pointer exactly when the reference operation
    is null, or when it is a handshake function and the kernel operation is
    not null and no FIRRTL module; it stops in no other way, and the wrapper
    is then as it was. *)
Theorem init_null_dereference_iff
    (refOp kernelOp : option Operation) (w : Wrapper) :
  (init refOp kernelOp w = (Crashed NullDereference, w)
   <-> (refOp = None
        \/ exists h k, refOp = Some (HandshakeFuncOperation h)
                       /\ kernelOp = Some k
                       /\ dyn_cast_FModuleLike k = None))
  /\ (forall c w', init refOp kernelOp w = (Crashed c, w') ->
                   c = NullDereference /\ w' = w).
Proof.
  split; [split|].
  - destruct refOp as [[h|m|n]|]; [| | |now left];
      destruct kernelOp as [[h'|m'|n']|]; try discriminate;
      intros _; right; eexists; eexists; repeat split.
  - intros [->|(h & k & -> & -> & Hk)].
    + now destruct kernelOp.
    + destruct k; try discriminate; reflexivity.
  - intros c w'.
    destruct refOp as [[h|m|n]|], kernelOp as [[h'|m'|n']|];
      try discriminate; intros [= <- <-]; split; reflexivity.
Qed.

(** ** The preamble and the stored operations *)

Lemma sameFunc_of_Blind {A} (P : list StreamOp -> Prop) (m : M A) w r w1 :
  Blind sameFunc P m -> m w = (r, w1) -> exists ops, w1 = addOps w ops.
Proof.
  intros Hm Hrun. destruct (Hm w) as (r' & ops & _ & H).
  rewrite (H w (frame_refl w)) in Hrun. inversion Hrun; subst.
  now exists ops.
Qed.

(** X4: the preamble never changes the wrapped function or the handshake
    function; it stores the kernel module exactly when the kernel operation
    is a FIRRTL module and the I/O types were emitted, whatever the
    simulator does afterwards; and for any other kernel operation it writes
    nothing: it reports on the operation and fails, or, when the kernel
    operation is null, stops at the assertion of the cast. *)
Theorem emitPreamble_stored_operations
    (eVT : MLIR.Type_ -> option string) (eW : Z -> option string)
    (kernelOp : option Operation) (w : Wrapper) :
  let w' := snd (emitPreamble eVT eW kernelOp w) in
  funcOp w' = funcOp w
  /\ hsOp w' = hsOp w
  /\ firrtlOp w'
     = match kernelOp with
       | Some (FModuleLikeOperation m) =>
           if ioTypesEmitted eVT w then Some m else firrtlOp w
       | _ => firrtlOp w
       end
  /\ match kernelOp with
     | Some (FModuleLikeOperation m) => True
     | Some k =>
         emitPreamble eVT eW kernelOp w
         = (Returned failure, addDiag w (notAFirrtlModule k))
     | None => emitPreamble eVT eW kernelOp w = (Crashed castOfNull, w)
     end.
Proof.
  destruct kernelOp as [[h|m|n]|]; try (repeat split; reflexivity).
  cbv zeta. rewrite emitPreamble_unfold. unfold ioTypesEmitted.
  assert (Hio : Blind sameFunc NoCtrl (emitIOTypes (emitVerilatorType eVT))).
  { apply Blind_emitIOTypes; try typeclasses eauto.
    intros os t. apply Blind_emitVerilatorType. typeclasses eauto. }
  destruct (emitIOTypes (emitVerilatorType eVT) w) as [r0 w1] eqn:E0.
  destruct (sameFunc_of_Blind _ _ _ _ _ Hio E0) as [io ->].
  cbn [fst].
  destruct r0 as [[|]|c]; try (repeat split; reflexivity).
  destruct (emitSimulator eVT eW _) as [r1 w2] eqn:E1.
  pose proof (Blind_keeps_ops Any _ _ _ _ (Blind_emitSimulator eVT eW) E1)
    as (Hf & Hh & Hfir).
  cbn [withFirrtl addOps funcOp hsOp firrtlOp] in Hf, Hh, Hfir.
  destruct r1 as [[|]|c]; cbn [snd addOps funcOp hsOp firrtlOp];
    repeat split; congruence.
Qed.

(** ** The address width, in every case *)

Lemma dataWidthOf_none_crash sig w :
  dataWidthOf sig = None ->
  bind (cast_BundleType (FIRRTL.type sig)) getBundleDataWidth w
  = (Crashed (malformedAddressSignal sig), w).
Proof.
  unfold dataWidthOf, malformedAddressSignal.
  destruct (FIRRTL.type sig) as [gw|elts]; [reflexivity|].
  unfold bind, cast_BundleType, getBundleDataWidth, ret; simpl.
  destruct (FIRRTL.getElement elts "data") as [d|]; [discriminate|].
  reflexivity.
Qed.

Lemma findAddrWidth_step sig rest a w :
  findAddrWidth (sig :: rest) a w
  = if isAddressSignal sig
    then match dataWidthOf sig with
         | Some x => findAddrWidth rest x w
         | None => (Crashed (malformedAddressSignal sig), w)
         end
    else findAddrWidth rest a w.
Proof.
  cbn [findAddrWidth]. fold (isAddressSignal sig).
  destruct (isAddressSignal sig); [|reflexivity].
  destruct (dataWidthOf sig) as [x|] eqn:Hx.
  - pose proof (dataWidthOf_run sig x w Hx) as Hrun.
    unfold bind in *.
    destruct (cast_BundleType (FIRRTL.type sig) w) as [[b|c] w1];
      [|discriminate].
    destruct (getBundleDataWidth b w1) as [[y|c] w2]; [|discriminate].
    now inversion Hrun.
  - pose proof (dataWidthOf_none_crash sig w Hx) as Hrun.
    unfold bind in *.
    destruct (cast_BundleType (FIRRTL.type sig) w) as [[b|c] w1];
      [|exact Hrun].
    destruct (getBundleDataWidth b w1) as [[y|c] w2]; [discriminate|].
    exact Hrun.
Qed.

Lemma findAddrWidth_returns sigs :
  forall a w r w',
    findAddrWidth sigs a w = (Returned r, w') ->
    addressSignalsWellFormed sigs /\ w' = w.
Proof.
  induction sigs as [|sig rest IH]; intros a w r w' Hrun.
  - inversion Hrun; subst. split; [intros s []|reflexivity].
  - rewrite findAddrWidth_step in Hrun.
    destruct (isAddressSignal sig) eqn:Haddr.
    + destruct (dataWidthOf sig) as [x|] eqn:Hx; [|discriminate].
      destruct (IH _ _ _ _ Hrun) as [Hwf ->]. split; [|reflexivity].
      intros s [<-|Hs] Hp; [now rewrite Hx|now apply Hwf].
    + destruct (IH _ _ _ _ Hrun) as [Hwf ->]. split; [|reflexivity].
      intros s [<-|Hs] Hp; [now rewrite Haddr in Hp|now apply Hwf].
Qed.

Lemma findAddrWidth_keeps_wrapper sigs :
  forall a w, snd (findAddrWidth sigs a w) = w.
Proof.
  induction sigs as [|sig rest IH]; intros a w; [reflexivity|].
  rewrite findAddrWidth_step.
  destruct (isAddressSignal sig); [|apply IH].
  destruct (dataWidthOf sig); [apply IH|reflexivity].
Qed.

Lemma findAddrWidth_malformed pre sig post :
  addressSignalsWellFormed pre ->
  isAddressSignal sig = true ->
  dataWidthOf sig = None ->
  forall a w,
    findAddrWidth (pre ++ sig :: post) a w
    = (Crashed (malformedAddressSignal sig), w).
Proof.
  intros Hwf Haddr Hnone. induction pre as [|s pre IH]; intros a w.
  - cbn [app]. now rewrite findAddrWidth_step, Haddr, Hnone.
  - cbn [app]. rewrite findAddrWidth_step.
    assert (Hpre : addressSignalsWellFormed pre).
    { intros x Hx. apply Hwf. now right. }
    destruct (isAddressSignal s) eqn:Hs; [|now apply IH].
    destruct (dataWidthOf s) eqn:Hd; [now apply IH|].
    exfalso. apply (Hwf s); auto. now left.
Qed.

(** X5: the resolution of the address width returns a width exactly when
    every address signal of the bundle is a bundle with a data element and
    the data width of the last one is positive; whatever its outcome, it
    leaves the wrapper as it was. *)
Theorem resolveAddrWidth_returns_iff
    (sigs : list FIRRTL.BundleElement) (aw : Z) (w w' : Wrapper) :
  (resolveAddrWidth sigs w = (Returned aw, w')
   <-> settlesAddressWidth sigs aw /\ w' = w)
  /\ snd (resolveAddrWidth sigs w) = w.
Proof.
  split; [split|].
  - intros Hrun. unfold resolveAddrWidth in Hrun.
    apply bind_success_inv in Hrun as (a & w1 & Hfind & Hrun).
    destruct (findAddrWidth_returns _ _ _ _ _ Hfind) as [Hwf ->].
    rewrite (findAddrWidth_last sigs Hwf) in Hfind.
    unfold bind, assert in Hrun.
    destruct (0 <? a)%Z eqn:Hpos; [|discriminate].
    inversion Hrun; subst aw w'. split; [|reflexivity].
    split; [exact Hwf|].
    inversion Hfind as [Ha]. clear Hfind.
    destruct (lastAddressSignal sigs) as [sig|] eqn:Hlast.
    + exists sig. split; [reflexivity|].
      destruct (dataWidthOf sig) as [x|] eqn:Hx.
      * subst a. split; [reflexivity|]. now apply Z.ltb_lt.
      * subst a. discriminate Hpos.
    + subst a. discriminate Hpos.
  - intros [Hset ->]. now apply resolveAddrWidth_settled.
  - unfold resolveAddrWidth, bind.
    pose proof (findAddrWidth_keeps_wrapper sigs 0%Z w) as Hkeep.
    destruct (findAddrWidth sigs 0%Z w) as [[a|c] w1]; cbn [snd] in *;
      [|exact Hkeep].
    unfold assert. now destruct (0 <? a)%Z.
Qed.

(** X6: the resolution stops at the first address signal that has no data
    width, whatever follows it in the bundle: at the cast when the signal is
    no bundle, at the assertion of [getBundleDataWidth] when the bundle has
    no data element. *)
Theorem resolveAddrWidth_first_malformed
    (pre post : list FIRRTL.BundleElement) (sig : FIRRTL.BundleElement)
    (w : Wrapper) :
  addressSignalsWellFormed pre ->
  isAddressSignal sig = true ->
  dataWidthOf sig = None ->
  resolveAddrWidth (pre ++ sig :: post) w
  = (Crashed (malformedAddressSignal sig), w).
Proof.
  intros Hwf Haddr Hnone. unfold resolveAddrWidth, bind.
  now rewrite (findAddrWidth_malformed pre sig post Hwf Haddr Hnone).
Qed.

Lemma resolveAddrWidth_first_malformed_witness :
  resolveAddrWidth
    ([addressChannel "ldAddr0" 4]
     ++ FIRRTL.mkElement "stAddr0" Scenario.control
     :: [addressChannel "ldAddr1" 4]) Cases.readyB
  = (Crashed (AssertionFailed "Expected bundle to have a data signal"),
     Cases.readyB).
Proof.
  apply (resolveAddrWidth_first_malformed
           [addressChannel "ldAddr0" 4] [addressChannel "ldAddr1" 4]
           (FIRRTL.mkElement "stAddr0" Scenario.control) Cases.readyB).
  - intros s [<-|[]] _. discriminate.
  - reflexivity.
  - reflexivity.
Defined.

(** X7: the assertion on the address width rejects the width zero only.  A
    last address signal of width zero stops the run as if the bundle had no
    address signal; a negative width, as the sentinel of a width that is not
    inferred, wraps around in the conversion to unsigned and is accepted as
    the width plus 2^32. *)
Theorem resolveAddrWidth_zero_and_negative_widths
    (sigs : list FIRRTL.BundleElement) (n : string) (s : Z) (w : Wrapper) :
  addressSignalsWellFormed sigs ->
  lastAddressSignal sigs = Some (addressChannel n s) ->
  (s = 0%Z -> resolveAddrWidth sigs w = (Crashed noAddressSignal, w))
  /\ ((- 2 ^ 32 < s < 0)%Z ->
      resolveAddrWidth sigs w = (Returned (s + 2 ^ 32)%Z, w)).
Proof.
  intros Hwf Hlast.
  assert (Hw : dataWidthOf (addressChannel n s) = Some (to_unsigned s))
    by reflexivity.
  unfold resolveAddrWidth.
  rewrite (bind_returned _ _ _ _ _ (findAddrWidth_last sigs Hwf 0%Z w)).
  rewrite Hlast, Hw. unfold bind, assert, to_unsigned. split.
  - intros ->. reflexivity.
  - intros Hs.
    assert (Hmod : (s mod 2 ^ 32 = s + 2 ^ 32)%Z).
    { symmetry. apply Z.mod_unique with (q := (-1)%Z); lia. }
    rewrite Hmod.
    assert (Hpos : (0 <? s + 2 ^ 32)%Z = true) by (apply Z.ltb_lt; lia).
    now rewrite Hpos.
Qed.

Lemma resolveAddrWidth_zero_and_negative_widths_witness :
  resolveAddrWidth [addressChannel "ldAddr0" (-1)] Cases.readyB
  = (Returned 4294967295%Z, Cases.readyB).
Proof.
  apply (proj2 (resolveAddrWidth_zero_and_negative_widths
                  [addressChannel "ldAddr0" (-1)] "ldAddr0" (-1)%Z
                  Cases.readyB
                  ltac:(intros s [<-|[]] _; discriminate) eq_refl)).
  lia.
Defined.

(** ** The expansion of a memory argument, check by check *)

Lemma emitExtMemPort_cases eVT eW shape elt idx w :
  emitExtMemPort eVT eW shape elt idx w
  = expansionOutcome eVT eW shape elt idx w.
Proof.
  unfold expansionOutcome.
  destruct shape as [|size [|s2 rest]];
    [reflexivity| |reflexivity].
  destruct (firrtlOp w) as [m|] eqn:Hfir.
  2:{ unfold emitExtMemPort. cbn [length Nat.eqb].
      repeat (progress (run_monad; rewrite ?Hfir)). reflexivity. }
  destruct (nth_error (FIRRTL.ports m) idx) as [[name [gw|sigs]]|] eqn:Hport.
  1,3: unfold emitExtMemPort; cbn [length Nat.eqb];
       repeat (progress (run_monad; rewrite ?Hfir, ?Hport)); reflexivity.
  pose proof (proj2 (resolveAddrWidth_returns_iff sigs 0%Z w w)) as Hkeep.
  destruct (resolveAddrWidth sigs w) as [[aw|c] w1] eqn:Hres;
    cbn [fst snd] in *; subst w1.
  2:{ unfold emitExtMemPort. cbn [length Nat.eqb].
      repeat (progress (run_monad; rewrite ?Hfir, ?Hport, ?Hres)).
      reflexivity. }
  destruct (hsOp w) as [h|] eqn:Hhs.
  2:{ unfold emitExtMemPort, declarationHead, osi. cbn [length Nat.eqb].
      repeat (progress (run_monad; rewrite ?Hfir, ?Hport, ?Hres, ?Hhs)).
      reflexivity. }
  destruct (eVT elt) as [elemTok|] eqn:HeVT.
  2:{ unfold emitExtMemPort, declarationHead, osi. cbn [length Nat.eqb].
      repeat (progress (run_monad;
                        rewrite ?Hfir, ?Hport, ?Hres, ?Hhs, ?HeVT)).
      reflexivity. }
  destruct (eW aw) as [addrTok|] eqn:HeW.
  2:{ unfold emitExtMemPort. cbn [length Nat.eqb].
      repeat (progress (run_monad;
                        rewrite ?Hfir, ?Hport, ?Hres, ?Hhs, ?HeVT, ?HeW)).
      f_equal. same_state. }
  assert (Hset : settlesAddressWidth sigs aw).
  { now apply (proj1 (proj1 (resolveAddrWidth_returns_iff sigs aw w w))). }
  rewrite (emitExtMemPort_declares eVT eW name elemTok addrTok elt aw h
             HeVT HeW size idx w m sigs Hfir Hport Hset Hhs).
  cbv zeta.
  destruct (nth_error (Handshake.argumentUsers h) idx)
    as [[|[ld st|opName] [|u2 users]]|] eqn:Husers; try reflexivity.
  rewrite <- (emitExtMemPort_expands eVT eW name elemTok addrTok elt aw h
                size idx w m sigs ld st HeVT HeW Hfir Hport Hset Hhs Husers).
  rewrite (emitExtMemPort_declares eVT eW name elemTok addrTok elt aw h
             HeVT HeW size idx w m sigs Hfir Hport Hset Hhs).
  now rewrite Husers.
Qed.

(** X8: the expansion of a memory argument succeeds exactly when the memory
    has one dimension, the module is set and its port at the argument's
    index is a bundle that settles an address width, the handshake function
    is set, both types are emitted, and the argument's only user is an
    external-memory operation; the wrapper then holds the declaration and
    the registrations, and nothing else changed. *)
Theorem emitExtMemPort_success_iff
    (eVT : MLIR.Type_ -> option string) (eW : Z -> option string)
    (shape : list Z) (elt : MLIR.Type_) (idx : nat) (w w' : Wrapper) :
  emitExtMemPort eVT eW shape elt idx w = (Returned success, w')
  <-> exists size m name sigs aw elemTok addrTok h ld st,
        shape = [size]
        /\ firrtlOp w = Some m
        /\ nth_error (FIRRTL.ports m) idx
           = Some (name, FIRRTL.BundleType sigs)
        /\ settlesAddressWidth sigs aw
        /\ hsOp w = Some h
        /\ eVT elt = Some elemTok
        /\ eW aw = Some addrTok
        /\ nth_error (Handshake.argumentUsers h) idx
           = Some [Handshake.ExternalMemoryOp ld st]
        /\ w' = addOps w (memoryExpansion name elemTok addrTok size ld st).
Proof.
  split.
  - rewrite emitExtMemPort_cases. unfold expansionOutcome.
    destruct shape as [|size [|s2 rest]]; try discriminate.
    destruct (firrtlOp w) as [m|] eqn:Hfir; [|discriminate].
    destruct (nth_error (FIRRTL.ports m) idx) as [[name [gw|sigs]]|] eqn:Hport;
      try discriminate.
    destruct (resolveAddrWidth sigs w) as [[aw|c] w1] eqn:Hres;
      cbn [fst]; [|discriminate].
    destruct (hsOp w) as [h|] eqn:Hhs; [|discriminate].
    destruct (eVT elt) as [elemTok|] eqn:HeVT; [|discriminate].
    destruct (eW aw) as [addrTok|] eqn:HeW; [|discriminate].
    cbv zeta.
    destruct (nth_error (Handshake.argumentUsers h) idx)
      as [[|[ld st|opName] [|u2 users]]|] eqn:Husers; try discriminate.
    intros [= <-].
    destruct (proj1 (proj1 (resolveAddrWidth_returns_iff sigs aw w w1)) Hres)
      as [Hset _].
    exists size, m, name, sigs, aw, elemTok, addrTok, h, ld, st.
    repeat (split; [first [reflexivity | assumption]|]). reflexivity.
  - intros (size & m & name & sigs & aw & elemTok & addrTok & h & ld & st
            & -> & Hfir & Hport & Hset & Hhs & HeVT & HeW & Husers & ->).
    now apply emitExtMemPort_expands with (aw := aw) (h := h) (m := m)
                                          (sigs := sigs).
Qed.

Lemma added_ops w ops :
  skipn (length (stream w)) (stream (addOps w ops)) = ops.
Proof.
  cbn [addOps stream]. now rewrite skipn_app, Nat.sub_diag, skipn_all.
Qed.

Lemma added_none w : skipn (length (stream w)) (stream w) = [].
Proof. apply skipn_all. Qed.

Lemma netIndent_app a b : netIndent (a ++ b) = (netIndent a + netIndent b)%Z.
Proof.
  induction a as [|[t x| |] a IH]; cbn [app netIndent]; rewrite ?IH; lia.
Qed.

Lemma netIndent_flat_map (reg : nat -> list StreamOp) l :
  (forall i, netIndent (reg i) = 0%Z) -> netIndent (flat_map reg l) = 0%Z.
Proof.
  intros Hreg. induction l as [|i l IH]; [reflexivity|].
  cbn [flat_map]. rewrite netIndent_app, Hreg, IH. reflexivity.
Qed.

Lemma netIndent_memoryExpansion name elemTok addrTok size ld st :
  netIndent (memoryExpansion name elemTok addrTok size ld st) = 0%Z.
Proof.
  unfold memoryExpansion. rewrite !netIndent_app.
  rewrite !netIndent_flat_map by (intros i; reflexivity). reflexivity.
Qed.

Lemma emitExtMemPort_keeps_indent eVT eW shape elt idx w :
  netIndent (appended (emitExtMemPort eVT eW shape elt idx) w) = 0%Z.
Proof.
  unfold appended. rewrite emitExtMemPort_cases. unfold expansionOutcome.
  destruct shape as [|size [|s2 rest]];
    try (cbn [snd]; now rewrite added_none).
  destruct (firrtlOp w) as [m|]; [|cbn [snd]; now rewrite added_none].
  destruct (nth_error (FIRRTL.ports m) idx) as [[name [gw|sigs]]|];
    try (cbn [snd]; now rewrite added_none).
  destruct (fst (resolveAddrWidth sigs w)) as [aw|c];
    [|cbn [snd]; now rewrite added_none].
  destruct (hsOp w) as [h|]; [|cbn [snd]; now rewrite added_ops].
  destruct (eVT elt) as [elemTok|]; [|cbn [snd]; now rewrite added_ops].
  destruct (eW aw) as [addrTok|]; [|cbn [snd]; now rewrite added_ops].
  cbv zeta.
  destruct (nth_error (Handshake.argumentUsers h) idx)
    as [[|[ld st|opName] [|u2 users]]|];
    cbn [snd]; rewrite added_ops;
    first [reflexivity | apply netIndent_memoryExpansion].
Qed.

(** X9: the expansion of a memory argument returns failure exactly when it
    reaches the declaration and the element type or the address type is not
    emitted: the checks inside the load and store loops never fail, so a
    failure leaves no registration behind; and whatever the outcome, what
    the expansion wrote leaves the indentation where it was. *)
Theorem emitExtMemPort_failure_and_indentation
    (eVT : MLIR.Type_ -> option string) (eW : Z -> option string)
    (shape : list Z) (elt : MLIR.Type_) (idx : nat) (w : Wrapper) :
  let expansion := emitExtMemPort eVT eW shape elt idx in
  netIndent (appended expansion w) = 0%Z
  /\ (fst (expansion w) = Returned failure
      <-> exists size m name sigs aw h,
            shape = [size]
            /\ firrtlOp w = Some m
            /\ nth_error (FIRRTL.ports m) idx
               = Some (name, FIRRTL.BundleType sigs)
            /\ settlesAddressWidth sigs aw
            /\ hsOp w = Some h
            /\ (eVT elt = None \/ eW aw = None))
  /\ (fst (expansion w) = Returned failure ->
      countLit addLoadPortLit (appended expansion w) = 0
      /\ countLit addStorePortLit (appended expansion w) = 0).
Proof.
  cbv zeta. split; [|split; [split|]].
  - apply emitExtMemPort_keeps_indent.
  - rewrite emitExtMemPort_cases. unfold expansionOutcome.
    destruct shape as [|size [|s2 rest]]; try discriminate.
    destruct (firrtlOp w) as [m|] eqn:Hfir; [|discriminate].
    destruct (nth_error (FIRRTL.ports m) idx) as [[name [gw|sigs]]|] eqn:Hport;
      try discriminate.
    destruct (resolveAddrWidth sigs w) as [[aw|c] w1] eqn:Hres;
      cbn [fst]; [|discriminate].
    destruct (proj1 (proj1 (resolveAddrWidth_returns_iff sigs aw w w1)) Hres)
      as [Hset _].
    destruct (hsOp w) as [h|] eqn:Hhs; [|discriminate].
    destruct (eVT elt) as [elemTok|] eqn:HeVT.
    2:{ intros _. exists size, m, name, sigs, aw, h.
        repeat (split; [first [reflexivity | assumption]|]). now left. }
    destruct (eW aw) as [addrTok|] eqn:HeW.
    2:{ intros _. exists size, m, name, sigs, aw, h.
        repeat (split; [first [reflexivity | assumption]|]). now right. }
    cbv zeta.
    destruct (nth_error (Handshake.argumentUsers h) idx)
      as [[|[ld st|opName] [|u2 users]]|]; discriminate.
  - intros (size & m & name & sigs & aw & h
            & -> & Hfir & Hport & Hset & Hhs & Hnone).
    rewrite emitExtMemPort_cases. unfold expansionOutcome.
    rewrite Hfir, Hport, (resolveAddrWidth_settled sigs aw w Hset), Hhs.
    cbn [fst].
    destruct (eVT elt) as [elemTok|] eqn:HeVT; [|reflexivity].
    destruct Hnone as [|HeW]; [discriminate|]. now rewrite HeW.
  - unfold appended. rewrite emitExtMemPort_cases. unfold expansionOutcome.
    destruct shape as [|size [|s2 rest]]; try discriminate.
    destruct (firrtlOp w) as [m|]; [|discriminate].
    destruct (nth_error (FIRRTL.ports m) idx) as [[name [gw|sigs]]|];
      try discriminate.
    destruct (fst (resolveAddrWidth sigs w)) as [aw|c]; [|discriminate].
    destruct (hsOp w) as [h|]; [|discriminate].
    destruct (eVT elt) as [elemTok|];
      [|intros _; cbn [snd]; rewrite added_ops; split; reflexivity].
    destruct (eW aw) as [addrTok|];
      [|intros _; cbn [snd]; rewrite added_ops; split; reflexivity].
    cbv zeta.
    destruct (nth_error (Handshake.argumentUsers h) idx)
      as [[|[ld st|opName] [|u2 users]]|]; discriminate.
Qed.

Lemma emitExtMemPort_failure_and_indentation_witness :
  fst (emitExtMemPort Verilator.typeToken Verilator.typeFromWidth
         [8%Z] (IntegerType 32) 0 Cases.readyWide) = Returned failure
  /\ countLit addLoadPortLit
       (appended (emitExtMemPort Verilator.typeToken Verilator.typeFromWidth
                    [8%Z] (IntegerType 32) 0) Cases.readyWide) = 0.
Proof.
  destruct (emitExtMemPort_failure_and_indentation
              Verilator.typeToken Verilator.typeFromWidth
              [8%Z] (IntegerType 32) 0 Cases.readyWide)
    as (_ & Hiff & Hcount).
  assert (Hfail : fst (emitExtMemPort Verilator.typeToken
                         Verilator.typeFromWidth
                         [8%Z] (IntegerType 32) 0 Cases.readyWide)
                  = Returned failure).
  { apply Hiff.
    exists 8%Z, Cases.moduleWide, "in0"%string,
      [FIRRTL.mkElement "ldAddr0" (Scenario.channel 65);
       FIRRTL.mkElement "ldData0" (Scenario.channel 32);
       FIRRTL.mkElement "ldDone0" Scenario.control],
      65%Z, Scenario.hsB.
    repeat (split; [reflexivity|]). split; [|split; [reflexivity|now right]].
    split.
    - intros sig [<-|[<-|[<-|[]]]] Haddr;
        first [discriminate Haddr | vm_compute; discriminate].
    - exists (FIRRTL.mkElement "ldAddr0" (Scenario.channel 65)).
      repeat split; reflexivity. }
  split; [exact Hfail|exact (proj1 (Hcount Hfail))].
Defined.

(** ** Indentation and the ports of the module *)

#[export] Instance Closed_KeepsIndent : Closed KeepsIndent.
Proof.
  split; [reflexivity|].
  unfold KeepsIndent. intros a b Ha Hb. rewrite netIndent_app. lia.
Qed.

Lemma Blind_strengthen {A} (R : Wrapper -> Wrapper -> Prop) `{!Frame R}
    (P Q : list StreamOp -> Prop) (m : M A) :
  Blind R P m -> (forall w, Q (appended m w)) -> Blind R Q m.
Proof.
  intros Hm HQ w. destruct (Hm w) as (r & ops & _ & Hrun).
  exists r, ops. split; [|exact Hrun].
  rewrite <- (appended_addOps m w r ops (Hrun w (frame_refl w))). apply HQ.
Qed.

Section Indentation.

Variable eVT : MLIR.Type_ -> option string.
Variable eW : Z -> option string.

Lemma emitInputPort_keeps_indent t idx w :
  KeepsIndent (appended (emitInputPort eVT eW t idx) w).
Proof.
  unfold KeepsIndent.
  destruct (dyn_cast_MemRefType t) as [[shape elt]|] eqn:Hcast.
  - unfold emitInputPort. rewrite Hcast. apply emitExtMemPort_keeps_indent.
  - destruct (firrtlOp w) as [m|] eqn:Hfir.
    + destruct (nth_error (FIRRTL.ports m) idx) as [[name ty]|] eqn:Hport.
      * rewrite (appended_addOps _ _ _ _
                   (emitInputPort_scalar eVT eW t idx w m name ty
                      Hcast Hfir Hport)).
        reflexivity.
      * unfold appended, emitInputPort. rewrite Hcast.
        repeat (progress (run_monad; rewrite ?Hfir, ?Hport)).
        cbn [snd]. now rewrite added_none.
    + unfold appended, emitInputPort. rewrite Hcast.
      repeat (progress (run_monad; rewrite ?Hfir)).
      cbn [snd]. now rewrite added_none.
Qed.

Lemma emitOutputPort_keeps_indent t idx w :
  KeepsIndent (appended (emitOutputPort t idx) w).
Proof.
  unfold KeepsIndent.
  destruct (firrtlOp w) as [m|] eqn:Hfir.
  - destruct (nth_error (FIRRTL.ports m)
                (idx + getNumArguments (funcOp w) + 1))
      as [[name ty]|] eqn:Hport.
    + rewrite (appended_addOps _ _ _ _
                 (emitOutputPort_run t idx w m name ty Hfir Hport)).
      reflexivity.
    + unfold appended, emitOutputPort.
      repeat (progress (run_monad; rewrite ?Hfir, ?Hport)).
      cbn [snd]. now rewrite added_none.
  - unfold appended, emitOutputPort.
    repeat (progress (run_monad; rewrite ?Hfir)).
    cbn [snd]. now rewrite added_none.
Qed.

Lemma emitSimulator_lookup_crash w c :
  controlLookup w = Some c ->
  emitSimulator eVT eW w
  = (Crashed c, addOps w (simulatorPrologue (getName (funcOp w)))).
Proof.
  unfold controlLookup.
  destruct (firrtlOp w) as [m|] eqn:Hfir.
  - destruct (nth_error (FIRRTL.ports m) (getNumArguments (funcOp w)))
      as [pin|] eqn:Hin.
    + destruct (nth_error (FIRRTL.ports m)
                  (getNumResults (funcOp w) + getNumArguments (funcOp w) + 1))
        as [pout|] eqn:Hout; [discriminate|].
      intros [= <-]. unfold emitSimulator.
      repeat (progress (run_monad; rewrite ?Hfir, ?Hin, ?Hout)).
      f_equal. same_state.
    + intros [= <-]. unfold emitSimulator.
      repeat (progress (run_monad; rewrite ?Hfir, ?Hin)).
      f_equal. same_state.
  - intros [= <-]. unfold emitSimulator.
    repeat (progress (run_monad; rewrite ?Hfir)).
    f_equal. same_state.
Qed.

Lemma controlLookup_found w :
  controlLookup w = None ->
  exists m inName tyI outName tyO,
    firrtlOp w = Some m
    /\ nth_error (FIRRTL.ports m) (getNumArguments (funcOp w))
       = Some (inName, tyI)
    /\ nth_error (FIRRTL.ports m)
         (getNumResults (funcOp w) + getNumArguments (funcOp w) + 1)
       = Some (outName, tyO).
Proof.
  unfold controlLookup.
  destruct (firrtlOp w) as [m|]; [|discriminate].
  destruct (nth_error (FIRRTL.ports m) (getNumArguments (funcOp w)))
    as [[inName tyI]|] eqn:Hin; [|discriminate].
  destruct (nth_error (FIRRTL.ports m)
              (getNumResults (funcOp w) + getNumArguments (funcOp w) + 1))
    as [[outName tyO]|] eqn:Hout; [|discriminate].
  intros _. now exists m, inName, tyI, outName, tyO.
Qed.

Lemma emitSoftwareInterface_indent w :
  netIndent (appended (emitSoftwareInterface eVT eW) w)
  = match fst (emitSoftwareInterface eVT eW w) with
    | Returned success => (-2)%Z
    | _ => 0%Z
    end.
Proof.
  destruct (emitSoftwareInterface_run eVT eW w) as [Hfst Happ].
  rewrite Hfst, Happ. clear Hfst Happ.
  assert (Hins : KeepsIndent
                   (appended (forEnumerate (emitInputPort eVT eW) 0
                                (getInputs (funcOp w))) w)).
  { apply (Blind_run (R := sameOps) (P := KeepsIndent) _ w w);
      [|apply frame_refl].
    apply Blind_forEnumerate. intros x i.
    apply (Blind_strengthen sameOps NoCtrl);
      [apply Blind_emitInputPort|intros; apply emitInputPort_keeps_indent]. }
  assert (Houts : KeepsIndent
                    (appended (forEnumerate emitOutputPort 0
                                 (getResults (funcOp w))) w)).
  { apply (Blind_run (R := sameOps) (P := KeepsIndent) _ w w);
      [|apply frame_refl].
    apply Blind_forEnumerate. intros x i.
    apply (Blind_strengthen sameOps NoCtrl);
      [apply Blind_emitOutputPort|intros; apply emitOutputPort_keeps_indent]. }
  unfold KeepsIndent in Hins, Houts.
  destruct (fst (forEnumerate (emitInputPort eVT eW) 0
                   (getInputs (funcOp w)) w)) as [[|]|c];
    rewrite ?netIndent_app, ?Hins; try reflexivity.
  destruct (fst (forEnumerate emitOutputPort 0 (getResults (funcOp w)) w))
    as [[|]|c];
    rewrite ?netIndent_app, ?Hins, ?Houts; reflexivity.
Qed.

End Indentation.

(** X10: the simulator leaves the indentation of the output where it was
    exactly when it succeeds; when it does not succeed, in whatever way, it
    leaves the output two levels deeper, the class and the constructor never
    being closed. *)
Theorem emitSimulator_indentation
    (eVT : MLIR.Type_ -> option string) (eW : Z -> option string)
    (w : Wrapper) :
  netIndent (appended (emitSimulator eVT eW) w)
  = match fst (emitSimulator eVT eW w) with
    | Returned success => 0%Z
    | _ => 2%Z
    end.
Proof.
  destruct (controlLookup w) as [c|] eqn:Hlook.
  - pose proof (emitSimulator_lookup_crash eVT eW w c Hlook) as Hrun.
    rewrite (appended_addOps _ _ _ _ Hrun), Hrun. reflexivity.
  - destruct (controlLookup_found w Hlook)
      as (m & inName & tyI & outName & tyO & Hfir & Hin & Hout).
    pose proof (emitSimulator_layout eVT eW w m inName tyI outName tyO
                  Hfir Hin Hout) as Hrun.
    rewrite (appended_addOps _ _ _ _ Hrun), Hrun. cbn [fst].
    rewrite !netIndent_app, (emitSoftwareInterface_indent eVT eW w).
    destruct (fst (emitSoftwareInterface eVT eW w)) as [[|]|c]; reflexivity.
Qed.

(** X11: the simulator needs argumentCount + resultCount + 2 ports and no
    more.  On a module with fewer ports it stops at the lookup of a control
    port, out of range, having written only the class and constructor heads
    and the clock and reset wiring;
    on a module with at least that many ports, whatever follows them, it
    succeeds when no argument is a memory. *)
Theorem emitSimulator_port_bounds
    (eVT : MLIR.Type_ -> option string) (eW : Z -> option string)
    (w : Wrapper) (m : FIRRTL.FModuleLike) :
  firrtlOp w = Some m ->
  let needed := getNumArguments (funcOp w) + getNumResults (funcOp w) + 2 in
  (length (FIRRTL.ports m) < needed ->
   emitSimulator eVT eW w
   = (Crashed IndexOutOfRange,
      addOps w (simulatorPrologue (getName (funcOp w)))))
  /\ (needed <= length (FIRRTL.ports m) ->
      scalarArguments (funcOp w) ->
      fst (emitSimulator eVT eW w) = Returned success).
Proof.
  intros Hfir needed. subst needed. split.
  - intros Hshort. apply emitSimulator_lookup_crash.
    unfold controlLookup. rewrite Hfir.
    assert (Hout : nth_error (FIRRTL.ports m)
                     (getNumResults (funcOp w) + getNumArguments (funcOp w) + 1)
                   = None) by (apply nth_error_None; lia).
    rewrite Hout.
    now destruct (nth_error (FIRRTL.ports m) (getNumArguments (funcOp w))).
  - intros Hlong Hscalar.
    destruct (nth_error_in_range (FIRRTL.ports m) (getNumArguments (funcOp w)))
      as [[inName tyI] Hin]; [lia|].
    destruct (nth_error_in_range (FIRRTL.ports m)
                (getNumResults (funcOp w) + getNumArguments (funcOp w) + 1))
      as [[outName tyO] Hout]; [lia|].
    rewrite (emitSimulator_layout eVT eW w m inName tyI outName tyO
               Hfir Hin Hout). cbn [fst].
    destruct (RunsOk_emitSoftwareInterface eVT eW (funcOp w) m Hscalar)
      with (w := w) as [ops Hok].
    + lia.
    + now split.
    + now rewrite Hok.
Qed.

Lemma emitSimulator_port_bounds_witness :
  emitSimulator Verilator.typeToken Verilator.typeFromWidth Cases.readyShort
  = (Crashed IndexOutOfRange, addOps Cases.readyShort (simulatorPrologue "top"))
  /\ fst (emitSimulator Verilator.typeToken Verilator.typeFromWidth
            (Cases.ready Scenario.funcA Scenario.hsA
               (FIRRTL.mkFModuleLike
                  (FIRRTL.ports Scenario.moduleA
                   ++ [("clock"%string, FIRRTL.GroundType 1);
                       ("reset"%string, FIRRTL.GroundType 1)]))))
     = Returned success.
Proof.
  split.
  - apply (proj1 (emitSimulator_port_bounds
                    Verilator.typeToken Verilator.typeFromWidth
                    Cases.readyShort Cases.moduleShort eq_refl)).
    vm_compute. lia.
  - apply (proj2 (emitSimulator_port_bounds
                    Verilator.typeToken Verilator.typeFromWidth
                    (Cases.ready Scenario.funcA Scenario.hsA
                       (FIRRTL.mkFModuleLike
                          (FIRRTL.ports Scenario.moduleA
                           ++ [("clock"%string, FIRRTL.GroundType 1);
                               ("reset"%string, FIRRTL.GroundType 1)])))
                    _ eq_refl)).
    + vm_compute. lia.
    + intros t [<-|[]]. reflexivity.
Defined.

(** ** The two streams *)





(** ** The driver *)

(* Project the fields of the states and put the appended lists in one
   shape. *)
Ltac drun :=
  cbn [fst snd WrapGen.env WrapGen.modules WrapGen.errs WrapGen.reads
       WrapGen.wrapped];
  rewrite <- ?app_assoc; cbn [app].

Section DriverFacts.

Import WrapGen.

Variable Env : Type.
Variable Buffer : Type.
Variable getFileOrSTDIN : string -> Env -> (string + Buffer) * Env.
Variable fs_exists : string -> Env -> bool.
Variable parseSourceFile : Buffer -> option ModuleOp.
Variable wrap : WrapCall -> Env -> Outcome LogicalResult * Env.

Local Abbreviation getOpToWrap :=
  (WrapGen.getOpToWrap Env Buffer getFileOrSTDIN parseSourceFile).
Local Abbreviation getOpToWrapErroring :=
  (WrapGen.getOpToWrapErroring Env Buffer getFileOrSTDIN parseSourceFile).
Local Abbreviation main :=
  (WrapGen.main Env Buffer getFileOrSTDIN fs_exists parseSourceFile wrap).

Lemma walkSymbolTables_run (tables : list SymbolTable) symbol
    (targetOp : option SymbolOp) (w : World Env) :
  walkSymbolTables tables symbol targetOp w
  = (match (match targetOp with Some op => [op] | None => [] end)
           ++ definitions (mkModuleOp tables) symbol with
     | [] => Returned None
     | [op] => Returned (Some op)
     | _ :: _ :: _ => Crashed definedTwice
     end, w).
Proof.
  revert targetOp. unfold definitions. cbn [symbolTables].
  induction tables as [|t rest IH]; intros targetOp.
  - cbn. now destruct targetOp.
  - cbn [walkSymbolTables flat_map].
    destruct (lookupSymbolIn t symbol) as [op|].
    + destruct targetOp as [op0|].
      * reflexivity.
      * unfold dbind, dassert. rewrite IH. reflexivity.
    + rewrite IH. reflexivity.
Qed.

Lemma getOpToWrap_ends fn symbol w :
  LookupEnd fn symbol w (getOpToWrap fn symbol w).
Proof.
  unfold WrapGen.getOpToWrap, getModule, dbind, read_file, errs_put, dret,
    modules_emplace_back, modules_back.
  destruct (getFileOrSTDIN fn (env w)) as [[msg1|b1] e1]; drun.
  - apply (LookupUnreadable fn symbol w e1 [_] 1); [discriminate|lia].
  - destruct (getFileOrSTDIN fn e1) as [[msg2|b2] e2]; drun.
    + apply (LookupUnreadable fn symbol w e2 [_; _] 2); [discriminate|lia].
    + rewrite last_last.
      destruct (parseSourceFile b2) as [m|] eqn:Hparse; drun.
      * rewrite walkSymbolTables_run. cbn [app].
        replace (mkModuleOp (symbolTables m)) with m by now destruct m.
        destruct (definitions m symbol) as [|op [|op2 rest]] eqn:Hdefs; drun.
        -- apply (LookupNone fn symbol w e2 (Some m) [_]);
             [discriminate|exact Hdefs].
        -- now apply LookupOne.
        -- apply LookupTwice. rewrite Hdefs. cbn [length]. lia.
      * apply (LookupNone fn symbol w e2 None [_; _]);
          [discriminate|exact I].
Qed.

Lemma getOpToWrapErroring_ends fileName symbolName w :
  (fileName = EmptyString
   /\ getOpToWrapErroring fileName symbolName w = (Returned None, w))
  \/ (fileName <> EmptyString
      /\ LookupEnd fileName symbolName w
           (getOpToWrapErroring fileName symbolName w)).
Proof.
  unfold WrapGen.getOpToWrapErroring.
  destruct (String.eqb_spec fileName EmptyString) as [Hempty|Hname].
  - left. now split.
  - right. split; [exact Hname|].
    unfold dbind.
    destruct (getOpToWrap_ends fileName symbolName w)
      as [e msgs n Hmsgs Hn|e mod_ msgs Hmsgs Hdefs|e m op Hdefs|e m Hdefs];
      unfold errs_put, dret; drun.
    + apply LookupUnreadable; [|exact Hn]. now destruct msgs.
    + apply LookupNone; [|exact Hdefs]. now destruct msgs.
    + now apply LookupOne.
    + now apply LookupTwice.
Qed.

Lemma app_same_nil {A} (l m : list A) : l ++ m = l -> m = [].
Proof.
  intros H. apply (app_inv_head l). now rewrite app_nil_r.
Qed.

(** X13: a lookup parses what the second read of the file gives, and its
    result is settled by the symbol tables that define the symbol: none, the
    lookup returns null and says so; one, it returns that definition and says
    nothing; two or more, it stops at the assertion of the walk.  In all three
    cases the module has been added to the loaded modules. *)
Theorem getOpToWrap_unique_definition (fn symbol : string) (w : World Env)
    (b1 b2 : Buffer) (e1 e2 : Env) (m : ModuleOp) :
  getFileOrSTDIN fn (env w) = (inr b1, e1) ->
  getFileOrSTDIN fn e1 = (inr b2, e2) ->
  parseSourceFile b2 = Some m ->
  let loaded msgs :=
    mkWorld e2 (modules w ++ [Some m]) (errs w ++ msgs) (reads w ++ [fn; fn])
      (wrapped w) in
  getOpToWrap fn symbol w
  = match definitions m symbol with
    | [] => (Returned None, loaded [noDefinitionMessage fn symbol])
    | [op] => (Returned (Some op), loaded [])
    | _ :: _ :: _ => (Crashed definedTwice, loaded [])
    end.
Proof.
  intros Hread1 Hread2 Hparse loaded. subst loaded.
  unfold WrapGen.getOpToWrap, getModule, dbind, read_file, errs_put, dret,
    modules_emplace_back, modules_back.
  rewrite Hread1. drun. rewrite Hread2. drun.
  rewrite last_last, Hparse, walkSymbolTables_run. cbn [app].
  replace (mkModuleOp (symbolTables m)) with m by now destruct m.
  destruct (definitions m symbol) as [|op [|op2 rest]]; drun;
    rewrite ?app_nil_r; reflexivity.
Qed.

(** X14: a lookup through [getOpToWrapErroring] fails without a word, and
    without reading anything, exactly when the file name is empty; any other
    null result has been reported on the error stream, and a result that is
    not null comes with no message, from the one definition of the symbol in
    the module loaded last. *)
Theorem getOpToWrapErroring_reports (fileName symbolName : string)
    (w : World Env) :
  let run := getOpToWrapErroring fileName symbolName w in
  (run = (Returned None, w) <-> fileName = EmptyString)
  /\ (fst run = Returned None -> fileName <> EmptyString ->
      exists msg msgs, errs (snd run) = errs w ++ msg :: msgs)
  /\ (forall op, fst run = Returned (Some op) ->
      errs (snd run) = errs w
      /\ exists m, modules (snd run) = modules w ++ [Some m]
                   /\ definitions m symbolName = [op]).
Proof.
  intros run. subst run.
  destruct (getOpToWrapErroring_ends fileName symbolName w)
    as [[Hempty Hrun]|[Hname Hend]].
  - rewrite Hrun. cbn [fst snd]. split; [tauto|]. split.
    + intros _ Hne. now elim Hne.
    + intros op Hop. discriminate Hop.
  - remember (getOpToWrapErroring fileName symbolName w) as run eqn:Hrun.
    clear Hrun. split; [|split].
    + split; [|intros Hempty; now elim Hname].
      intros Hsame. exfalso.
      destruct Hend as [e msgs n _ Hn| | |]; try discriminate Hsame;
        apply (f_equal snd) in Hsame; apply (f_equal reads) in Hsame;
        cbn [snd reads] in Hsame; apply app_same_nil in Hsame;
        [|discriminate Hsame].
      destruct n; [lia|discriminate Hsame].
    + intros Hnone _. destruct Hend as [e msgs n Hmsgs _|e mod_ msgs Hmsgs _| |];
        try discriminate Hnone; drun;
        (destruct msgs as [|msg msgs]; [now elim Hmsgs|now exists msg, msgs]).
    + intros op Hop. destruct Hend as [| |e m op' Hdefs|];
        try discriminate Hop. drun. injection Hop as ->.
      split; [reflexivity|]. now exists m.
Qed.

(* One lookup of [main]: the five ways it can end. *)
Ltac lookup_ends file symbol w :=
  let run := fresh "run" in
  let Hrun := fresh "Hrun" in
  let Hends := fresh "Hends" in
  destruct (getOpToWrapErroring_ends file symbol w) as [[? Hrun]|[? Hends]];
  [rewrite Hrun
  |remember (WrapGen.getOpToWrapErroring Env Buffer getFileOrSTDIN
               parseSourceFile file symbol w) as run eqn:Hrun;
   clear Hrun;
   destruct Hends as [? ? ? ? ?|? ? ? ? ?|? ? ? ?|? ? ?]];
  drun.

(* All the ways [main] can end. *)
Ltac main_ends opts w :=
  unfold WrapGen.main, wrapWith, dbind, path_exists, errs_put, dret,
    call_wrap;
  destruct (fs_exists (outputDirectory opts) (env w)) eqn:Hdir;
  cbn [negb]; drun;
  [lookup_ends (inputFunctionFilename opts) (functionName opts) w;
   try match goal with
       | |- context [dyn_cast_FuncOp ?op] =>
           destruct op as [funcOp|other]; cbn [dyn_cast_FuncOp]; drun;
           [match goal with
            | |- context [WrapGen.getOpToWrapErroring _ _ _ _ _ _ ?w1] =>
                lookup_ends (inputReferenceFilename opts) (functionName opts)
                  w1
            end
           |]
       end;
   try match goal with
       | |- context [(inputKernelOccurrences opts =? 0)%nat] =>
           destruct (Nat.eqb_spec (inputKernelOccurrences opts) 0)
             as [Hocc|Hocc];
           cbn [negb]; drun;
           [|match goal with
             | |- context [WrapGen.getOpToWrapErroring _ _ _ _ _ _ ?w2] =>
                 lookup_ends (inputKernelFilename opts) (functionName opts)
                   w2
             end]
       end;
   try match goal with
       | |- context [getWrapper opts] =>
           destruct (getWrapper opts) as [wrapper|] eqn:Hwrapper;
           [|unfold getWrapper in Hwrapper; destruct (kernelType opts);
             discriminate Hwrapper];
           drun;
           match goal with
           | |- context [wrap ?c ?e] =>
               destruct (wrap c e) as [[[|]|crashed] e'] eqn:Hwrap
           end;
           cbn [failed]; drun
       end
  |].

(** X15: [main] calls [wrap] at most once, and its exit code is 0 only after
    a call of [wrap] that succeeded.  When it calls [wrap], the output
    directory exists, the function and the reference are each the one
    definition of the name in their file, the function is a [func.func], and
    the kernel is null exactly when [--kernel] does not occur; when it does not
    call [wrap], it returns 1 or stops at the assertion of the walk. *)
Theorem main_wraps_only_found_operations (opts : Options) (w : World Env) :
  let run := main opts w in
  (wrapped (snd run) = wrapped w
   /\ (fst run = Returned 1%Z \/ fst run = Crashed definedTwice))
  \/ (exists wrapper funcOp refOp kernelOp e mf mr,
        let call := mkWrapCall wrapper funcOp refOp kernelOp in
        wrapped (snd run) = wrapped w ++ [call]
        /\ fst run = exitCode (fst (wrap call e))
        /\ getWrapper opts = Some wrapper
        /\ fs_exists (outputDirectory opts) (env w) = true
        /\ inputFunctionFilename opts <> EmptyString
        /\ inputReferenceFilename opts <> EmptyString
        /\ definitions mf (functionName opts) = [FuncFuncOperation funcOp]
        /\ definitions mr (functionName opts) = [refOp]
        /\ match kernelOp with
           | None =>
               inputKernelOccurrences opts = 0
               /\ modules (snd run) = modules w ++ [Some mf; Some mr]
           | Some k =>
               inputKernelOccurrences opts <> 0
               /\ inputKernelFilename opts <> EmptyString
               /\ exists mk,
                    definitions mk (functionName opts) = [k]
                    /\ modules (snd run)
                       = modules w ++ [Some mf; Some mr; Some mk]
           end).
Proof.
  intros run. subst run.
  main_ends opts w;
    try (left; split; [reflexivity|auto]; fail);
    match goal with
    | Hwrap : wrap (mkWrapCall ?wr ?f ?r ?k) ?e = _,
      Hf : definitions ?mf _ = [FuncFuncOperation ?f],
      Hr : definitions ?mr _ = [?r] |- _ =>
        right; exists wr, f, r, k, e, mf, mr; cbv zeta; rewrite Hwrap;
        cbn [fst exitCode];
        repeat (split; [first [reflexivity|assumption]|])
    end;
    first [reflexivity|eexists; split; [eassumption|reflexivity]].
Qed.

(** X16: [main] reads nothing but its input files, in the order function,
    reference, kernel and each one twice in a row: what it has read is always
    a prefix of that list, the whole list when [wrap] has been called, and
    nothing at all when the output directory does not exist. *)
Theorem main_reads_inputs_twice (opts : Options) (w : World Env) :
  let run := main opts w in
  (exists n, reads (snd run) = reads w ++ firstn n (inputFiles opts))
  /\ (wrapped (snd run) <> wrapped w ->
      reads (snd run) = reads w ++ inputFiles opts)
  /\ (fs_exists (outputDirectory opts) (env w) = false ->
      reads (snd run) = reads w).
Proof.
  intros run. subst run. unfold inputFiles.
  main_ends opts w;
    rewrite ?Hdir;
    try match goal with
        | Hocc : inputKernelOccurrences opts = 0 |- _ => rewrite Hocc
        | Hocc : inputKernelOccurrences opts <> 0 |- _ =>
            destruct (inputKernelOccurrences opts); [now elim Hocc|]
        end;
    cbn [Nat.eqb app];
    repeat match goal with
           | Hn : 1 <= ?n <= 2 |- _ =>
               assert (n = 1 \/ n = 2) as [-> | ->] by lia; clear Hn;
               cbn [repeat app]
           end;
    (split; [|split; [intros Hcall; first [reflexivity|now elim Hcall]
                     |intros Hno; first [reflexivity|discriminate Hno]]]);
    first [exists 0; rewrite app_nil_r; reflexivity
          |exists 1; reflexivity |exists 2; reflexivity
          |exists 3; reflexivity |exists 4; reflexivity
          |exists 5; reflexivity |exists 6; reflexivity].
Qed.

(** X17: [main] fails in silence.  It returns 1 having done nothing (no
    message, no file read) exactly when the output directory exists and the
    name of the function file is empty; and whenever it returns 1 before any
    call of [wrap] and without a message, one of the file names it has
    consulted is empty. *)
Theorem main_silent_failures (opts : Options) (w : World Env) :
  let run := main opts w in
  (run = (Returned 1%Z, w)
   <-> fs_exists (outputDirectory opts) (env w) = true
       /\ inputFunctionFilename opts = EmptyString)
  /\ (fst run = Returned 1%Z ->
      errs (snd run) = errs w ->
      wrapped (snd run) = wrapped w ->
      inputFunctionFilename opts = EmptyString
      \/ inputReferenceFilename opts = EmptyString
      \/ (inputKernelOccurrences opts <> 0
          /\ inputKernelFilename opts = EmptyString)).
Proof.
  intros run. subst run.
  main_ends opts w.
  all: split;
    [split;
     [intros Hsame;
      first [split; [reflexivity|assumption]
            |exfalso; try discriminate Hsame]
     |intros [Hd Hf]; first [reflexivity|congruence]]
    |intros Hone Herrs Hcalls; try discriminate Hone].
  all: try (apply (f_equal snd) in Hsame; cbn [snd] in Hsame).
  all: try (apply app_same_nil in Herrs).
  all: try (apply app_same_nil in Hcalls; discriminate Hcalls).
  all: try (first [left; assumption
                  |right; left; assumption
                  |right; right; split; assumption]).
  all: try (exfalso; first [contradiction|discriminate Herrs]).
  all: try (apply (f_equal reads) in Hsame; cbn [reads] in Hsame;
            apply app_same_nil in Hsame;
            first [discriminate Hsame
                  |match goal with
                   | Hn : 1 <= ?n <= 2 |- _ =>
                       destruct n; [lia|discriminate Hsame]
                   end]).
  all: try (apply (f_equal errs) in Hsame; cbn [errs] in Hsame;
            apply app_same_nil in Hsame; discriminate Hsame).
Qed.

End DriverFacts.

Lemma getOpToWrap_unique_definition_witness :
  WrapGen.getOpToWrap DriverCases.Outside (option WrapGen.ModuleOp)
    DriverCases.getFileOrSTDIN DriverCases.parseSourceFile
    "twice.mlir" "top" DriverCases.start
  = (Crashed definedTwice,
     WrapGen.mkWorld DriverCases.outside [Some DriverCases.twice] []
       ["twice.mlir"%string; "twice.mlir"%string] []).
Proof.
  exact (getOpToWrap_unique_definition DriverCases.Outside
           (option WrapGen.ModuleOp) DriverCases.getFileOrSTDIN
           DriverCases.parseSourceFile "twice.mlir" "top" DriverCases.start
           (Some DriverCases.twice) (Some DriverCases.twice)
           DriverCases.outside DriverCases.outside DriverCases.twice
           eq_refl eq_refl eq_refl).
Defined.

(** The driver on the small outside world: with the three files it wraps the
    three definitions of [top] and returns 0; with an empty name for the
    reference it returns 1 after the function file, and says nothing. *)
Example main_wraps_top :
  WrapGen.main DriverCases.Outside (option WrapGen.ModuleOp)
    DriverCases.getFileOrSTDIN DriverCases.fs_exists
    DriverCases.parseSourceFile DriverCases.wrap DriverCases.options
    DriverCases.start
  = (Returned 0%Z,
     WrapGen.mkWorld DriverCases.outside
       [Some DriverCases.software; Some DriverCases.reference;
        Some DriverCases.kernel]
       []
       (inputFiles DriverCases.options)
       [WrapGen.mkWrapCall (WrapGen.HandshakeVerilatorWrapper "out")
          Scenario.funcA DriverCases.topHs (Some DriverCases.topFir)]).
Proof. vm_compute. reflexivity. Qed.

Example main_without_reference :
  WrapGen.main DriverCases.Outside (option WrapGen.ModuleOp)
    DriverCases.getFileOrSTDIN DriverCases.fs_exists
    DriverCases.parseSourceFile DriverCases.wrap DriverCases.optionsNoRef
    DriverCases.start
  = (Returned 1%Z,
     WrapGen.mkWorld DriverCases.outside [Some DriverCases.software] []
       ["sw.mlir"%string; "sw.mlir"%string] []).
Proof. vm_compute. reflexivity. Qed.

(** ** The address width for every bundle (C2) *)

Lemma find_first {A} (p : A -> bool) (l : list A) (x : A) :
  find p l = Some x ->
  exists pre post,
    l = pre ++ x :: post /\ p x = true /\ forall y, In y pre -> p y = false.
Proof.
  induction l as [|a l IH]; [discriminate|]. cbn [find].
  destruct (p a) eqn:Ha.
  - intros [= ->]. exists [], l. split; [reflexivity|]. split; [exact Ha|].
    intros y [].
  - intros Hfind. destruct (IH Hfind) as (pre & post & -> & Hx & Hpre).
    exists (a :: pre), post. split; [reflexivity|]. split; [exact Hx|].
    intros y [<-|Hy]; [exact Ha|now apply Hpre].
Qed.

Lemma wellFormed_of_none sigs :
  (forall sig, In sig sigs ->
     isAddressSignal sig
     && match dataWidthOf sig with None => true | Some _ => false end
     = false) ->
  addressSignalsWellFormed sigs.
Proof.
  intros Hnone sig Hin Haddr Hwidth. specialize (Hnone sig Hin).
  now rewrite Haddr, Hwidth in Hnone.
Qed.

(** The resolution of the address width, for every bundle. *)
Lemma resolveAddrWidth_outcome sigs w :
  resolveAddrWidth sigs w = (addressWidthOutcome sigs, w).
Proof.
  unfold addressWidthOutcome, firstMalformedAddressSignal.
  destruct (find _ sigs) as [bad|] eqn:Hbad.
  - destruct (find_first _ _ _ Hbad) as (pre & post & -> & Hp & Hpre).
    apply andb_prop in Hp as [Haddr Hwidth].
    destruct (dataWidthOf bad) eqn:Hd; [discriminate|].
    unfold resolveAddrWidth, bind.
    now rewrite (findAddrWidth_malformed pre bad post
                   (wellFormed_of_none pre Hpre) Haddr Hd).
  - assert (Hwf : addressSignalsWellFormed sigs).
    { apply wellFormed_of_none. intros sig Hin.
      exact (find_none _ _ Hbad sig Hin). }
    unfold resolveAddrWidth.
    rewrite (bind_returned _ _ _ _ _ (findAddrWidth_last sigs Hwf 0%Z w)).
    destruct (lastAddressSignal sigs) as [sig|] eqn:Hlast; [|reflexivity].
    destruct (dataWidthOf sig) as [aw|] eqn:Hd.
    + unfold bind, assert. destruct (0 <? aw)%Z; reflexivity.
    + exfalso. unfold lastAddressSignal in Hlast.
      apply find_some in Hlast as [Hin Haddr]. apply in_rev in Hin.
      now apply (Hwf sig Hin Haddr).
Qed.

Lemma addressWidthOutcome_settles sigs aw :
  addressWidthOutcome sigs = Returned aw <-> settlesAddressWidth sigs aw.
Proof.
  unfold addressWidthOutcome, firstMalformedAddressSignal, settlesAddressWidth.
  split.
  - destruct (find _ sigs) as [bad|] eqn:Hbad; [discriminate|].
    destruct (lastAddressSignal sigs) as [sig|] eqn:Hlast; [|discriminate].
    destruct (dataWidthOf sig) as [x|] eqn:Hd; [|discriminate].
    destruct (0 <? x)%Z eqn:Hpos; [|discriminate].
    intros [= ->]. split.
    + apply wellFormed_of_none. intros s Hin.
      exact (find_none _ _ Hbad s Hin).
    + exists sig. repeat split; try assumption. now apply Z.ltb_lt.
  - intros (Hwf & sig & Hlast & Hd & Hpos).
    destruct (find _ sigs) as [bad|] eqn:Hbad.
    + exfalso. apply find_some in Hbad as [Hin Hp].
      apply andb_prop in Hp as [Haddr Hwidth].
      destruct (dataWidthOf bad) eqn:Hb; [discriminate|].
      now apply (Hwf bad Hin Haddr).
    + rewrite Hlast, Hd. apply Z.ltb_lt in Hpos. now rewrite Hpos.
Qed.

(** C2: the resolution of the address width goes through every signal of the
    bundle and every address signal overwrites the width, so it settles on
    the data width of the last signal named as a load or store address; it
    stops at an assertion when the bundle has no such signal or when that
    width is zero, and it stops at the first address signal that has no data
    width.  On a bundle whose address signals all have the same positive
    width this is the width of the first one, as the specification has
    it. *)
Theorem resolveAddrWidth_last_address_signal
    (sigs : list FIRRTL.BundleElement) (w : Wrapper) :
  resolveAddrWidth sigs w = (addressWidthOutcome sigs, w)
  /\ (forall aw,
        uniformAddressWidth sigs aw -> (0 < aw)%Z ->
        firstAddressWidth sigs = Some aw
        /\ resolveAddrWidth sigs w = (Returned aw, w)).
Proof.
  split; [apply resolveAddrWidth_outcome|].
  intros aw [(s & Hin & Haddr) Hall] Hpos.
  assert (Hfirst : firstAddressWidth sigs = Some aw).
  { unfold firstAddressWidth.
    destruct (find isAddressSignal sigs) as [sig|] eqn:Hfind.
    - apply find_some in Hfind as [Hsig Hp]. now apply Hall.
    - now rewrite (find_none _ _ Hfind s Hin) in Haddr. }
  split; [exact Hfirst|].
  rewrite resolveAddrWidth_outcome. f_equal.
  apply addressWidthOutcome_settles. split.
  - intros sig Hsig Hp. now rewrite (Hall sig Hsig Hp).
  - unfold lastAddressSignal.
    destruct (find isAddressSignal (rev sigs)) as [sig|] eqn:Hlast.
    + exists sig. split; [reflexivity|].
      apply find_some in Hlast as [Hsig Hp]. apply in_rev in Hsig.
      split; [now apply Hall|exact Hpos].
    + apply in_rev in Hin. now rewrite (find_none _ _ Hlast s Hin) in Haddr.
Qed.

Lemma resolveAddrWidth_last_address_signal_witness :
  resolveAddrWidth Cases.mixedWidths Cases.readyB
  = (Returned 8%Z, Cases.readyB)
  /\ resolveAddrWidth
       [FIRRTL.mkElement "stAddr0" Scenario.control;
        FIRRTL.mkElement "ldAddr1" (Scenario.channel 4)] Cases.readyB
     = (Crashed (AssertionFailed "Expected bundle to have a data signal"),
        Cases.readyB)
  /\ firstAddressWidth Cases.memSigs = Some 3%Z
  /\ resolveAddrWidth Cases.memSigs Cases.readyB
     = (Returned 3%Z, Cases.readyB).
Proof.
  split; [|split].
  - exact (proj1 (resolveAddrWidth_last_address_signal
                    Cases.mixedWidths Cases.readyB)).
  - exact (proj1 (resolveAddrWidth_last_address_signal
                    [FIRRTL.mkElement "stAddr0" Scenario.control;
                     FIRRTL.mkElement "ldAddr1" (Scenario.channel 4)]
                    Cases.readyB)).
  - apply (proj2 (resolveAddrWidth_last_address_signal
                    Cases.memSigs Cases.readyB) 3%Z); [|reflexivity].
    split.
    + exists (FIRRTL.mkElement "ldAddr0" (Scenario.channel 3)).
      split; [now left|reflexivity].
    + intros sig [<-|[<-|[<-|[]]]] Haddr;
        first [reflexivity|discriminate Haddr].
Defined.

(** C2, as the specification words it, fails: in a bundle whose load address
    is 4 bits wide and whose store address is 8 bits wide, the first address
    signal has width 4 and the expansion settles on 8. *)
Lemma resolveAddrWidth_not_first_address_signal :
  firstAddressWidth Cases.mixedWidths = Some 4%Z
  /\ resolveAddrWidth Cases.mixedWidths Cases.readyB
     = (Returned 8%Z, Cases.readyB)
  /\ fst (resolveAddrWidth Cases.mixedWidths Cases.readyB)
     <> Returned 4%Z.
Proof. repeat split; vm_compute; discriminate. Qed.

(** ** Determinism and order of generation (C6) *)

Lemma emitPreamble_keeps_operations eVT eW kernelOp w :
  funcOp (snd (emitPreamble eVT eW kernelOp w)) = funcOp w
  /\ hsOp (snd (emitPreamble eVT eW kernelOp w)) = hsOp w.
Proof.
  destruct kernelOp as [[h|m|n]|]; try (split; reflexivity).
  rewrite emitPreamble_unfold.
  assert (Hio : Blind sameFunc NoCtrl (emitIOTypes (emitVerilatorType eVT))).
  { apply Blind_emitIOTypes; try typeclasses eauto.
    intros os t. apply Blind_emitVerilatorType. typeclasses eauto. }
  destruct (emitIOTypes (emitVerilatorType eVT) w) as [r0 w1] eqn:E0.
  destruct (sameFunc_of_Blind _ _ _ _ _ Hio E0) as [io ->].
  destruct r0 as [[|]|c]; try (split; reflexivity).
  destruct (emitSimulator eVT eW _) as [r1 w2] eqn:E1.
  pose proof (Blind_keeps_ops Any _ _ _ _ (Blind_emitSimulator eVT eW) E1)
    as (Hf & Hh & Hfir).
  cbn [withFirrtl addOps funcOp hsOp firrtlOp] in Hf, Hh, Hfir.
  destruct r1 as [[|]|c]; cbn [snd addOps funcOp hsOp firrtlOp];
    split; congruence.
Qed.

(** C6: generation is a function of the wrapped function, the handshake
    function and the kernel operation.  From any two wrappers that agree on
    these, whatever they hold otherwise, it returns the same outcome and
    performs the same operations on the streams: the same insertions on the
    same stream and the same changes of indentation, in the same order.  Two
    wrappers that also have the same earlier output end with the same
    output, operation for operation, and so with the same bytes, whatever
    turns the operations on the streams into bytes.  A second generation
    from the wrapper the first one has left performs the operations of the
    first again.  And a simulator that was emitted with success, over a
    module with any number of ports, consists of its header and the control
    wiring, the groups of the arguments in the order of the signature, the
    groups of the results in that order, and its footer. *)
Theorem generation_is_deterministic_and_ordered
    (eVT : MLIR.Type_ -> option string) (eW : Z -> option string) :
  (forall kernelOp w1 w2,
      funcOp w1 = funcOp w2 -> hsOp w1 = hsOp w2 ->
      let generate := emitPreamble eVT eW kernelOp in
      fst (generate w1) = fst (generate w2)
      /\ appended generate w1 = appended generate w2
      /\ (stream w1 = stream w2 ->
          stream (snd (generate w1)) = stream (snd (generate w2))
          /\ forall bytes : list StreamOp -> string,
               bytes (stream (snd (generate w1)))
               = bytes (stream (snd (generate w2)))))
  /\ (forall kernelOp w,
      let generate := emitPreamble eVT eW kernelOp in
      fst (generate (snd (generate w))) = fst (generate w)
      /\ appended generate (snd (generate w)) = appended generate w)
  /\ (forall w,
      fst (emitSimulator eVT eW w) = Returned success ->
      exists m inName tyI outName tyO,
        firrtlOp w = Some m
        /\ nth_error (FIRRTL.ports m) (getNumArguments (funcOp w))
           = Some (inName, tyI)
        /\ nth_error (FIRRTL.ports m)
             (getNumResults (funcOp w) + getNumArguments (funcOp w) + 1)
           = Some (outName, tyO)
        /\ appended (emitSimulator eVT eW) w
           = simulatorHeader (getName (funcOp w))
             ++ controlWiring inName outName
             ++ inputPortsHeader
             ++ concat (portGroups (emitInputPort eVT eW) 0
                          (getInputs (funcOp w)) w)
             ++ outputPortsHeader
             ++ concat (portGroups emitOutputPort 0
                          (getResults (funcOp w)) w)
             ++ simulatorFooter).
Proof.
  assert (Hdet : forall kernelOp w1 w2,
             funcOp w1 = funcOp w2 -> hsOp w1 = hsOp w2 ->
             fst (emitPreamble eVT eW kernelOp w1)
             = fst (emitPreamble eVT eW kernelOp w2)
             /\ appended (emitPreamble eVT eW kernelOp) w1
                = appended (emitPreamble eVT eW kernelOp) w2
             /\ (stream w1 = stream w2 ->
                 stream (snd (emitPreamble eVT eW kernelOp w1))
                 = stream (snd (emitPreamble eVT eW kernelOp w2)))).
  { intros kernelOp w1 w2 Hf Hh.
    destruct (emitPreamble_determined eVT eW kernelOp w1) as (r & ops & Hrun).
    destruct (Hrun w1 eq_refl eq_refl) as [Hr1 Hs1].
    destruct (Hrun w2 Hf Hh) as [Hr2 Hs2].
    rewrite (appended_stream _ _ _ Hs1), (appended_stream _ _ _ Hs2).
    split; [now rewrite Hr1, Hr2|]. split; [reflexivity|].
    intros Hstream. now rewrite Hs1, Hs2, Hstream. }
  split; [|split].
  - intros kernelOp w1 w2 Hf Hh generate. subst generate.
    destruct (Hdet kernelOp w1 w2 Hf Hh) as (Hr & Happ & Hstream).
    split; [exact Hr|]. split; [exact Happ|].
    intros Hsame. split; [now apply Hstream|].
    intros bytes. now rewrite (Hstream Hsame).
  - intros kernelOp w generate. subst generate.
    destruct (emitPreamble_keeps_operations eVT eW kernelOp w) as [Hf Hh].
    destruct (Hdet kernelOp _ w Hf Hh) as (Hr & Happ & _).
    split; assumption.
  - intros w Hok.
    destruct (controlLookup w) as [c|] eqn:Hlook.
    { rewrite (emitSimulator_lookup_crash eVT eW w c Hlook) in Hok.
      discriminate Hok. }
    destruct (controlLookup_found w Hlook)
      as (m & inName & tyI & outName & tyO & Hfir & Hin & Hout).
    exists m, inName, tyI, outName, tyO.
    split; [exact Hfir|]. split; [exact Hin|]. split; [exact Hout|].
    pose proof (emitSimulator_layout eVT eW w m inName tyI outName tyO
                  Hfir Hin Hout) as Hsim.
    rewrite Hsim in Hok. cbn [fst] in Hok.
    rewrite (appended_addOps _ _ _ _ Hsim).
    destruct (emitSoftwareInterface_run eVT eW w) as [Hfst Happ].
    rewrite Hfst in Hok. rewrite Happ.
    destruct (fst (forEnumerate (emitInputPort eVT eW) 0
                     (getInputs (funcOp w)) w)) as [[|]|c] eqn:Hins;
      try discriminate.
    rewrite Hok.
    rewrite (forEnumerate_success (R := sameOps) (P := NoCtrl)
               (emitInputPort eVT eW) _
               (fun x i => Blind_emitInputPort eVT eW x i) 0 w Hins).
    rewrite (forEnumerate_success (R := sameOps) (P := NoCtrl)
               emitOutputPort _
               (fun x i => Blind_emitOutputPort x i) 0 w Hok).
    unfold inputPortsHeader. now rewrite <- !app_assoc.
Qed.

Lemma generation_is_deterministic_and_ordered_witness :
  (let generate :=
     emitPreamble Verilator.typeToken Verilator.typeFromWidth
       (Some (FModuleLikeOperation Scenario.moduleA)) in
   fst (generate (Scenario.fresh Scenario.funcA (Some Scenario.hsA)))
   = fst (generate Cases.staleA)
   /\ appended generate (Scenario.fresh Scenario.funcA (Some Scenario.hsA))
      = appended generate Cases.staleA
   /\ stream (snd (generate (Scenario.fresh Scenario.funcA
                               (Some Scenario.hsA))))
      = stream (snd (generate Cases.readyA)))
  /\ exists inName outName,
       appended (emitSimulator Verilator.typeToken Verilator.typeFromWidth)
                readyClocked
       = simulatorHeader "top" ++ controlWiring inName outName
         ++ inputPortsHeader
         ++ concat (portGroups
                      (emitInputPort Verilator.typeToken Verilator.typeFromWidth)
                      0 [IntegerType 32] readyClocked)
         ++ outputPortsHeader
         ++ concat (portGroups emitOutputPort 0 [IntegerType 32]
                      readyClocked)
         ++ simulatorFooter.
Proof.
  destruct (generation_is_deterministic_and_ordered
              Verilator.typeToken Verilator.typeFromWidth)
    as (Hdet & _ & Hord).
  split.
  - destruct (Hdet (Some (FModuleLikeOperation Scenario.moduleA))
                (Scenario.fresh Scenario.funcA (Some Scenario.hsA))
                Cases.staleA eq_refl eq_refl) as (Hr & Happ & _).
    split; [exact Hr|]. split; [exact Happ|].
    exact (proj1 (proj2 (proj2
             (Hdet (Some (FModuleLikeOperation Scenario.moduleA))
                (Scenario.fresh Scenario.funcA (Some Scenario.hsA))
                Cases.readyA eq_refl eq_refl)) eq_refl)).
  - assert (Hok : fst (emitSimulator Verilator.typeToken Verilator.typeFromWidth
                         readyClocked) = Returned success)
      by (vm_compute; reflexivity).
    destruct (Hord readyClocked Hok)
      as (m & inName & tyI & outName & tyO & _ & _ & _ & Happ).
    now exists inName, outName.
Defined.

(** ** Control wiring and the condition of success (C1) *)

Lemma enumerate_nth_error {A} (xs : list A) idx i x :
  In (i, x) (enumerate idx xs)
  <-> idx <= i /\ nth_error xs (i - idx) = Some x.
Proof.
  revert idx. induction xs as [|y xs IH]; intros idx.
  - split; [intros []|]. intros [_ H]. now destruct (i - idx).
  - rewrite enumerate_cons. cbn [In]. rewrite IH. split.
    + intros [[= <- <-]|[Hle Hnth]].
      * split; [lia|]. now rewrite Nat.sub_diag.
      * split; [lia|]. replace (i - idx) with (S (i - S idx)) by lia.
        exact Hnth.
    + intros [Hle Hnth]. destruct (Nat.eq_dec i idx) as [->|Hne].
      * left. rewrite Nat.sub_diag in Hnth. cbn in Hnth. congruence.
      * right. split; [lia|].
        replace (i - idx) with (S (i - S idx)) in Hnth by lia. exact Hnth.
Qed.

Section Success.

Variable eVT : MLIR.Type_ -> option string.
Variable eW : Z -> option string.

(** A loop that ran to its end with success succeeded at every position. *)
Lemma forEnumerate_success_all {A} (body : A -> nat -> M LogicalResult) xs :
  (forall x i, Blind sameOps NoCtrl (body x i)) ->
  forall idx w,
    fst (forEnumerate body idx xs w) = Returned success ->
    allSucceed body idx xs w.
Proof.
  intros Hbody. induction xs as [|x xs IH]; intros idx w Hok p Hp.
  - destruct Hp.
  - cbn [forEnumerate] in Hok.
    assert (Hk : forall r : LogicalResult,
               Blind sameOps NoCtrl
                 (if failed r then ret failure
                  else forEnumerate body (S idx) xs)).
    { intros r; destruct (failed r);
        [apply Blind_ret|now apply Blind_forEnumerate]. }
    destruct (bind_run (body x idx) _ w (Hbody x idx) Hk) as [Hfst _].
    rewrite Hfst in Hok.
    destruct (fst (body x idx w)) as [[|]|c] eqn:Hx; try discriminate.
    cbn [failed] in Hok. rewrite enumerate_cons in Hp.
    destruct Hp as [<-|Hp]; [exact Hx|].
    exact (IH (S idx) w Hok p Hp).
Qed.

Lemma emitExtMemPort_succeeds_iff shape elt idx w m :
  firrtlOp w = Some m ->
  fst (emitExtMemPort eVT eW shape elt idx w) = Returned success
  <-> memoryExpands eVT eW m (hsOp w) idx shape elt.
Proof.
  intros Hfir. split.
  - rewrite emitExtMemPort_cases. unfold expansionOutcome. rewrite Hfir.
    destruct shape as [|size [|s2 rest]]; try discriminate.
    destruct (nth_error (FIRRTL.ports m) idx) as [[name [gw|sigs]]|] eqn:Hport;
      try discriminate.
    rewrite resolveAddrWidth_outcome. cbn [fst].
    destruct (addressWidthOutcome sigs) as [aw|c] eqn:Hres; [|discriminate].
    destruct (hsOp w) as [h|] eqn:Hhs; [|discriminate].
    destruct (eVT elt) as [elemTok|] eqn:HeVT; [|discriminate].
    destruct (eW aw) as [addrTok|] eqn:HeW; [|discriminate].
    cbv zeta.
    destruct (nth_error (Handshake.argumentUsers h) idx)
      as [[|[ld st|opName] [|u2 users]]|] eqn:Husers; try discriminate.
    intros _. exists size, name, sigs, aw, h, elemTok, addrTok, ld, st.
    apply addressWidthOutcome_settles in Hres.
    repeat (split; [first [reflexivity|assumption]|]). assumption.
  - intros (size & name & sigs & aw & hs & elemTok & addrTok & ld & st
            & -> & Hport & Hset & Hhs & HeVT & HeW & Husers).
    now rewrite (emitExtMemPort_expands eVT eW name elemTok addrTok elt aw hs
                   size idx w m sigs ld st HeVT HeW Hfir Hport Hset Hhs
                   Husers).
Qed.

Lemma emitInputPort_succeeds_iff t idx w m :
  firrtlOp w = Some m ->
  idx < length (FIRRTL.ports m) ->
  fst (emitInputPort eVT eW t idx w) = Returned success
  <-> (forall shape elt,
         dyn_cast_MemRefType t = Some (shape, elt) ->
         memoryExpands eVT eW m (hsOp w) idx shape elt).
Proof.
  intros Hfir Hidx.
  destruct (dyn_cast_MemRefType t) as [[shape elt]|] eqn:Hcast.
  - unfold emitInputPort. rewrite Hcast.
    rewrite (emitExtMemPort_succeeds_iff shape elt idx w m Hfir). split.
    + intros Hmem shape' elt' [= <- <-]. exact Hmem.
    + intros Hmem. now apply Hmem.
  - destruct (nth_error_in_range (FIRRTL.ports m) idx Hidx)
      as [[name ty] Hport].
    rewrite (emitInputPort_scalar eVT eW t idx w m name ty Hcast Hfir Hport).
    split; [intros _ shape elt Hsome; discriminate Hsome|reflexivity].
Qed.

Lemma emitSoftwareInterface_succeeds_iff w m :
  firrtlOp w = Some m ->
  getNumResults (funcOp w) + getNumArguments (funcOp w) + 1
  < length (FIRRTL.ports m) ->
  fst (emitSoftwareInterface eVT eW w) = Returned success
  <-> memoryArgumentsExpand eVT eW (funcOp w) m (hsOp w).
Proof.
  intros Hfir Hports.
  destruct (emitSoftwareInterface_run eVT eW w) as [Hfst _]. rewrite Hfst.
  assert (Houts : fst (forEnumerate emitOutputPort 0 (getResults (funcOp w)) w)
                  = Returned success).
  { destruct (RunsOk_forEnumerate (I := wraps (funcOp w) m) emitOutputPort
                (getResults (funcOp w)) 0) with (w := w) as [ops Hrun].
    - intros p Hp w' [Hf' Hfir'].
      destruct (enumerate_In _ _ _ Hp) as [_ Hrange].
      destruct (nth_error_in_range (FIRRTL.ports m)
                  (fst p + getNumArguments (funcOp w) + 1))
        as [[name ty] Hn].
      { unfold getNumResults in Hports. lia. }
      eexists. apply (emitOutputPort_run _ _ _ m name ty);
        [exact Hfir'|now rewrite Hf'].
    - now split.
    - now rewrite Hrun. }
  assert (Hins : fst (forEnumerate (emitInputPort eVT eW) 0
                        (getInputs (funcOp w)) w) = Returned success
                 <-> allSucceed (emitInputPort eVT eW) 0
                       (getInputs (funcOp w)) w).
  { split.
    - apply forEnumerate_success_all. intros x i. apply Blind_emitInputPort.
    - intros Hall.
      apply (forEnumerate_all (R := sameOps) (P := NoCtrl)
               (emitInputPort eVT eW) _
               (fun x i => Blind_emitInputPort eVT eW x i) 0 w Hall). }
  assert (Hargs : allSucceed (emitInputPort eVT eW) 0
                    (getInputs (funcOp w)) w
                  <-> memoryArgumentsExpand eVT eW (funcOp w) m (hsOp w)).
  { unfold allSucceed, memoryArgumentsExpand. split.
    - intros Hall idx t shape elt Hnth Hcast.
      assert (Hidx : idx < length (FIRRTL.ports m)).
      { assert (idx < length (getInputs (funcOp w)))
          by (apply nth_error_Some; congruence).
        unfold getNumArguments in Hports. lia. }
      apply (proj1 (emitInputPort_succeeds_iff t idx w m Hfir Hidx));
        [|exact Hcast].
      apply (Hall (idx, t)). apply enumerate_nth_error.
      split; [lia|]. now rewrite Nat.sub_0_r.
    - intros Hmem [idx t] Hp. cbn [fst snd].
      apply enumerate_nth_error in Hp as [_ Hnth].
      rewrite Nat.sub_0_r in Hnth.
      assert (Hidx : idx < length (FIRRTL.ports m)).
      { assert (idx < length (getInputs (funcOp w)))
          by (apply nth_error_Some; congruence).
        unfold getNumArguments in Hports. lia. }
      apply (proj2 (emitInputPort_succeeds_iff t idx w m Hfir Hidx)).
      intros shape elt Hcast. exact (Hmem idx t shape elt Hnth Hcast). }
  rewrite <- Hargs, <- Hins.
  destruct (fst (forEnumerate (emitInputPort eVT eW) 0
                   (getInputs (funcOp w)) w)) as [[|]|c];
    split; intros H; first [exact Houts|reflexivity|discriminate H].
Qed.

End Success.

(** C1: for a function and a module that satisfy the port-count invariant,
    and types the type emitter accepts, generation wires the input control
    port from the module port at index argumentCount and the output control
    port from the port at index resultCount + argumentCount + 1, each exactly
    once, whatever the number of arguments and results; and it succeeds
    exactly when every memory argument can be expanded, so for every function
    without memory arguments. *)
Theorem generate_wires_control_ports
    (eVT : MLIR.Type_ -> option string) (eW : Z -> option string)
    (f : MLIR.FuncOp) (m : FIRRTL.FModuleLike) (w : Wrapper) :
  funcOp w = f ->
  portCountInvariant f m ->
  typesSupported eVT f ->
  let generate := emitPreamble eVT eW (Some (FModuleLikeOperation m)) in
  exists inName tyI outName tyO pre post,
    nth_error (FIRRTL.ports m) (getNumArguments f) = Some (inName, tyI)
    /\ nth_error (FIRRTL.ports m) (getNumResults f + getNumArguments f + 1)
       = Some (outName, tyO)
    /\ appended generate w = pre ++ controlWiring inName outName ++ post
    /\ NoCtrl pre /\ NoCtrl post
    /\ countLit inCtrlLit (appended generate w) = 1
    /\ countLit outCtrlLit (appended generate w) = 1
    /\ (fst (generate w) = Returned success
        <-> memoryArgumentsExpand eVT eW f m (hsOp w))
    /\ (scalarArguments f -> fst (generate w) = Returned success).
Proof.
  intros Hf Hinv Hsup generate.
  destruct (control_ports_exist f m Hinv)
    as (inName & tyI & outName & tyO & Hin & Hout).
  destruct (emitPreamble_layout eVT eW f m w inName tyI outName tyO
              Hf Hsup Hin Hout) as (io & Hio & Hsw & Hfst & Happ).
  set (sw := emitSoftwareInterface eVT eW) in *.
  set (ws := withFirrtl m w) in *.
  assert (Hpre : NoCtrl (io ++ modelAliases (getName f)
                         ++ simulatorHeader (getName f))).
  { apply closed_app; [exact Hio|]. split; reflexivity. }
  assert (Hpost : NoCtrl (osi [L nl] ++ appended sw ws
                          ++ match fst (sw ws) with
                             | Returned success => driverAlias (getName f)
                             | _ => []
                             end)).
  { apply closed_app; [split; reflexivity|].
    apply closed_app; [exact Hsw|].
    destruct (fst (sw ws)) as [[|]|c]; split; reflexivity. }
  set (pre := io ++ modelAliases (getName f) ++ simulatorHeader (getName f))
    in *.
  set (post := osi [L nl] ++ appended sw ws
               ++ match fst (sw ws) with
                  | Returned success => driverAlias (getName f)
                  | _ => []
                  end) in *.
  clearbody pre post.
  assert (Hiff : fst (generate w) = Returned success
                 <-> memoryArgumentsExpand eVT eW f m (hsOp w)).
  { fold generate in Hfst. rewrite Hfst. subst sw ws.
    rewrite (emitSoftwareInterface_succeeds_iff eVT eW (withFirrtl m w) m
               eq_refl).
    - cbn [withFirrtl funcOp hsOp]. now rewrite Hf.
    - cbn [withFirrtl funcOp]. rewrite Hf.
      unfold portCountInvariant in Hinv. lia. }
  exists inName, tyI, outName, tyO, pre, post.
  fold generate in Happ.
  repeat split; try assumption; try apply Hpre; try apply Hpost;
    try apply Hiff.
  - rewrite Happ, !countLit_app.
    destruct Hpre as [-> _], Hpost as [-> _]. reflexivity.
  - rewrite Happ, !countLit_app.
    destruct Hpre as [_ ->], Hpost as [_ ->]. reflexivity.
  - intros Hscalar. apply Hiff. intros idx t shape elt Hnth Hcast.
    rewrite (Hscalar t (nth_error_In _ _ Hnth)) in Hcast. discriminate Hcast.
Qed.

Lemma generate_wires_control_ports_witness :
  (fst (emitPreamble Verilator.typeToken Verilator.typeFromWidth
          (Some (FModuleLikeOperation Scenario.moduleA))
          (Scenario.fresh Scenario.funcA (Some Scenario.hsA)))
   = Returned success
   /\ countLit inCtrlLit
        (appended (emitPreamble Verilator.typeToken Verilator.typeFromWidth
                     (Some (FModuleLikeOperation Scenario.moduleA)))
                  (Scenario.fresh Scenario.funcA (Some Scenario.hsA))) = 1
   /\ countLit outCtrlLit
        (appended (emitPreamble Verilator.typeToken Verilator.typeFromWidth
                     (Some (FModuleLikeOperation Scenario.moduleA)))
                  (Scenario.fresh Scenario.funcA (Some Scenario.hsA))) = 1)
  /\ (fst (emitPreamble Verilator.typeToken Verilator.typeFromWidth
             (Some (FModuleLikeOperation Scenario.moduleB))
             (Scenario.fresh Scenario.funcB (Some Scenario.hsB)))
      = Returned success
      /\ countLit inCtrlLit
           (appended (emitPreamble Verilator.typeToken Verilator.typeFromWidth
                        (Some (FModuleLikeOperation Scenario.moduleB)))
                     (Scenario.fresh Scenario.funcB (Some Scenario.hsB))) = 1
      /\ countLit outCtrlLit
           (appended (emitPreamble Verilator.typeToken Verilator.typeFromWidth
                        (Some (FModuleLikeOperation Scenario.moduleB)))
                     (Scenario.fresh Scenario.funcB (Some Scenario.hsB))) = 1).
Proof.
  split.
  - assert (Hinv : portCountInvariant Scenario.funcA Scenario.moduleA)
      by reflexivity.
    assert (Hsup : typesSupported Verilator.typeToken Scenario.funcA).
    { intros t [<-|[<-|[]]]; discriminate. }
    assert (Hscalar : scalarArguments Scenario.funcA).
    { intros t [<-|[]]; reflexivity. }
    destruct (generate_wires_control_ports
                Verilator.typeToken Verilator.typeFromWidth
                Scenario.funcA Scenario.moduleA
                (Scenario.fresh Scenario.funcA (Some Scenario.hsA))
                eq_refl Hinv Hsup)
      as (inName & tyI & outName & tyO & pre & post & _ & _ & _ & _ & _
          & Hone & Hone' & _ & Hok).
    split; [exact (Hok Hscalar)|]. split; [exact Hone|exact Hone'].
  - assert (Hinv : portCountInvariant Scenario.funcB Scenario.moduleB)
      by reflexivity.
    assert (Hsup : typesSupported Verilator.typeToken Scenario.funcB).
    { intros t [<-|[]]; discriminate. }
    assert (Hmem : memoryArgumentsExpand Verilator.typeToken
                     Verilator.typeFromWidth Scenario.funcB Scenario.moduleB
                     (Some Scenario.hsB)).
    { intros [|idx] t shape elt Hnth Hcast.
      - injection Hnth as <-. injection Hcast as <- <-.
        exists 8%Z, "in0"%string, Cases.memSigs, 3%Z, Scenario.hsB,
          "IData"%string, "CData"%string, 1, 0.
        repeat split; try reflexivity; apply memSigs_settle.
      - destruct idx; discriminate Hnth. }
    destruct (generate_wires_control_ports
                Verilator.typeToken Verilator.typeFromWidth
                Scenario.funcB Scenario.moduleB
                (Scenario.fresh Scenario.funcB (Some Scenario.hsB))
                eq_refl Hinv Hsup)
      as (inName & tyI & outName & tyO & pre & post & _ & _ & _ & _ & _
          & Hone & Hone' & Hiff & _).
    split; [exact (proj2 Hiff Hmem)|]. split; [exact Hone|exact Hone'].
Defined.

(** C1, as the specification words it, fails.  The function with a
    two-dimensional memory argument and the module of scenario B satisfy the
    port-count invariant, the type emitter accepts the types, and generation
    stops at the assertion on the rank from every wrapper; the function with
    an argument type the type emitter rejects and the module of scenario A
    satisfy the invariant too, and generation fails before it wires any
    control port. *)
Lemma generate_can_stop_at_an_assertion :
  (portCountInvariant Cases.funcRank2 Scenario.moduleB
   /\ typesSupported Verilator.typeToken Cases.funcRank2
   /\ forall w,
        funcOp w = Cases.funcRank2 ->
        fst (emitPreamble Verilator.typeToken Verilator.typeFromWidth
               (Some (FModuleLikeOperation Scenario.moduleB)) w)
        = Crashed notUnidimensional)
  /\ (portCountInvariant Cases.funcOpaque Scenario.moduleA
      /\ fst (emitPreamble Verilator.typeToken Verilator.typeFromWidth
                (Some (FModuleLikeOperation Scenario.moduleA))
                Cases.freshOpaque)
         = Returned failure
      /\ countLit inCtrlLit
           (appended (emitPreamble Verilator.typeToken Verilator.typeFromWidth
                        (Some (FModuleLikeOperation Scenario.moduleA)))
                     Cases.freshOpaque) = 0).
Proof.
  split.
  - split; [reflexivity|]. split.
    + intros t [<-|[]]; discriminate.
    + intros [f h fo st dg] Hf. cbn [funcOp] in Hf. subst f.
      vm_compute. reflexivity.
  - repeat split; vm_compute; reflexivity.
Qed.
